(** * Ballistic trajectory engine: a shallow embedding over the reals

    The engine of the calculator family (drag tables, atmosphere model,
    thrust/mass profile, RK4 trajectory integrator) is embedded with Python's
    [float] read as a real number: [+ - * /], comparisons, [math.sqrt],
    [math.exp], [math.sin], [math.cos] and [**] are the real operations.
    Rounding, infinities and NaN are outside the model.  What is kept from
    Python is control flow and partiality: a division by zero raises
    [ZeroDivisionError], an index out of range raises [IndexError], a missing
    dictionary key raises [KeyError].

    The number of iterations of a loop, and whether a run returns or raises,
    can depend on rounding and on overflow.  For the statements about those
    the loops are also given with their arithmetic left open: the sum that
    advances the time or the swept value is any function within the relative
    error of a rounded sum, and the update of the state is any function,
    which may raise [OverflowError] as [**] and [math.exp] do. *)

From Stdlib Require Import String Bool ZArith Reals Lra Lia List.
From Stdlib Require Import Sorting.Sorted Sorting.Permutation.
Import ListNotations.
Open Scope R_scope.

(** ** Python runtime *)

Module Py.

Inductive exn : Set :=
  ZeroDivisionError | IndexError | KeyError | OverflowError.

Inductive result (A : Type) : Type :=
| Ok (a : A)
| Raise (e : exn).
Arguments Ok {A} a.
Arguments Raise {A} e.

Definition bind {A B : Type} (m : result A) (k : A -> result B) : result B :=
  match m with
  | Ok a => k a
  | Raise e => Raise e
  end.

Definition returns {A : Type} (m : result A) : Prop := exists a, m = Ok a.

(** Comparisons of floats, as booleans. *)
Definition gtb (x y : R) : bool := if Rgt_dec x y then true else false.
Definition geb (x y : R) : bool := if Rge_dec x y then true else false.
Definition ltb (x y : R) : bool := if Rlt_dec x y then true else false.
Definition leb (x y : R) : bool := if Rle_dec x y then true else false.
Definition eqb (x y : R) : bool := if Req_dec_T x y then true else false.

(** [a / b] on floats. *)
Definition div (a b : R) : result R :=
  if eqb b 0 then Raise ZeroDivisionError else Ok (a / b).

(** [l[i]], with Python's negative indices. *)
Definition index {A : Type} (l : list A) (i : Z) : result A :=
  let n := Z.of_nat (length l) in
  let j := if (i <? 0)%Z then (n + i)%Z else i in
  if ((0 <=? j) && (j <? n))%Z%bool then
    match nth_error l (Z.to_nat j) with
    | Some a => Ok a
    | None => Raise IndexError
    end
  else Raise IndexError.

(** [d[k]] on a dictionary with float keys, kept as an association list
    (a dictionary holds each key once). *)
Fixpoint getitem (d : list (R * R)) (k : R) : result R :=
  match d with
  | [] => Raise KeyError
  | (k', v) :: d' => if eqb k' k then Ok v else getitem d' k
  end.

(** [sorted]: a stable sort that compares with [<] only.  [lt] is the
    element type's [<]. *)
Section Sorted.
Context {A : Type} (lt : A -> A -> bool).

Fixpoint insert (x : A) (l : list A) : list A :=
  match l with
  | [] => [x]
  | y :: l' => if lt y x then y :: insert x l' else x :: y :: l'
  end.

Definition sorted (l : list A) : list A := fold_right insert [] l.
End Sorted.

(** [<] on pairs of floats is lexicographic. *)
Definition pair_ltb (p q : R * R) : bool :=
  ltb (fst p) (fst q) || (eqb (fst p) (fst q) && ltb (snd p) (snd q)).

(** [for i in range(a, b): body], where the body may [return]: [Some v] is
    a return of [v] out of the enclosing function, [None] falls through to the
    next iteration. *)
Fixpoint for_range {A : Type} (a : Z) (count : nat)
         (body : Z -> result (option A)) : result (option A) :=
  match count with
  | O => Ok None
  | S c =>
      match body a with
      | Ok None => for_range (a + 1)%Z c body
      | r => r
      end
  end.

(** [math.hypot], [math.radians], [math.atan2]. *)
Definition hypot (a b : R) : R := sqrt (a * a + b * b).
Definition radians (d : R) : R := d * (PI / 180).
Definition atan2 (y x : R) : R :=
  if gtb x 0 then atan (y / x)
  else if ltb x 0 then (if geb y 0 then atan (y / x) + PI else atan (y / x) - PI)
  else if gtb y 0 then PI / 2
  else if ltb y 0 then - (PI / 2)
  else 0.

End Py.

Import Py.

Notation "x <- m ;; k" := (bind m (fun x => k))
  (at level 61, m at next level, right associativity).
Notation "' pat <- m ;; k" := (bind m (fun x => match x with pat => k end))
  (at level 61, pat pattern, m at next level, right associativity).

(** ** Interpolation helpers (module level) *)

Definition clamp (val vmin vmax : R) : R := Rmax vmin (Rmin val vmax).

Definition linear_interpolate (x x0 x1 y0 y1 : R) : result R :=
  if eqb x1 x0 then Ok y0
  else d <- div ((y1 - y0) * (x - x0)) (x1 - x0) ;; Ok (y0 + d).

(** The body of the [for] loop of [interpolate_curve]; [s] is the sorted
    curve, of which [xs] and [ys] are the two columns. *)
Definition interp_body (x : R) (s : list (R * R)) (i : Z)
  : result (option R) :=
  let xs := map fst s in
  let ys := map snd s in
  xi <- index xs i ;;
  if ltb x xi then
    x0 <- index xs (i - 1) ;;
    y0 <- index ys (i - 1) ;;
    yi <- index ys i ;;
    v <- linear_interpolate x x0 xi y0 yi ;;
    Ok (Some v)
  else Ok None.

Definition interpolate_curve (x : R) (curve : list (R * R)) : result R :=
  if (length curve <? 2)%nat then
    match curve with
    | [] => Ok 0.0
    | _ => p <- index curve 0 ;; Ok (snd p)
    end
  else
    let curve := sorted pair_ltb curve in
    let xs := map fst curve in
    let ys := map snd curve in
    x_first <- index xs 0 ;;
    if leb x x_first then index ys 0
    else
      x_last <- index xs (-1) ;;
      if geb x x_last then index ys (-1)
      else
        r <- for_range 1 (length xs - 1) (interp_body x curve) ;;
        match r with
        | Some v => Ok v
        | None => index ys (-1)
        end.

(** ** Standard drag tables *)

Definition GRAVITY : R := 9.80665.
Definition EARTH_ROTATION_RATE : R := 7.292115e-5.
Definition SPEED_OF_SOUND : R := 343.

Module DragModel.

Definition G1 (velocity : R) : R :=
  let mach := velocity / SPEED_OF_SOUND in
  if gtb mach 4.0 then 0.45
  else if gtb mach 3.0 then 0.42
  else if gtb mach 2.5 then 0.40
  else if gtb mach 2.0 then 0.38
  else if gtb mach 1.5 then 0.35
  else if gtb mach 1.2 then 0.33
  else if gtb mach 1.0 then 0.31
  else if gtb mach 0.9 then 0.30
  else if gtb mach 0.8 then 0.29
  else if gtb mach 0.7 then 0.28
  else if gtb mach 0.6 then 0.27
  else 0.25.

Definition G7 (velocity : R) : R :=
  let mach := velocity / SPEED_OF_SOUND in
  if gtb mach 4.0 then 0.38
  else if gtb mach 3.0 then 0.36
  else if gtb mach 2.5 then 0.34
  else if gtb mach 2.0 then 0.32
  else if gtb mach 1.5 then 0.30
  else if gtb mach 1.2 then 0.28
  else if gtb mach 1.0 then 0.26
  else if gtb mach 0.9 then 0.25
  else if gtb mach 0.8 then 0.24
  else if gtb mach 0.7 then 0.23
  else if gtb mach 0.6 then 0.22
  else 0.21.

Definition rocket (velocity : R) : R :=
  let mach := velocity / SPEED_OF_SOUND in
  if gtb mach 3.0 then 0.50
  else if gtb mach 2.0 then 0.45
  else if gtb mach 1.5 then 0.40
  else if gtb mach 1.0 then 0.35
  else if gtb mach 0.8 then 0.30
  else 0.25.

Definition mortar (velocity : R) : R :=
  let mach := velocity / SPEED_OF_SOUND in
  if gtb mach 1.5 then 0.55
  else if gtb mach 1.0 then 0.50
  else if gtb mach 0.8 then 0.45
  else 0.40.

Definition custom (velocity : R) (curve : list (R * R)) : result R :=
  interpolate_curve velocity curve.

End DragModel.

(** ** Projectile *)

Record Projectile : Type := mkProjectile {
  mass : R;
  diameter : R;
  drag_model : string;
  velocity : R;
  area : R;
  projectile_type : string;
  thrust_curve : list (R * R);
  burn_time : R;
  initial_mass : R;
  custom_drag_curve : option (list (R * R))
}.

(** [Projectile.__init__]; [None] is an argument left at its default. *)
Definition Projectile_init (mass diameter : R) (drag_model : string)
    (velocity : R) (projectile_type : string)
    (thrust_curve : option (list (R * R))) (burn_time : R)
    (custom_drag_curve : option (list (R * R))) : Projectile :=
  {| mass := mass;
     diameter := diameter;
     drag_model := drag_model;
     velocity := velocity;
     area := PI * (diameter / 2) ^ 2;
     projectile_type := projectile_type;
     thrust_curve := match thrust_curve with Some c => c | None => [] end;
     burn_time := burn_time;
     initial_mass := mass;
     custom_drag_curve := custom_drag_curve |}.

(** Truth value of an optional list: [None] and [[]] are false. *)
Definition truthy {A : Type} (o : option (list A)) : bool :=
  match o with
  | Some (_ :: _) => true
  | _ => false
  end.

Definition drag_coefficient (self : Projectile) (velocity : R) : result R :=
  if (drag_model self =? "G1")%string then Ok (DragModel.G1 velocity)
  else if (drag_model self =? "G7")%string then Ok (DragModel.G7 velocity)
  else if (drag_model self =? "rocket")%string then Ok (DragModel.rocket velocity)
  else if (drag_model self =? "mortar")%string then Ok (DragModel.mortar velocity)
  else if (drag_model self =? "Custom")%string && truthy (custom_drag_curve self)
  then DragModel.custom velocity
         (match custom_drag_curve self with Some c => c | None => [] end)
  else Ok 0.3.

(** The body of [get_thrust] after the burn-time test, shared by the
    variants: [times] is [sorted(self.thrust_curve.keys())]. *)
Definition thrust_lookup (self : Projectile) (times : list R) (time : R)
  : result R :=
  t_first <- index times 0 ;;
  if leb time t_first then getitem (thrust_curve self) t_first
  else
    t_last <- index times (-1) ;;
    if geb time t_last then getitem (thrust_curve self) t_last
    else
      r <- for_range 1 (length times - 1)
             (fun i =>
                ti <- index times i ;;
                if leb time ti then
                  t0 <- index times (i - 1) ;;
                  t1 <- index times i ;;
                  f0 <- getitem (thrust_curve self) t0 ;;
                  f1 <- getitem (thrust_curve self) t1 ;;
                  q <- div ((f1 - f0) * (time - t0)) (t1 - t0) ;;
                  Ok (Some (f0 + q))
                else Ok None) ;;
      match r with
      | Some v => Ok v
      | None => Ok 0
      end.

Definition get_thrust (self : Projectile) (time : R) : result R :=
  if gtb time (burn_time self) then Ok 0
  else
    let times := sorted ltb (map fst (thrust_curve self)) in
    match times with
    | [] => Ok 0
    | _ => thrust_lookup self times time
    end.

Definition get_mass (self : Projectile) (time : R) : result R :=
  if negb (projectile_type self =? "rocket")%string || gtb time (burn_time self)
  then Ok (mass self)
  else
    q <- div time (burn_time self) ;;
    Ok (initial_mass self - (initial_mass self - mass self) * q).

(** The earlier variant of the engine (v344): [get_thrust] indexes the
    sorted key list without testing it for emptiness. *)
Module V344.

Definition get_thrust (self : Projectile) (time : R) : result R :=
  if gtb time (burn_time self) then Ok 0
  else
    let times := sorted ltb (map fst (thrust_curve self)) in
    thrust_lookup self times time.

End V344.

(** The variant with multi-stage rockets: [get_thrust] and [get_mass] walk
    the list of stages by cumulative burn time; without stages they are the
    single-stage functions, with [interpolate_curve] for the thrust. *)
Module Staged.

(** A stage dictionary, with the defaults of [stage.get] filled in. *)
Record Stage : Type := mkStage {
  stage_burn_time : R;
  mass_loss : R;
  stage_thrust_curve : list (R * R)
}.

(** The [for stage in self.stages] loop of [get_thrust], from the running
    start time [t]. *)
Fixpoint thrust_stages (stages : list Stage) (t time : R) : result R :=
  match stages with
  | [] => Ok 0
  | stage :: stages' =>
      let t1 := t + stage_burn_time stage in
      if leb t time && ltb time t1 then
        let curve := sorted pair_ltb (stage_thrust_curve stage) in
        interpolate_curve (time - t) curve
      else thrust_stages stages' t1 time
  end.

Definition get_thrust (self : Projectile) (stages : list Stage) (time : R)
  : result R :=
  match stages with
  | _ :: _ => thrust_stages stages 0 time
  | [] =>
      if gtb time (burn_time self) then Ok 0
      else
        let curve := sorted pair_ltb (thrust_curve self) in
        interpolate_curve time curve
  end.

(** The [for stage in self.stages] loop of [get_mass], from the running
    start time [t] and mass [m]. *)
Fixpoint mass_stages (stages : list Stage) (t m time : R) : result R :=
  match stages with
  | [] => Ok m
  | stage :: stages' =>
      let t1 := t + stage_burn_time stage in
      if leb t time && ltb time t1 then
        let dmass := mass_loss stage in
        q <- div (time - t) (t1 - t) ;;
        Ok (m - dmass * q)
      else mass_stages stages' t1 (m - mass_loss stage) time
  end.

Definition get_mass (self : Projectile) (stages : list Stage) (time : R)
  : result R :=
  if negb (projectile_type self =? "rocket")%string then Ok (mass self)
  else
    match stages with
    | _ :: _ => mass_stages stages 0 (initial_mass self) time
    | [] =>
        if gtb time (burn_time self) then Ok (mass self)
        else
          q <- div time (burn_time self) ;;
          Ok (initial_mass self - (initial_mass self - mass self) * q)
    end.

End Staged.

(** ** Environment *)

Record Environment : Type := mkEnvironment {
  altitude : R;
  temperature : R;
  pressure : R;
  humidity : R;
  wind_speed : R;
  wind_angle : R;
  coriolis : bool;
  latitude : R;
  air_density : R
}.

(** [Environment.calculate_air_density], on the four attributes it reads. *)
Definition calculate_air_density (altitude temperature pressure humidity : R)
  : result R :=
  let temp_kelvin := temperature + 273.15 in
  let R_gas := 287.058 in
  e <- div (7.5 * temperature) (temperature + 237.3) ;;
  let svp := 6.1078 * Rpower 10 e in
  let vp := svp * humidity / 100 in
  a <- div (pressure * 100) (R_gas * temp_kelvin) ;;
  b <- div (0.378 * vp) (pressure * 100) ;;
  let density := a * (1 - b) in
  let density := density * exp (- altitude / 10000) in
  Ok density.

Definition Environment_init (altitude temperature pressure humidity
    wind_speed wind_angle : R) (coriolis : bool) (latitude : R)
  : result Environment :=
  rho <- calculate_air_density altitude temperature pressure humidity ;;
  Ok {| altitude := altitude;
        temperature := temperature;
        pressure := pressure;
        humidity := humidity;
        wind_speed := wind_speed;
        wind_angle := wind_angle;
        coriolis := coriolis;
        latitude := latitude;
        air_density := rho |}.

(** The variant with the ISA "dynamic air" mode. *)
Module DynamicAir.

Definition ISA_TABLE : list (R * R * R) :=
  [ (0, 15.0, 1013.25); (1000, 8.5, 898.76); (2000, 2.0, 794.98);
    (3000, -4.5, 701.12); (4000, -11.0, 616.60); (5000, -17.5, 540.19);
    (6000, -24.0, 471.82); (7000, -30.5, 410.55); (8000, -37.0, 356.51);
    (9000, -43.5, 308.78); (10000, -50.0, 265.00) ].

Definition isa_interp (alt : R) : result (R * R) :=
  r <- for_range 1 (length ISA_TABLE - 1)
         (fun i =>
            row <- index ISA_TABLE i ;;
            if ltb alt (fst (fst row)) then
              '(a0, t0, p0) <- index ISA_TABLE (i - 1) ;;
              '(a1, t1, p1) <- index ISA_TABLE i ;;
              f <- div (alt - a0) (a1 - a0) ;;
              Ok (Some (t0 + f * (t1 - t0), p0 + f * (p1 - p0)))
            else Ok None) ;;
  match r with
  | Some v => Ok v
  | None =>
      row <- index ISA_TABLE (-1) ;;
      Ok (snd (fst row), snd row)
  end.

(** [calculate_air_density(self, altitude)], on the attributes it reads. *)
Definition calculate_air_density (dynamic_air : bool)
    (temperature pressure humidity altitude : R) : result R :=
  '(temp, pres) <- (if dynamic_air then isa_interp altitude
                    else Ok (temperature, pressure)) ;;
  let temp_kelvin := temp + 273.15 in
  let R_gas := 287.058 in
  e <- div (7.5 * temp) (temp + 237.3) ;;
  let svp := 6.1078 * Rpower 10 e in
  let vp := svp * humidity / 100 in
  a <- div (pres * 100) (R_gas * temp_kelvin) ;;
  b <- div (0.378 * vp) (pres * 100) ;;
  let density := a * (1 - b) in
  let density := density * exp (- altitude / 10000) in
  Ok density.

End DynamicAir.

(** ** Trajectory integrator *)

(** The state list [[x, y, vx, vy]] and a trajectory point
    [(x, y, t, vx, vy, speed)]. *)
Definition State : Type := (R * R * R * R)%type.
Definition Sample : Type := (R * R * R * R * R * R)%type.

Definition sample_t (p : Sample) : R :=
  let '(_, _, t, _, _, _) := p in t.
Definition sample_y (p : Sample) : R :=
  let '(_, y, _, _, _, _) := p in y.

(** [[s + a * k for s, k in zip(state, ks)]]. *)
Definition advance (a : R) (state ks : State) : State :=
  let '(s0, s1, s2, s3) := state in
  let '(k0, k1, k2, k3) := ks in
  (s0 + a * k0, s1 + a * k1, s2 + a * k2, s3 + a * k3).

(** The closure [derivative(s, t)] of [_calculate_trajectory], with the
    variables it captures as parameters. *)
Definition derivative (projectile : Projectile) (environment : Environment)
    (angle_rad wind_x wind_y : R) (s : State) (t : R) : result State :=
  let '(x, y, vx, vy) := s in
  let v_rel_x := vx - wind_x in
  let v_rel_y := vy - wind_y in
  let v_rel := hypot v_rel_x v_rel_y in
  drag_coeff <- drag_coefficient projectile v_rel ;;
  let drag_force :=
    0.5 * air_density environment * v_rel ^ 2 * drag_coeff * area projectile in
  ax <- (if gtb v_rel 0 then
           m <- get_mass projectile t ;;
           div (- (drag_force * v_rel_x)) (m * v_rel)
         else Ok 0) ;;
  ay <- (if gtb v_rel 0 then
           m <- get_mass projectile t ;;
           q <- div (drag_force * v_rel_y) (m * v_rel) ;;
           Ok (- GRAVITY - q)
         else Ok (- GRAVITY)) ;;
  '(ax, ay) <-
    (if (projectile_type projectile =? "rocket")%string
        && ltb t (burn_time projectile)
     then
       thrust <- get_thrust projectile t ;;
       let thrust_angle := if eqb t 0 then angle_rad else atan2 vy vx in
       mx <- get_mass projectile t ;;
       qx <- div (thrust * cos thrust_angle) mx ;;
       my <- get_mass projectile t ;;
       qy <- div (thrust * sin thrust_angle) my ;;
       Ok (ax + qx, ay + qy)
     else Ok (ax, ay)) ;;
  let '(ax, ay) :=
    if coriolis environment then
      let coriolis_param :=
        2 * EARTH_ROTATION_RATE * sin (radians (latitude environment)) in
      (ax + coriolis_param * vy, ay - coriolis_param * vx)
    else (ax, ay) in
  Ok (vx, vy, ax, ay).

(** The adaptive step size of one iteration.  The divisor
    [max(100, current_vel)] is at least 100. *)
Definition step_size (max_time_step min_time_step current_vel : R) : R :=
  Rmax min_time_step
       (Rmin max_time_step (max_time_step * (1000 / Rmax 100 current_vel))).

(** One RK4 update of [state]: [k1] to [k4] and the weighted sum. *)
Definition rk4_step (f : State -> R -> result State) (state : State)
    (time time_step : R) : result State :=
  k1 <- f state time ;;
  let k2_state := advance (0.5 * time_step) state k1 in
  k2 <- f k2_state (time + 0.5 * time_step) ;;
  let k3_state := advance (0.5 * time_step) state k2 in
  k3 <- f k3_state (time + 0.5 * time_step) ;;
  let k4_state := advance time_step state k3 in
  k4 <- f k4_state (time + time_step) ;;
  let '(s0, s1, s2, s3) := state in
  let '(a0, a1, a2, a3) := k1 in
  let '(b0, b1, b2, b3) := k2 in
  let '(c0, c1, c2, c3) := k3 in
  let '(d0, d1, d2, d3) := k4 in
  Ok (s0 + time_step / 6.0 * (a0 + 2 * b0 + 2 * c0 + d0),
      s1 + time_step / 6.0 * (a1 + 2 * b1 + 2 * c1 + d1),
      s2 + time_step / 6.0 * (a2 + 2 * b2 + 2 * c2 + d2),
      s3 + time_step / 6.0 * (a3 + 2 * b3 + 2 * c3 + d3)).

(** The [while state[1] >= 0 and time < 120] loop.  [fuel] bounds the
    number of iterations the model follows; [None] is fuel exhausted. *)
Fixpoint integrate (fuel : nat) (f : State -> R -> result State)
    (max_time_step min_time_step : R) (state : State) (time : R)
    (trajectory : list Sample) : option (result (list Sample)) :=
  match fuel with
  | O => None
  | S fuel' =>
      let '(x, y, vx, vy) := state in
      if geb y 0 && ltb time 120 then
        let trajectory := trajectory ++ [(x, y, time, vx, vy, hypot vx vy)] in
        let current_vel := hypot vx vy in
        let time_step := step_size max_time_step min_time_step current_vel in
        match rk4_step f state time time_step with
        | Ok state' =>
            integrate fuel' f max_time_step min_time_step state'
                      (time + time_step) trajectory
        | Raise e => Some (Raise e)
        end
      else Some (Ok trajectory)
  end.

(** [str.lower] on ASCII text. *)
Definition lower_ascii (c : Ascii.ascii) : Ascii.ascii :=
  let n := Ascii.nat_of_ascii c in
  if ((65 <=? n) && (n <=? 90))%nat then Ascii.ascii_of_nat (n + 32) else c.

Fixpoint lower (s : string) : string :=
  match s with
  | EmptyString => EmptyString
  | String c s' => String (lower_ascii c) (lower s')
  end.

(** The widgets [_calculate_trajectory] reads through [self]. *)
Record Widgets : Type := mkWidgets {
  type_combo : string;
  thrust_input : R;
  burn_time_input : R;
  loaded_drag_curve : option (list (R * R))
}.

(** [wind_x] and [wind_y] of [_calculate_trajectory]. *)
Definition wind_vector (environment : Environment) : R * R :=
  (wind_speed environment * cos (radians (wind_angle environment)),
   wind_speed environment * sin (radians (wind_angle environment))).

Definition DEFAULT_MAX_TIME_STEP : R := 0.1.
Definition DEFAULT_MIN_TIME_STEP : R := 0.001.

Definition _calculate_trajectory (self : Widgets) (fuel : nat)
    (mass diameter : R) (drag_model : string) (velocity angle : R)
    (altitude temperature pressure humidity wind_speed wind_angle : R)
    (coriolis : bool) (latitude : R) (max_time_step min_time_step : R)
  : option (result (list Sample)) :=
  let projectile :=
    Projectile_init mass diameter drag_model velocity
      (lower (type_combo self))
      (Some [(0, thrust_input self)])
      (if (lower (type_combo self) =? "rocket")%string
       then burn_time_input self else 0)
      (loaded_drag_curve self) in
  match Environment_init altitude temperature pressure humidity
                         wind_speed wind_angle coriolis latitude with
  | Raise e => Some (Raise e)
  | Ok environment =>
      let angle_rad := radians angle in
      let '(wind_x, wind_y) := wind_vector environment in
      let state := (0, 0, velocity * cos angle_rad, velocity * sin angle_rad) in
      integrate fuel (derivative projectile environment angle_rad wind_x wind_y)
                max_time_step min_time_step state 0.0 []
  end.

(** The oldest variant of the loop: fixed-step Euler, a constant drag
    coefficient, [while y >= 0] with no bound on time, and the point appended
    after the update. *)
Module Legacy.

Record Projectile : Type := mkProjectile {
  mass : R;
  drag_coeff : R;
  area : R
}.

Fixpoint loop (fuel : nat) (projectile : Projectile)
    (environment : Environment) (wind_x wind_y time_step : R)
    (x y vx vy time : R) (trajectory : list Sample)
  : option (result (list Sample)) :=
  match fuel with
  | O => None
  | S fuel' =>
      if geb y 0 then
        let v_rel_x := vx - wind_x in
        let v_rel_y := vy - wind_y in
        let v_rel := sqrt (v_rel_x ^ 2 + v_rel_y ^ 2) in
        let drag_force :=
          0.5 * air_density environment * v_rel ^ 2
          * drag_coeff projectile * area projectile in
        let acc :=
          ax <- (if gtb v_rel 0 then
                   div (- (drag_force * v_rel_x)) (mass projectile * v_rel)
                 else Ok 0) ;;
          ay <- (if gtb v_rel 0 then
                   q <- div (drag_force * v_rel_y) (mass projectile * v_rel) ;;
                   Ok (- GRAVITY - q)
                 else Ok (- GRAVITY)) ;;
          Ok (if coriolis environment then
                let coriolis_param :=
                  2 * 7.292115e-5 * sin (radians (latitude environment)) in
                (ax + coriolis_param * vy, ay - coriolis_param * vx)
              else (ax, ay)) in
        match acc with
        | Raise e => Some (Raise e)
        | Ok (ax, ay) =>
            let vx := vx + ax * time_step in
            let vy := vy + ay * time_step in
            let x := x + vx * time_step in
            let y := y + vy * time_step in
            let time := time + time_step in
            let trajectory :=
              if geb y 0 then
                trajectory ++ [(x, y, time, vx, vy, sqrt (vx ^ 2 + vy ^ 2))]
              else trajectory in
            loop fuel' projectile environment wind_x wind_y time_step
                 x y vx vy time trajectory
        end
      else Some (Ok trajectory)
  end.

Definition _calculate_trajectory (fuel : nat) (initial_velocity angle_degrees : R)
    (projectile : Projectile) (environment : Environment) (time_step : R)
  : option (result (list Sample)) :=
  let angle_rad := radians angle_degrees in
  let '(wind_x, wind_y) := wind_vector environment in
  let vx := initial_velocity * cos angle_rad in
  let vy := initial_velocity * sin angle_rad in
  loop fuel projectile environment wind_x wind_y time_step 0 0 vx vy 0.0 [].

End Legacy.

(** ** The drag tables as the specification words them

    A table is a list of (threshold, coefficient) rows in descending order of
    threshold and a fallback; the coefficient is that of the first row whose
    threshold the Mach number strictly exceeds. *)

Fixpoint bucket (rows : list (R * R)) (fallback mach : R) : R :=
  match rows with
  | [] => fallback
  | (threshold, cd) :: rows' =>
      if gtb mach threshold then cd else bucket rows' fallback mach
  end.

Definition G1_rows : list (R * R) :=
  [ (4, 0.45); (3, 0.42); (2.5, 0.40); (2, 0.38); (1.5, 0.35); (1.2, 0.33);
    (1, 0.31); (0.9, 0.30); (0.8, 0.29); (0.7, 0.28); (0.6, 0.27) ].

Definition G7_rows : list (R * R) :=
  [ (4, 0.38); (3, 0.36); (2.5, 0.34); (2, 0.32); (1.5, 0.30); (1.2, 0.28);
    (1, 0.26); (0.9, 0.25); (0.8, 0.24); (0.7, 0.23); (0.6, 0.22) ].

Definition rocket_rows : list (R * R) :=
  [ (3, 0.50); (2, 0.45); (1.5, 0.40); (1, 0.35); (0.8, 0.30) ].

Definition mortar_rows : list (R * R) :=
  [ (1.5, 0.55); (1, 0.50); (0.8, 0.45) ].

(** ** Vocabulary of the statements *)

(** The order of curve points: by velocity first. *)
Definition by_fst (p q : R * R) : Prop := fst p <= fst q.

(** The value on the segment from [p0] to [p1]. *)
Definition on_segment (x : R) (p0 p1 : R * R) : R :=
  snd p0 + (snd p1 - snd p0) * (x - fst p0) / (fst p1 - fst p0).

(** The acceleration from drag and gravity on a body of mass [m] moving at
    ([v_rel_x], [v_rel_y]) relative to the air. *)
Definition drag_gravity (rho area cd m v_rel_x v_rel_y : R) : R * R :=
  let v_rel := hypot v_rel_x v_rel_y in
  let drag_force := 0.5 * rho * v_rel ^ 2 * cd * area in
  if gtb v_rel 0 then
    (- (drag_force * v_rel_x) / (m * v_rel),
     - GRAVITY - drag_force * v_rel_y / (m * v_rel))
  else (0, - GRAVITY).

(** The planar Coriolis term. *)
Definition coriolis_term (environment : Environment) (vx vy : R) : R * R :=
  if coriolis environment then
    let coriolis_param :=
      2 * EARTH_ROTATION_RATE * sin (radians (latitude environment)) in
    (coriolis_param * vy, - (coriolis_param * vx))
  else (0, 0).

(** The direction of thrust at time [t]. *)
Definition thrust_heading (angle_rad t vx vy : R) : R :=
  if eqb t 0 then angle_rad else atan2 vy vx.

(** Vapour pressure (hPa) at temperature [T] (Celsius) and relative
    humidity [h] (percent), as [calculate_air_density] computes it. *)
Definition vapor_pressure (T h : R) : R :=
  6.1078 * Rpower 10 (7.5 * T / (T + 237.3)) * h / 100.

(** The density formula before any exception is considered. *)
Definition density_formula (alt T P h : R) : R :=
  P * 100 / (287.058 * (T + 273.15))
  * (1 - 0.378 * vapor_pressure T h / (P * 100))
  * exp (- alt / 10000).

(** Air of moderate size, on which no intermediate result of the density
    calculation leaves the range of a double: an altitude within 100 km of sea
    level (beyond, [math.exp] overflows or underflows), a temperature above
    the pole at -237.3 C (just below it [10 ** x] overflows) and up to
    1000 C, a pressure from 0.001 to 10^6 hPa and a humidity figure within
    10^6 of zero. *)
Definition moderate_air (alt T P h : R) : Prop :=
  -100000 <= alt <= 100000 /\ -237.3 < T <= 1000 /\
  0.001 <= P <= 1000000 /\ -1000000 <= h <= 1000000.

(** The inputs on which no operation of [_calculate_trajectory] divides by
    zero: a non-zero mass, a temperature off the two poles of the density
    formula, a non-zero pressure, and, for a rocket, a non-zero burn time. *)
Definition raise_free (self : Widgets) (mass temperature pressure : R) : Prop :=
  mass <> 0 /\ temperature + 237.3 <> 0 /\ temperature + 273.15 <> 0 /\
  pressure <> 0 /\
  (lower (type_combo self) = "rocket"%string -> burn_time_input self <> 0).

(** ** Concrete inputs used in the statements *)

(** [Projectile(projectile_type='rocket')]: every other argument at its
    default, so the burn time is 0. *)
Definition default_rocket : Projectile :=
  Projectile_init 0.01 0.01 "G7" 800 "rocket" None 0 None.

(** [Projectile()]: all defaults, so the thrust curve is empty. *)
Definition default_projectile : Projectile :=
  Projectile_init 0.01 0.01 "G7" 800 "bullet" None 0 None.

(** A one-kilogram rocket burning for two seconds at 50 N. *)
Definition sample_rocket : Projectile :=
  Projectile_init 1 0.1 "rocket" 100 "rocket" (Some [(0, 50)]) 2 None.

(** A mortar shell that was given a thrust curve and a burn time. *)
Definition sample_mortar : Projectile :=
  Projectile_init 3.2 0.082 "mortar" 150 "mortar" (Some [(0, 50)]) 2 None.

(** Still air of density 1.2, no Coriolis term. *)
Definition still_air : Environment :=
  {| altitude := 0; temperature := 15; pressure := 1013.25; humidity := 50;
     wind_speed := 0; wind_angle := 0; coriolis := false; latitude := 45;
     air_density := 1.2 |}.

(** The hard cap on the number of steps that the specification names, and
    the number of minimum-size steps that fit into the 120 seconds. *)
Definition STEP_CAP : nat := Z.to_nat 10000.
Definition TIME_CAP_STEPS : nat := Z.to_nat 120000.

(** A custom drag curve whose coefficient is 0 at every velocity. *)
Definition zero_drag_curve : list (R * R) := [(0, 0); (1, 0)].

(** The widgets set for an unpowered bullet with that curve loaded. *)
Definition bullet_widgets : Widgets :=
  {| type_combo := "Bullet"; thrust_input := 0; burn_time_input := 0;
     loaded_drag_curve := Some zero_drag_curve |}.

(** A drag-free shot straight up at 20 km/s in the standard atmosphere,
    with the default step sizes. *)
Definition fast_vertical_shot (fuel : nat) : option (result (list Sample)) :=
  _calculate_trajectory bullet_widgets fuel 1 0.01 "Custom" 20000 90
    0 15 1013.25 50 0 0 false 45 DEFAULT_MAX_TIME_STEP DEFAULT_MIN_TIME_STEP.

(** The widgets set for a rocket with a burn time of 0. *)
Definition rocket_widgets : Widgets :=
  {| type_combo := "Rocket"; thrust_input := 1000; burn_time_input := 0;
     loaded_drag_curve := None |}.

(** A level shot of that rocket at 100 m/s in the standard atmosphere. *)
Definition zero_burn_rocket_shot (fuel : nat)
  : option (result (list Sample)) :=
  _calculate_trajectory rocket_widgets fuel 1 0.05 "rocket" 100 0
    0 15 1013.25 50 0 0 false 45 DEFAULT_MAX_TIME_STEP DEFAULT_MIN_TIME_STEP.

(** ** Further vocabulary *)

(** The order [sorted] puts curve points in: Python's order on tuples. *)
Definition lex_le (p q : R * R) : Prop :=
  fst p < fst q \/ (fst p = fst q /\ snd p <= snd q).

(** The summed burn time and the summed mass loss of a list of stages. *)
Definition total_burn (stages : list Staged.Stage) : R :=
  fold_right (fun s acc => Staged.stage_burn_time s + acc) 0 stages.
Definition total_loss (stages : list Staged.Stage) : R :=
  fold_right (fun s acc => Staged.mass_loss s + acc) 0 stages.

(** Two stages: 2 s losing 0.3 kg, then 1 s losing 0.1 kg. *)
Definition two_stages : list Staged.Stage :=
  [ Staged.mkStage 2 0.3 [(0, 100); (2, 0)]; Staged.mkStage 1 0.1 [(0, 50)] ].

(** The fields of a trajectory point that [update_results] reads:
    [p[0]], [p[3]], [p[4]] and [p[5]]. *)
Definition sample_x (p : Sample) : R :=
  let '(x, _, _, _, _, _) := p in x.
Definition sample_vx (p : Sample) : R :=
  let '(_, _, _, vx, _, _) := p in vx.
Definition sample_vy (p : Sample) : R :=
  let '(_, _, _, _, vy, _) := p in vy.
Definition sample_speed (p : Sample) : R :=
  let '(_, _, _, _, _, v) := p in v.



(** A rocket whose thrust dictionary has three keys: 100 N at ignition,
    500 N after one second, 0 N at burn-out after two. *)
Definition three_key_rocket : Projectile :=
  Projectile_init 1 0.1 "rocket" 100 "rocket"
                  (Some [(0, 100); (1, 500); (2, 0)]) 2 None.

(** ** The result summary *)

(** [max(iterable)] and [max(iterable, key=...)] on a non-empty iterable,
    given as its first item and the rest: a later item replaces the current
    maximum only when its key is strictly greater. *)
Definition max_by {A : Type} (key : A -> R) (first : A) (rest : list A) : A :=
  fold_left (fun best item => if gtb (key item) (key best) then item else best)
            rest first.

(** The points that [update_results] lists: those with [i % 10 == 0],
    [i] counting from the index given. *)
Fixpoint data_lines (i : nat) (trajectory : list Sample) : list Sample :=
  match trajectory with
  | [] => []
  | point :: rest =>
      if (i mod 10 =? 0)%nat then point :: data_lines (S i) rest
      else data_lines (S i) rest
  end.

(** The numbers that [update_results] puts into the summary text. *)
Record Summary : Type := mkSummary {
  max_height : R;
  max_height_idx : nat;
  max_height_at : R;
  distance : R;
  flight_time : R;
  impact_velocity : R;
  impact_energy : R
}.

(** [update_results] without the formatting: [None] is the branch that
    shows "No trajectory data available"; otherwise the summary numbers and
    the points of the data table.  [range(len(self.trajectory))] is [0]
    followed by [seq 1 (length rest)], and the key reads the trajectory at an
    index of that range. *)
Definition update_results (mass_input : R) (trajectory : list Sample)
  : result (option (Summary * list Sample)) :=
  match trajectory with
  | [] => Ok None
  | first :: rest =>
      let max_height :=
        max_by (fun y => y) (sample_y first) (map sample_y rest) in
      let max_height_idx :=
        max_by (fun i => sample_y (nth i trajectory first))
               0%nat (seq 1 (length rest)) in
      last_point <- index trajectory (-1) ;;
      let distance := sample_x last_point in
      let flight_time := sample_t last_point in
      let impact_velocity := sample_speed last_point in
      let impact_energy := 0.5 * (mass_input / 1000) * impact_velocity ^ 2 in
      top <- index trajectory (Z.of_nat max_height_idx) ;;
      Ok (Some (mkSummary max_height max_height_idx (sample_x top) distance
                          flight_time impact_velocity impact_energy,
                data_lines 0 trajectory))
  end.

(** ** A calculation from the button to the summary *)

(** The values of the input widgets that [calculate_trajectory] reads,
    in the units of the form (grams, millimetres). *)
Record Inputs : Type := mkInputs {
  mass_input : R;
  diam_input : R;
  drag_model_combo : string;
  velocity_input : R;
  angle_input : R;
  altitude_input : R;
  temp_input : R;
  pressure_input : R;
  humidity_input : R;
  wind_speed_input : R;
  wind_angle_input : R;
  coriolis_check : bool;
  latitude_input : R
}.

(** [validate_inputs]: [None] is [True]; [Some message] is the warning
    shown before [False] is returned. *)
Definition validate_inputs (self : Widgets) (inp : Inputs) : option string :=
  if leb (mass_input inp) 0 then Some "Mass must be positive"%string
  else if leb (diam_input inp) 0 then Some "Diameter must be positive"%string
  else if leb (velocity_input inp) 0
  then Some "Muzzle velocity must be positive"%string
  else if (lower (type_combo self) =? "rocket")%string
          && ltb (burn_time_input self) 0
  then Some "Burn time cannot be negative"%string
  else None.

(** What the user gets to see. *)
Inductive Outcome : Type :=
| Rejected (message : string)
| Failed (e : exn)
| NoData
| Shown (display : option (Summary * list Sample)).

(** [on_calculation_complete]: an exception of [update_results] is not
    caught here. *)
Definition on_calculation_complete (inp : Inputs) (trajectory : list Sample)
  : result Outcome :=
  match trajectory with
  | _ :: _ =>
      display <- update_results (mass_input inp) trajectory ;;
      Ok (Shown display)
  | [] => Ok NoData
  end.

(** [calculate_trajectory], with [CalculationThread.run] and the slot its
    signal is connected to in place of the thread: an exception of
    [_calculate_trajectory] is caught by [run] and reported through
    [on_calculation_error]; a returned trajectory goes to
    [on_calculation_complete]. *)
Definition calculate_trajectory (self : Widgets) (inp : Inputs) (fuel : nat)
  : option (result Outcome) :=
  match validate_inputs self inp with
  | Some message => Some (Ok (Rejected message))
  | None =>
      match _calculate_trajectory self fuel
              (mass_input inp / 1000) (diam_input inp / 1000)
              (drag_model_combo inp) (velocity_input inp) (angle_input inp)
              (altitude_input inp) (temp_input inp) (pressure_input inp)
              (humidity_input inp) (wind_speed_input inp)
              (wind_angle_input inp) (coriolis_check inp) (latitude_input inp)
              DEFAULT_MAX_TIME_STEP DEFAULT_MIN_TIME_STEP with
      | None => None
      | Some (Raise e) => Some (Ok (Failed e))
      | Some (Ok trajectory) => Some (on_calculation_complete inp trajectory)
      end
  end.

(** A form filled in for a 9.5 g bullet, and one for a one-kilogram
    rocket in a light cross wind. *)
Definition bullet_form : Inputs :=
  {| mass_input := 9.5; diam_input := 7.82; drag_model_combo := "G7";
     velocity_input := 830; angle_input := 45; altitude_input := 0;
     temp_input := 15; pressure_input := 1013.25; humidity_input := 50;
     wind_speed_input := 0; wind_angle_input := 0; coriolis_check := false;
     latitude_input := 45 |}.
Definition rocket_form : Inputs :=
  {| mass_input := 1000; diam_input := 50; drag_model_combo := "rocket";
     velocity_input := 100; angle_input := 45; altitude_input := 0;
     temp_input := 15; pressure_input := 1013.25; humidity_input := 50;
     wind_speed_input := 3; wind_angle_input := 90; coriolis_check := false;
     latitude_input := 45 |}.

(** ** The parameter sweep *)

(** [param_map.get(param, None)]. *)
Definition param_map (param : string) : option string :=
  if (param =? "Angle")%string then Some "angle"%string
  else if (param =? "Muzzle Velocity")%string then Some "velocity"%string
  else None.

(** [params[sweep_key] = val] on the parameter set built from the form.
    A parameter set is kept as the form values it is computed from; the two
    keys that can be swept are copied from the form unchanged. *)
Definition set_sweep (sweep_key : string) (val : R) (inp : Inputs) : Inputs :=
  if (sweep_key =? "angle")%string then
    mkInputs (mass_input inp) (diam_input inp) (drag_model_combo inp)
             (velocity_input inp) val (altitude_input inp) (temp_input inp)
             (pressure_input inp) (humidity_input inp) (wind_speed_input inp)
             (wind_angle_input inp) (coriolis_check inp) (latitude_input inp)
  else
    mkInputs (mass_input inp) (diam_input inp) (drag_model_combo inp)
             val (angle_input inp) (altitude_input inp) (temp_input inp)
             (pressure_input inp) (humidity_input inp) (wind_speed_input inp)
             (wind_angle_input inp) (coriolis_check inp) (latitude_input inp).

(** The [while val <= end] loop of [run_batch].  [add] is the sum in
    [val += step]. *)
Fixpoint sweep_loop (add : R -> R -> R) (fuel : nat) (inp : Inputs)
    (sweep_key : string) (val end_ step : R) (runs : list Inputs)
  : option (list Inputs) :=
  match fuel with
  | O => None
  | S fuel' =>
      if leb val end_ then
        sweep_loop add fuel' inp sweep_key (add val step) end_ step
                   (runs ++ [set_sweep sweep_key val inp])
      else Some runs
  end.

(** How [run_batch] ends: with one of its three warnings, or by starting
    the batch thread on the parameter sets. *)
Inductive BatchStart : Type :=
| InvalidSweepParameter
| StepNotPositive
| NoParameterSets
| Started (runs : list Inputs).

Definition run_batch (add : R -> R -> R) (inp : Inputs) (param : string)
    (start end_ step : R) (fuel : nat) : option BatchStart :=
  match param_map param with
  | None => Some InvalidSweepParameter
  | Some sweep_key =>
      if leb step 0 then Some StepNotPositive
      else
        match sweep_loop add fuel inp sweep_key start end_ step [] with
        | None => None
        | Some [] => Some NoParameterSets
        | Some runs => Some (Started runs)
        end
  end.

(** ** The fixed-step Euler variant with a time limit *)

(** A later variant of the loop (unnamed/part_000, the third program):
    Euler steps of 0.02 s, an air density of 1.225, [while y >= 0 and
    t < 120], the point appended after the update and a [break] once [y]
    is negative.  Its [Projectile] is built without a custom curve, so
    [drag_coefficient] is G1, G7 or the constant 0.3. *)
Module Euler.

Definition dt : R := 0.02.

Definition drag_coefficient (drag_model : string) (velocity : R) : R :=
  if (drag_model =? "G1")%string then DragModel.G1 velocity
  else if (drag_model =? "G7")%string then DragModel.G7 velocity
  else 0.3.

Fixpoint loop (fuel : nat) (mass diameter : R) (drag_model : string)
    (x y vx vy t : R) (trajectory : list Sample)
  : option (result (list Sample)) :=
  match fuel with
  | O => None
  | S fuel' =>
      if geb y 0 && ltb t 120 then
        let v := hypot vx vy in
        let Cd := drag_coefficient drag_model v in
        let rho := 1.225 in
        let Fd := 0.5 * rho * (diameter / 2) ^ 2 * PI * Cd * v ^ 2 in
        let acc :=
          ax <- div (- Fd * vx) (mass * v) ;;
          q <- div (Fd * vy) (mass * v) ;;
          Ok (ax, - GRAVITY - q) in
        match acc with
        | Raise e => Some (Raise e)
        | Ok (ax, ay) =>
            let vx := vx + ax * dt in
            let vy := vy + ay * dt in
            let x := x + vx * dt in
            let y := y + vy * dt in
            let t := t + dt in
            let trajectory := trajectory ++ [(x, y, t, vx, vy, v)] in
            if ltb y 0 then Some (Ok trajectory)
            else loop fuel' mass diameter drag_model x y vx vy t trajectory
        end
      else Some (Ok trajectory)
  end.

Definition _calculate_trajectory (fuel : nat) (mass diameter : R)
    (drag_model : string) (velocity angle : R)
  : option (result (list Sample)) :=
  let rad := radians angle in
  let vx := velocity * cos rad in
  let vy := velocity * sin rad in
  loop fuel mass diameter drag_model 0 0 vx vy 0 [].

(** The number of 0.02 s steps in 120 s. *)
Definition MAX_POINTS : nat := Z.to_nat 6000.

(** The body of the loop up to [y += vy * dt]: the new state and the speed
    [v] that is recorded with it. *)
Definition euler_step (mass diameter : R) (drag_model : string)
    (state : State) : result (State * R) :=
  let '(x, y, vx, vy) := state in
  let v := hypot vx vy in
  let Cd := drag_coefficient drag_model v in
  let rho := 1.225 in
  let Fd := 0.5 * rho * (diameter / 2) ^ 2 * PI * Cd * v ^ 2 in
  ax <- div (- Fd * vx) (mass * v) ;;
  q <- div (Fd * vy) (mass * v) ;;
  let ay := - GRAVITY - q in
  let vx := vx + ax * dt in
  let vy := vy + ay * dt in
  let x := x + vx * dt in
  let y := y + vy * dt in
  Ok ((x, y, vx, vy), v).

(** The same loop with its arithmetic left open: [add] is the sum in
    [t += dt], and [advance] the rest of the body, which can raise. *)
Fixpoint loop_with (add : R -> R -> R) (advance : State -> result (State * R))
    (fuel : nat) (state : State) (t : R) (trajectory : list Sample)
  : option (result (list Sample)) :=
  match fuel with
  | O => None
  | S fuel' =>
      let '(_, y, _, _) := state in
      if geb y 0 && ltb t 120 then
        match advance state with
        | Raise e => Some (Raise e)
        | Ok ((x, y, vx, vy), v) =>
            let t := add t dt in
            let trajectory := trajectory ++ [(x, y, t, vx, vy, v)] in
            if ltb y 0 then Some (Ok trajectory)
            else loop_with add advance fuel' (x, y, vx, vy) t trajectory
        end
      else Some (Ok trajectory)
  end.

End Euler.

(** ** The derivative of the earlier variant (v344) *)

(** In v344 a projectile has no custom drag curve, [get_thrust] is the
    unguarded one, and the derivative ends with a spin-drift term that two
    further widgets control. *)
Module V344Flight.

Record SpinWidgets : Type := mkSpinWidgets {
  spin_drift_check : bool;
  twist_input : R
}.

Definition drag_coefficient (self : Projectile) (velocity : R) : R :=
  if (drag_model self =? "G1")%string then DragModel.G1 velocity
  else if (drag_model self =? "G7")%string then DragModel.G7 velocity
  else if (drag_model self =? "rocket")%string then DragModel.rocket velocity
  else if (drag_model self =? "mortar")%string then DragModel.mortar velocity
  else 0.3.

Definition derivative (self : SpinWidgets) (projectile : Projectile)
    (environment : Environment) (angle_rad wind_x wind_y : R)
    (s : State) (t : R) : result State :=
  let '(x, y, vx, vy) := s in
  let v_rel_x := vx - wind_x in
  let v_rel_y := vy - wind_y in
  let v_rel := hypot v_rel_x v_rel_y in
  let drag_coeff := drag_coefficient projectile v_rel in
  let drag_force :=
    0.5 * air_density environment * v_rel ^ 2 * drag_coeff * area projectile in
  ax <- (if gtb v_rel 0 then
           m <- get_mass projectile t ;;
           div (- (drag_force * v_rel_x)) (m * v_rel)
         else Ok 0) ;;
  ay <- (if gtb v_rel 0 then
           m <- get_mass projectile t ;;
           q <- div (drag_force * v_rel_y) (m * v_rel) ;;
           Ok (- GRAVITY - q)
         else Ok (- GRAVITY)) ;;
  '(ax, ay) <-
    (if (projectile_type projectile =? "rocket")%string
        && ltb t (burn_time projectile)
     then
       thrust <- V344.get_thrust projectile t ;;
       let thrust_angle := if eqb t 0 then angle_rad else atan2 vy vx in
       mx <- get_mass projectile t ;;
       qx <- div (thrust * cos thrust_angle) mx ;;
       my <- get_mass projectile t ;;
       qy <- div (thrust * sin thrust_angle) my ;;
       Ok (ax + qx, ay + qy)
     else Ok (ax, ay)) ;;
  let '(ax, ay) :=
    if coriolis environment then
      let coriolis_param :=
        2 * EARTH_ROTATION_RATE * sin (radians (latitude environment)) in
      (ax + coriolis_param * vy, ay - coriolis_param * vx)
    else (ax, ay) in
  ax <- (if spin_drift_check self
            && (projectile_type projectile =? "bullet")%string
         then
           let twist_rate := twist_input self * 0.0254 in
           spin_rate <- div (v_rel * 2 * PI) twist_rate ;;
           let spin_drift := 0.0001 * spin_rate * v_rel in
           Ok (ax + spin_drift)
         else Ok ax) ;;
  Ok (vx, vy, ax, ay).

End V344Flight.

(** The spin-drift term of v344 at relative speed [v_rel], for a twist
    given in inches. *)
Definition spin_drift_term (twist v_rel : R) : R :=
  0.0001 * (v_rel * 2 * PI / (twist * 0.0254)) * v_rel.

(** ** The batch thread *)

(** [BatchCalculationThread.run]: one call of [_calculate_trajectory] per
    parameter set, the results appended in order; an exception ends the loop
    and is reported instead of any result.  Every call is given the same
    [fuel]. *)
Fixpoint batch_run (self : Widgets) (fuel : nat) (batch_params : list Inputs)
    (results : list (list Sample)) : option (result (list (list Sample))) :=
  match batch_params with
  | [] => Some (Ok results)
  | params :: rest =>
      match _calculate_trajectory self fuel
              (mass_input params / 1000) (diam_input params / 1000)
              (drag_model_combo params) (velocity_input params)
              (angle_input params) (altitude_input params)
              (temp_input params) (pressure_input params)
              (humidity_input params) (wind_speed_input params)
              (wind_angle_input params) (coriolis_check params)
              (latitude_input params)
              DEFAULT_MAX_TIME_STEP DEFAULT_MIN_TIME_STEP with
      | None => None
      | Some (Raise e) => Some (Raise e)
      | Some (Ok trajectory) =>
          batch_run self fuel rest (results ++ [trajectory])
      end
  end.

(** ** Inputs of the oldest variant *)

(** The default bullet of the oldest program: 10 g, 7.62 mm, the drag
    coefficient of its G1 entry. *)
Definition legacy_bullet : Legacy.Projectile :=
  Legacy.mkProjectile 0.01 0.519 (PI * (0.00762 / 2) ^ 2).

(** An updraft: the standard atmosphere with a wind of 50 m/s at 90 degrees,
    which the programs take as blowing straight up. *)
Definition updraft : Environment :=
  {| altitude := 0; temperature := 15; pressure := 1013.25; humidity := 50;
     wind_speed := 50; wind_angle := 90; coriolis := false; latitude := 45;
     air_density := density_formula 0 15 1013.25 50 |}.

(** A light shell of 100 mm with a drag coefficient of 1, whose mass (just
    under 2 g) is the one that falls through that air at 2 m/s. *)
Definition light_shell : Legacy.Projectile :=
  Legacy.mkProjectile
    (2 * density_formula 0 15 1013.25 50 * (PI * (0.1 / 2) ^ 2) / GRAVITY)
    1 (PI * (0.1 / 2) ^ 2).

(** ** The RK4 loop with its arithmetic left open *)

(** [add] is within the relative error [u] of the exact sum, as the rounded
    sum of two doubles is for [u = 2^-53]. *)
Definition rounded_sum (u : R) (add : R -> R -> R) : Prop :=
  forall a b, Rabs (add a b - (a + b)) <= u * Rabs (a + b).

(** The unit roundoff of a double. *)
Definition UNIT_ROUNDOFF : R := / 2 ^ 53.

(** A sum that is not exact: it comes out too large by the unit
    roundoff. *)
Definition coarse_add (a b : R) : R := (a + b) * (1 + UNIT_ROUNDOFF).

(** The value of an accumulator that starts at [val] after [i] sums
    [val += step]. *)
Fixpoint repeated_add (add : R -> R -> R) (val step : R) (i : nat) : R :=
  match i with
  | O => val
  | S i' => repeated_add add (add val step) step i'
  end.

(** The arithmetic of one iteration of the loop: the sum in
    [time += time_step], [math.hypot] on the two velocities, the adaptive step
    at a speed, and the update of the state from [k1] to [k4], which can
    raise. *)
Record Arith : Type := mkArith {
  add_time : R -> R -> R;
  speed_of : R -> R -> R;
  step_of : R -> R;
  update_state : State -> R -> R -> result State
}.

(** The [while state[1] >= 0 and time < 120] loop over an arithmetic. *)
Fixpoint integrate_with (m : Arith) (fuel : nat) (state : State) (time : R)
    (trajectory : list Sample) : option (result (list Sample)) :=
  match fuel with
  | O => None
  | S fuel' =>
      let '(x, y, vx, vy) := state in
      if geb y 0 && ltb time 120 then
        let trajectory :=
          trajectory ++ [(x, y, time, vx, vy, speed_of m vx vy)] in
        let current_vel := speed_of m vx vy in
        let time_step := step_of m current_vel in
        match update_state m state time time_step with
        | Ok state' =>
            integrate_with m fuel' state' (add_time m time time_step)
                           trajectory
        | Raise e => Some (Raise e)
        end
      else Some (Ok trajectory)
  end.

(** The arithmetic of the reals, on which [integrate] runs. *)
Definition exact_arith (f : State -> R -> result State)
    (max_time_step min_time_step : R) : Arith :=
  mkArith Rplus hypot (step_size max_time_step min_time_step) (rk4_step f).

(** An arithmetic that is not exact: every sum comes out too large by the
    unit roundoff, and the update raises [OverflowError] once the speed has
    passed 10^150, as [v_rel ** 2] does beyond the range of a double. *)
Definition coarse_arith (f : State -> R -> result State)
    (max_time_step min_time_step : R) : Arith :=
  mkArith coarse_add
          hypot
          (step_size max_time_step min_time_step)
          (fun state time time_step =>
             let '(_, _, vx, vy) := state in
             if gtb (hypot vx vy) (10 ^ 150) then Raise OverflowError
             else rk4_step f state time time_step).

(** A list of points whose first time is [time] and in which every point
    is followed by one whose time is the sum, in the arithmetic, of its own
    time and the step at its speed. *)
Fixpoint paced_with (m : Arith) (time : R) (traj : list Sample) : Prop :=
  match traj with
  | [] => True
  | p :: rest =>
      sample_t p = time /\
      paced_with m (add_time m time (step_of m (sample_speed p))) rest
  end.

(** The least progress of the time per iteration, when steps lie between
    [min_time_step] and [cap] and sums are within [u]: times stay below
    [120 + cap]. *)
Definition least_advance (u min_time_step cap : R) : R :=
  min_time_step - u * (120 + cap).

(** The least progress of the swept value per iteration of [run_batch],
    when sums are within [u]: the value stays between [start] and
    [end + step]. *)
Definition sweep_advance (u start end_ step : R) : R :=
  step - u * (Rabs start + Rabs end_ + step).

(** A magnitude far inside the range of a double: sums, products and
    squares of two such values are finite. *)
Definition moderate (x : R) : Prop := Rabs x <= 10 ^ 100.

(** * Properties *)

(** ** Reflection of the float comparisons *)

Lemma gtb_true x y : gtb x y = true <-> x > y.
Proof. unfold gtb; destruct (Rgt_dec x y); split; auto; discriminate. Qed.
Lemma gtb_false x y : gtb x y = false <-> x <= y.
Proof. unfold gtb; destruct (Rgt_dec x y); split; try discriminate; auto; lra. Qed.
Lemma geb_true x y : geb x y = true <-> x >= y.
Proof. unfold geb; destruct (Rge_dec x y); split; auto; discriminate. Qed.
Lemma geb_false x y : geb x y = false <-> x < y.
Proof. unfold geb; destruct (Rge_dec x y); split; try discriminate; auto; lra. Qed.
Lemma ltb_true x y : ltb x y = true <-> x < y.
Proof. unfold ltb; destruct (Rlt_dec x y); split; auto; discriminate. Qed.
Lemma ltb_false x y : ltb x y = false <-> y <= x.
Proof. unfold ltb; destruct (Rlt_dec x y); split; try discriminate; auto; lra. Qed.
Lemma leb_true x y : leb x y = true <-> x <= y.
Proof. unfold leb; destruct (Rle_dec x y); split; auto; discriminate. Qed.
Lemma leb_false x y : leb x y = false <-> y < x.
Proof. unfold leb; destruct (Rle_dec x y); split; try discriminate; auto; lra. Qed.
Lemma eqb_true x y : eqb x y = true <-> x = y.
Proof. unfold eqb; destruct (Req_dec_T x y); split; auto; discriminate. Qed.
Lemma eqb_false x y : eqb x y = false <-> x <> y.
Proof. unfold eqb; destruct (Req_dec_T x y); split; try discriminate; auto; contradiction. Qed.

(** Decide one comparison on the spot, from the linear facts in scope. *)
Ltac cmp_case b :=
  let E := fresh "E" in
  destruct b eqn:E;
  [ first [ apply gtb_true in E | apply geb_true in E | apply ltb_true in E
          | apply leb_true in E | apply eqb_true in E ]
  | first [ apply gtb_false in E | apply geb_false in E | apply ltb_false in E
          | apply leb_false in E | apply eqb_false in E ] ];
  try (exfalso; lra).

Ltac cmp_step :=
  match goal with
  | |- context [gtb ?x ?y] => cmp_case (gtb x y)
  | |- context [geb ?x ?y] => cmp_case (geb x y)
  | |- context [ltb ?x ?y] => cmp_case (ltb x y)
  | |- context [leb ?x ?y] => cmp_case (leb x y)
  | |- context [eqb ?x ?y] => cmp_case (eqb x y)
  end.

Ltac cmp := repeat (cmp_step; simpl).

(** ** Drag tables *)

Lemma G1_bucket v : DragModel.G1 v = bucket G1_rows 0.25 (v / SPEED_OF_SOUND).
Proof. unfold DragModel.G1, G1_rows; simpl. cmp; reflexivity. Qed.

Lemma G7_bucket v : DragModel.G7 v = bucket G7_rows 0.21 (v / SPEED_OF_SOUND).
Proof. unfold DragModel.G7, G7_rows; simpl. cmp; reflexivity. Qed.

Lemma rocket_bucket v :
  DragModel.rocket v = bucket rocket_rows 0.25 (v / SPEED_OF_SOUND).
Proof. unfold DragModel.rocket, rocket_rows; simpl. cmp; reflexivity. Qed.

Lemma mortar_bucket v :
  DragModel.mortar v = bucket mortar_rows 0.40 (v / SPEED_OF_SOUND).
Proof. unfold DragModel.mortar, mortar_rows; simpl. cmp; reflexivity. Qed.

Lemma G1_breakpoint : DragModel.G1 (343 * 1.5) = 0.33.
Proof. unfold DragModel.G1, SPEED_OF_SOUND. cmp; reflexivity. Qed.

Lemma G7_breakpoint : DragModel.G7 (343 * 1.5) = 0.28.
Proof. unfold DragModel.G7, SPEED_OF_SOUND. cmp; reflexivity. Qed.

(** A row's coefficient is returned exactly on the half-open interval
    between its threshold and the previous row's. *)
Lemma bucket_interval pre t cd post fallback mach :
  Forall (fun r => mach <= fst r) pre -> t < mach ->
  bucket (pre ++ (t, cd) :: post) fallback mach = cd.
Proof.
  induction 1 as [| [t' cd'] pre Hle _ IH]; intros Hlt; simpl.
  - cmp. reflexivity.
  - simpl in Hle. cmp. now apply IH.
Qed.

Lemma bucket_fallback rows fallback mach :
  Forall (fun r => mach <= fst r) rows -> bucket rows fallback mach = fallback.
Proof.
  induction 1 as [| [t' cd'] rows Hle _ IH]; simpl; [reflexivity |].
  simpl in Hle. cmp. exact IH.
Qed.

(** ** List indexing *)

Lemma index_nat {A} (l : list A) (i : nat) (a : A) :
  nth_error l i = Some a -> index l (Z.of_nat i) = Ok a.
Proof.
  intros H. unfold index.
  assert (Hlt : (i < length l)%nat) by (apply nth_error_Some; congruence).
  replace (Z.of_nat i <? 0)%Z with false by (symmetry; apply Z.ltb_ge; lia).
  replace (0 <=? Z.of_nat i)%Z with true by (symmetry; apply Z.leb_le; lia).
  replace (Z.of_nat i <? Z.of_nat (length l))%Z with true
    by (symmetry; apply Z.ltb_lt; lia).
  simpl. rewrite Nat2Z.id, H. reflexivity.
Qed.

Lemma index_first {A} (a : A) (l : list A) : index (a :: l) 0 = Ok a.
Proof. apply (index_nat (a :: l) 0). reflexivity. Qed.

Lemma nth_length_last {A} (l : list A) (a d : A) :
  nth (length l) (a :: l) d = last (a :: l) d.
Proof.
  revert a. induction l as [| b l IH]; intros a; [reflexivity |].
  change (nth (length l) (b :: l) d = last (b :: l) d). apply IH.
Qed.

Lemma index_last {A} (a : A) (l : list A) :
  index (a :: l) (-1) = Ok (last (a :: l) a).
Proof.
  unfold index.
  replace (-1 <? 0)%Z with true by reflexivity.
  set (n := length (a :: l)).
  assert (Hn : (1 <= n)%nat) by (subst n; simpl; lia).
  replace (0 <=? Z.of_nat n + -1)%Z with true by (symmetry; apply Z.leb_le; lia).
  replace (Z.of_nat n + -1 <? Z.of_nat n)%Z with true
    by (symmetry; apply Z.ltb_lt; lia).
  simpl andb. cbv iota.
  replace (Z.to_nat (Z.of_nat n + -1)) with (n - 1)%nat by lia.
  subst n. rewrite nth_error_nth' with (d := a) by (simpl; lia).
  f_equal. simpl length. replace (S (length l) - 1)%nat with (length l) by lia.
  apply nth_length_last.
Qed.

Lemma index_empty {A} (i : Z) : index (@nil A) i = Raise IndexError.
Proof.
  unfold index. simpl length. simpl Z.of_nat.
  destruct (i <? 0)%Z eqn:E.
  - apply Z.ltb_lt in E.
    replace (0 <=? 0 + i)%Z with false by (symmetry; apply Z.leb_gt; lia).
    reflexivity.
  - destruct (0 <=? i)%Z; simpl; [| reflexivity].
    replace (i <? 0)%Z with false. reflexivity.
Qed.

(** ** [sorted] returns an ordered permutation *)

Section SortedFacts.
Context {A : Type} (lt : A -> A -> bool) (le : A -> A -> Prop).
Hypothesis le_trans : forall a b c, le a b -> le b c -> le a c.
Hypothesis lt_le : forall a b, lt a b = true -> le a b.
Hypothesis nlt_le : forall a b, lt a b = false -> le b a.

Lemma insert_perm x l : Permutation (insert lt x l) (x :: l).
Proof.
  induction l as [| y l IH]; simpl; [reflexivity |].
  destruct (lt y x); [| reflexivity].
  rewrite IH. apply perm_swap.
Qed.

Lemma sorted_perm l : Permutation (sorted lt l) l.
Proof.
  induction l as [| x l IH]; simpl; [reflexivity |].
  rewrite insert_perm. now constructor.
Qed.

Lemma insert_sorted x l :
  StronglySorted le l -> StronglySorted le (insert lt x l).
Proof.
  induction 1 as [| y l Hs IH Hall]; simpl.
  - repeat constructor.
  - destruct (lt y x) eqn:E.
    + constructor; [exact IH |].
      apply (Permutation_Forall (Permutation_sym (insert_perm x l))).
      constructor; [now apply lt_le | exact Hall].
    + constructor; [now constructor |].
      constructor; [now apply nlt_le |].
      eapply Forall_impl; [| exact Hall].
      intros a Ha. apply le_trans with y; [now apply nlt_le | exact Ha].
Qed.

Lemma sorted_sorted l : StronglySorted le (sorted lt l).
Proof.
  induction l as [| x l IH]; simpl; [constructor |].
  now apply insert_sorted.
Qed.
End SortedFacts.

Lemma sorted_curve_ordered curve : StronglySorted by_fst (sorted pair_ltb curve).
Proof.
  apply sorted_sorted; unfold by_fst, pair_ltb.
  - intros a b c; lra.
  - intros a b H. apply orb_true_iff in H as [H | H].
    + apply ltb_true in H; lra.
    + apply andb_true_iff in H as [H _]. apply eqb_true in H; lra.
  - intros a b H. apply orb_false_iff in H as [H _].
    now apply ltb_false in H.
Qed.

Lemma sorted_curve_perm curve : Permutation (sorted pair_ltb curve) curve.
Proof. apply sorted_perm. Qed.

(** ** [interpolate_curve] *)

Lemma linear_interpolate_bracket x p0 p1 :
  fst p0 <= x < fst p1 ->
  linear_interpolate x (fst p0) (fst p1) (snd p0) (snd p1)
  = Ok (on_segment x p0 p1).
Proof.
  intros H. unfold linear_interpolate, div, on_segment.
  cmp. reflexivity.
Qed.

Lemma interp_scan x s count : forall a : nat,
  (1 <= a)%nat -> (a + count = length s)%nat ->
  (forall j p, (j < a)%nat -> nth_error s j = Some p -> fst p <= x) ->
  (exists j p, nth_error s j = Some p /\ x < fst p) ->
  exists i p0 p1,
    nth_error s i = Some p0 /\ nth_error s (S i) = Some p1 /\
    fst p0 <= x < fst p1 /\
    for_range (Z.of_nat a) count (interp_body x s)
    = Ok (Some (on_segment x p0 p1)).
Proof.
  induction count as [| c IH]; intros a Ha Hlen Hbelow (j & p & Hj & Hp).
  - exfalso.
    destruct (Nat.lt_ge_cases j a) as [Hlt | Hge].
    + specialize (Hbelow j p Hlt Hj). lra.
    + assert (j < length s)%nat by (apply nth_error_Some; congruence). lia.
  - destruct (nth_error s a) as [pa |] eqn:Epa;
      [| apply nth_error_None in Epa; lia].
    destruct a as [| a']; [lia |].
    destruct (nth_error s a') as [p0 |] eqn:Ep0;
      [| apply nth_error_None in Ep0; lia].
    assert (Hxa : index (map fst s) (Z.of_nat (S a')) = Ok (fst pa))
      by (apply index_nat; rewrite nth_error_map, Epa; reflexivity).
    assert (Hya : index (map snd s) (Z.of_nat (S a')) = Ok (snd pa))
      by (apply index_nat; rewrite nth_error_map, Epa; reflexivity).
    assert (Hx0 : index (map fst s) (Z.of_nat (S a') - 1) = Ok (fst p0)).
    { replace (Z.of_nat (S a') - 1)%Z with (Z.of_nat a') by lia.
      apply index_nat; rewrite nth_error_map, Ep0; reflexivity. }
    assert (Hy0 : index (map snd s) (Z.of_nat (S a') - 1) = Ok (snd p0)).
    { replace (Z.of_nat (S a') - 1)%Z with (Z.of_nat a') by lia.
      apply index_nat; rewrite nth_error_map, Ep0; reflexivity. }
    assert (Hp0 : fst p0 <= x) by (apply (Hbelow a' p0); [lia | exact Ep0]).
    destruct (Rlt_dec x (fst pa)) as [Hlt | Hnlt].
    + exists a', p0, pa. repeat split; try assumption.
      cbn [for_range]. unfold interp_body at 1. cbv zeta.
      rewrite Hxa. cbn [bind].
      replace (ltb x (fst pa)) with true by (symmetry; now apply ltb_true).
      rewrite Hx0, Hy0, Hya. cbn [bind].
      rewrite linear_interpolate_bracket by lra. reflexivity.
    + destruct (IH (S (S a'))) as (i & q0 & q1 & H0 & H1 & Hb & Hr).
      * lia.
      * lia.
      * intros k q Hk Hq.
        destruct (Nat.eq_dec k (S a')) as [-> | Hne].
        -- rewrite Epa in Hq. injection Hq as <-. lra.
        -- apply (Hbelow k q); [lia | exact Hq].
      * exists j, p. split; assumption.
      * exists i, q0, q1. repeat split; try assumption; try tauto.
        cbn [for_range]. unfold interp_body at 1. cbv zeta.
        rewrite Hxa. cbn [bind].
        replace (ltb x (fst pa)) with false by (symmetry; apply ltb_false; lra).
        replace (Z.of_nat (S a') + 1)%Z with (Z.of_nat (S (S a'))) by lia.
        exact Hr.
Qed.

(** What [interpolate_curve] returns on a curve of two points or more, in
    terms of the sorted points. *)
Lemma interpolate_curve_cases x curve first rest :
  (2 <= length curve)%nat ->
  sorted pair_ltb curve = first :: rest ->
  let s := first :: rest in
  let lst := last s first in
  (x <= fst first /\ interpolate_curve x curve = Ok (snd first))
  \/ (fst first < x /\ fst lst <= x /\ interpolate_curve x curve = Ok (snd lst))
  \/ (fst first < x < fst lst /\
      exists i p0 p1,
        nth_error s i = Some p0 /\ nth_error s (S i) = Some p1 /\
        fst p0 <= x < fst p1 /\
        interpolate_curve x curve = Ok (on_segment x p0 p1)).
Proof.
  intros Hlen Hs s lst.
  assert (Hls : length s = length curve).
  { subst s. rewrite <- Hs. apply Permutation_length, sorted_curve_perm. }
  unfold interpolate_curve.
  replace (length curve <? 2)%nat with false by (symmetry; apply Nat.ltb_ge; lia).
  rewrite Hs. fold s.
  assert (Hxf : index (map fst s) 0 = Ok (fst first)) by apply index_first.
  assert (Hyf : index (map snd s) 0 = Ok (snd first)) by apply index_first.
  assert (Hxl : index (map fst s) (-1) = Ok (fst lst)).
  { subst s lst. cbn [map]. rewrite index_last. f_equal.
    change (fst first :: map fst rest) with (map fst (first :: rest)).
    generalize (first :: rest) as l. clear. intros l.
    induction l as [| a l IH]; [reflexivity |].
    destruct l as [| b l]; [reflexivity |]. exact IH. }
  assert (Hyl : index (map snd s) (-1) = Ok (snd lst)).
  { subst s lst. cbn [map]. rewrite index_last. f_equal.
    change (snd first :: map snd rest) with (map snd (first :: rest)).
    generalize (first :: rest) as l. clear. intros l.
    induction l as [| a l IH]; [reflexivity |].
    destruct l as [| b l]; [reflexivity |]. exact IH. }
  rewrite Hxf. cbn [bind].
  destruct (Rle_dec x (fst first)) as [Hle | Hgt].
  { left. split; [exact Hle |].
    replace (leb x (fst first)) with true by (symmetry; now apply leb_true).
    exact Hyf. }
  right.
  replace (leb x (fst first)) with false by (symmetry; apply leb_false; lra).
  rewrite Hxl. cbn [bind].
  destruct (Rge_dec x (fst lst)) as [Hge | Hlt].
  { left. repeat split; try lra.
    replace (geb x (fst lst)) with true by (symmetry; now apply geb_true).
    exact Hyl. }
  right. split; [lra |].
  replace (geb x (fst lst)) with false by (symmetry; apply geb_false; lra).
  destruct (interp_scan x s (length s - 1) 1) as (i & p0 & p1 & H0 & H1 & Hb & Hr).
  - lia.
  - lia.
  - intros j p Hj Hp. assert (j = 0)%nat as -> by lia.
    subst s. simpl in Hp. injection Hp as <-. lra.
  - exists (length s - 1)%nat, lst. split; [| lra].
    subst lst s. rewrite nth_error_nth' with (d := first) by (simpl; lia).
    f_equal. simpl length. replace (S (length rest) - 1)%nat with (length rest) by lia.
    apply nth_length_last.
  - exists i, p0, p1. repeat split; try assumption; try tauto.
    rewrite length_map. change (Z.of_nat 1) with 1%Z in Hr.
    rewrite Hr. reflexivity.
Qed.

Lemma interpolate_curve_returns x curve : returns (interpolate_curve x curve).
Proof.
  destruct curve as [| p [| q curve]].
  - now exists 0.0.
  - exists (snd p). reflexivity.
  - destruct (sorted pair_ltb (p :: q :: curve)) as [| first rest] eqn:Hs.
    + pose proof (Permutation_length (sorted_curve_perm (p :: q :: curve))) as H.
      rewrite Hs in H. discriminate.
    + destruct (interpolate_curve_cases x (p :: q :: curve) first rest)
        as [(_ & H) | [(_ & _ & H) | (_ & i & p0 & p1 & _ & _ & _ & H)]];
        [simpl; lia | exact Hs | | |]; eexists; exact H.
Qed.

(** Run a Python-level computation on concrete floats: unfold the control
    flow and settle each comparison by linear arithmetic. *)
Ltac list_positions :=
  repeat match goal with
         | |- context [Pos.to_nat ?p] =>
             let n := eval compute in (Pos.to_nat p) in
             change (Pos.to_nat p) with n
         end.

Ltac run_py :=
  repeat (cbn -[Rplus Rmult Rminus Rdiv Rinv Ropp IZR Rpower exp cos sin sqrt PI atan];
          list_positions;
          unfold pair_ltb, interp_body, linear_interpolate, div;
          cbn -[Rplus Rmult Rminus Rdiv Rinv Ropp IZR Rpower exp cos sin sqrt PI atan];
          cmp).

Lemma custom_example_mid :
  DragModel.custom 200 [(100, 0.3); (300, 0.5)] = Ok 0.4.
Proof.
  unfold DragModel.custom, interpolate_curve. run_py. f_equal. lra.
Qed.

Lemma custom_example_low :
  DragModel.custom 50 [(100, 0.3); (300, 0.5)] = Ok 0.3.
Proof.
  unfold DragModel.custom, interpolate_curve. run_py. reflexivity.
Qed.

Lemma custom_example_high :
  DragModel.custom 400 [(100, 0.3); (300, 0.5)] = Ok 0.5.
Proof.
  unfold DragModel.custom, interpolate_curve. run_py. reflexivity.
Qed.

(** C4, as the code has it: for every velocity each of the four standard
    tables (G1, G7, rocket, mortar) returns the coefficient of the first row
    whose threshold Mach = v/343 strictly exceeds (the fallback when it
    exceeds none).  The comparison is strict, so at the breakpoint velocity
    343 * 1.5 the Mach number 1.5 falls into the next lower bucket: G1 gives
    0.33 and G7 gives 0.28. *)
Theorem C4_drag_tables_strict_buckets :
  (forall v, DragModel.G1 v = bucket G1_rows 0.25 (v / 343)) /\
  (forall v, DragModel.G7 v = bucket G7_rows 0.21 (v / 343)) /\
  (forall v, DragModel.rocket v = bucket rocket_rows 0.25 (v / 343)) /\
  (forall v, DragModel.mortar v = bucket mortar_rows 0.40 (v / 343)) /\
  DragModel.G1 (343 * 1.5) = 0.33 /\
  DragModel.G7 (343 * 1.5) = 0.28.
Proof.
  split; [exact G1_bucket |]. split; [exact G7_bucket |].
  split; [exact rocket_bucket |]. split; [exact mortar_bucket |].
  split; [exact G1_breakpoint | exact G7_breakpoint].
Qed.

(** C4 as stated fails: at v = 343 * 1.5 the G1 table does not return 0.35
    and the G7 table does not return 0.30. *)
Lemma C4_breakpoint_counterexample :
  DragModel.G1 (343 * 1.5) <> 0.35 /\ DragModel.G7 (343 * 1.5) <> 0.30.
Proof.
  rewrite G1_breakpoint, G7_breakpoint. split; lra.
Qed.

(** C5: [DragModel.custom] works on the curve sorted ascending by velocity
    (a permutation of the given points).  An empty curve gives 0 and a
    one-point curve its only Cd.  Otherwise the first point's Cd is returned
    at or below the first velocity, the last point's Cd at or above the last
    velocity, and in between the value on the segment joining two
    neighbouring points that bracket the velocity.  On the curve
    [(100,0.3),(300,0.5)]: Cd(200) = 0.4, Cd(50) = 0.3, Cd(400) = 0.5. *)
Theorem C5_custom_curve_interpolation (curve : list (R * R)) (v : R) :
  let s := sorted pair_ltb curve in
  Permutation s curve /\ StronglySorted by_fst s /\
  match s with
  | [] => DragModel.custom v curve = Ok 0
  | [p] => DragModel.custom v curve = Ok (snd p)
  | first :: _ =>
      let lst := last s first in
      (v <= fst first /\ DragModel.custom v curve = Ok (snd first))
      \/ (fst first < v /\ fst lst <= v /\
          DragModel.custom v curve = Ok (snd lst))
      \/ (fst first < v < fst lst /\
          exists i p0 p1,
            nth_error s i = Some p0 /\ nth_error s (S i) = Some p1 /\
            fst p0 <= v < fst p1 /\
            DragModel.custom v curve
            = Ok (snd p0 + (snd p1 - snd p0) * (v - fst p0) / (fst p1 - fst p0)))
  end /\
  DragModel.custom 200 [(100, 0.3); (300, 0.5)] = Ok 0.4 /\
  DragModel.custom 50 [(100, 0.3); (300, 0.5)] = Ok 0.3 /\
  DragModel.custom 400 [(100, 0.3); (300, 0.5)] = Ok 0.5.
Proof.
  intros s.
  pose proof (sorted_curve_perm curve) as Hperm. fold s in Hperm.
  split; [exact Hperm |].
  split; [apply sorted_curve_ordered |].
  split;
    [| repeat split;
       [apply custom_example_mid | apply custom_example_low
        | apply custom_example_high]].
  destruct s as [| first [| second rest]] eqn:Hs.
  - apply Permutation_nil in Hperm. subst curve.
    unfold DragModel.custom, interpolate_curve. simpl. f_equal. lra.
  - apply Permutation_length_1_inv in Hperm. subst curve. reflexivity.
  - apply (interpolate_curve_cases v curve first (second :: rest)).
    + rewrite <- (Permutation_length Hperm). simpl. lia.
    + exact Hs.
Qed.

(** ** Mass and thrust *)

Lemma get_mass_not_rocket p t :
  projectile_type p <> "rocket"%string -> get_mass p t = Ok (mass p).
Proof.
  intros H. unfold get_mass.
  apply String.eqb_neq in H. rewrite H. reflexivity.
Qed.

Lemma get_mass_after_burn p t :
  burn_time p < t -> get_mass p t = Ok (mass p).
Proof.
  intros H. unfold get_mass.
  replace (gtb t (burn_time p)) with true by (symmetry; apply gtb_true; lra).
  now rewrite orb_true_r.
Qed.

Lemma get_mass_during_burn p t :
  projectile_type p = "rocket"%string -> t <= burn_time p -> burn_time p <> 0 ->
  get_mass p t
  = Ok (initial_mass p - (initial_mass p - mass p) * (t / burn_time p)).
Proof.
  intros Hty Ht Hb. unfold get_mass, div.
  rewrite Hty. simpl. cmp. reflexivity.
Qed.

Lemma get_mass_zero_burn p t :
  projectile_type p = "rocket"%string -> t <= burn_time p -> burn_time p = 0 ->
  get_mass p t = Raise ZeroDivisionError.
Proof.
  intros Hty Ht Hb. unfold get_mass, div.
  rewrite Hty. simpl. cmp. reflexivity.
Qed.

(** Wherever [get_mass] returns on a projectile whose [initial_mass] is its
    [mass], it returns that mass. *)
Lemma get_mass_value p t m :
  initial_mass p = mass p -> get_mass p t = Ok m -> m = mass p.
Proof.
  intros Hi. unfold get_mass, div.
  destruct (negb _ || _); [congruence |].
  cmp; simpl; [discriminate |].
  intros H. injection H as <-. rewrite Hi. lra.
Qed.

Lemma get_mass_constant p t :
  initial_mass p = mass p ->
  (projectile_type p = "rocket"%string -> t <= burn_time p -> burn_time p <> 0) ->
  get_mass p t = Ok (mass p).
Proof.
  intros Hi Hb.
  destruct (string_dec (projectile_type p) "rocket") as [Hty | Hty];
    [| now apply get_mass_not_rocket].
  destruct (Rle_dec t (burn_time p)) as [Hle | Hgt];
    [| apply get_mass_after_burn; lra].
  rewrite get_mass_during_burn by auto.
  f_equal. rewrite Hi. lra.
Qed.
(** ** The derivative *)

(** Equality of two returned states, component by component. *)
Ltac state_eq :=
  apply f_equal;
  apply f_equal2; [apply f_equal2; [apply f_equal2 |] |];
  try reflexivity; try lra.

Section Derivative.
Variables (p : Projectile) (env : Environment) (angle_rad wind_x wind_y : R).
Variables (x y vx vy t cd m : R).
Let v_rel := hypot (vx - wind_x) (vy - wind_y).
Let dg := drag_gravity (air_density env) (area p) cd m (vx - wind_x) (vy - wind_y).
Let cor := coriolis_term env vx vy.
Hypothesis Hcd : drag_coefficient p v_rel = Ok cd.
Hypothesis Hm : get_mass p t = Ok m.
Hypothesis Hm0 : m <> 0.

Lemma derivative_unpowered :
  (projectile_type p =? "rocket")%string && ltb t (burn_time p) = false ->
  derivative p env angle_rad wind_x wind_y (x, y, vx, vy) t
  = Ok (vx, vy, fst dg + fst cor, snd dg + snd cor).
Proof.
  intros Hoff. unfold derivative. fold v_rel.
  rewrite Hcd, Hoff. cbn [bind].
  subst dg cor. unfold drag_gravity, coriolis_term. fold v_rel.
  destruct (gtb v_rel 0) eqn:Ev.
  - apply gtb_true in Ev. rewrite Hm. unfold div. cbn [bind].
    replace (eqb (m * v_rel) 0) with false
      by (symmetry; apply eqb_false; nra).
    cbn [bind]. destruct (coriolis env); cbn [fst snd]; state_eq.
  - cbn [bind]. destruct (coriolis env); cbn [fst snd]; state_eq.
Qed.

Lemma derivative_powered thrust :
  (projectile_type p =? "rocket")%string && ltb t (burn_time p) = true ->
  get_thrust p t = Ok thrust ->
  let heading := thrust_heading angle_rad t vx vy in
  derivative p env angle_rad wind_x wind_y (x, y, vx, vy) t
  = Ok (vx, vy,
        fst dg + thrust * cos heading / m + fst cor,
        snd dg + thrust * sin heading / m + snd cor).
Proof.
  intros Hon Hthrust heading. unfold derivative. fold v_rel.
  rewrite Hcd, Hon, Hthrust, Hm. cbn [bind].
  subst dg cor heading. unfold drag_gravity, coriolis_term, thrust_heading.
  fold v_rel. unfold div.
  replace (eqb m 0) with false by (symmetry; now apply eqb_false).
  destruct (gtb v_rel 0) eqn:Ev.
  - apply gtb_true in Ev. cbn [bind].
    replace (eqb (m * v_rel) 0) with false
      by (symmetry; apply eqb_false; nra).
    cbn [bind]. destruct (coriolis env); cbn [fst snd]; state_eq.
  - cbn [bind]. destruct (coriolis env); cbn [fst snd]; state_eq.
Qed.
End Derivative.

Lemma get_thrust_single_key p t k f :
  thrust_curve p = [(k, f)] -> t <= burn_time p -> get_thrust p t = Ok f.
Proof.
  intros Hc Ht. unfold get_thrust.
  replace (gtb t (burn_time p)) with false by (symmetry; apply gtb_false; lra).
  rewrite Hc. cbn [map fst sorted fold_right insert].
  assert (Hkk : eqb k k = true) by now apply eqb_true.
  unfold thrust_lookup. rewrite Hc, index_first. cbn [bind getitem].
  rewrite Hkk.
  destruct (leb t k) eqn:E; [reflexivity |].
  apply leb_false in E.
  change (index [k] (-1)) with (@Ok R k). cbn [bind].
  replace (geb t k) with true by (symmetry; apply geb_true; lra).
  cbn [getitem]. now rewrite Hkk.
Qed.

(** C8: in the derivative of a rocket, while [t < burn_time] the thrust
    acceleration [thrust(t) / mass(t)] is added along the launch angle when
    [t = 0] and along the heading [atan2(vy, vx)] at any other time; from
    [burn_time] on, nothing is added to the drag, gravity and Coriolis terms. *)
Theorem C8_thrust_direction
    (p : Projectile) (env : Environment) (angle_rad wind_x wind_y : R)
    (x y vx vy t cd m : R) :
  projectile_type p = "rocket"%string ->
  drag_coefficient p (hypot (vx - wind_x) (vy - wind_y)) = Ok cd ->
  get_mass p t = Ok m ->
  m <> 0 ->
  let dg :=
    drag_gravity (air_density env) (area p) cd m (vx - wind_x) (vy - wind_y) in
  let cor := coriolis_term env vx vy in
  (forall thrust, t < burn_time p -> get_thrust p t = Ok thrust ->
     (t = 0 ->
      derivative p env angle_rad wind_x wind_y (x, y, vx, vy) t
      = Ok (vx, vy,
            fst dg + thrust * cos angle_rad / m + fst cor,
            snd dg + thrust * sin angle_rad / m + snd cor)) /\
     (t <> 0 ->
      derivative p env angle_rad wind_x wind_y (x, y, vx, vy) t
      = Ok (vx, vy,
            fst dg + thrust * cos (atan2 vy vx) / m + fst cor,
            snd dg + thrust * sin (atan2 vy vx) / m + snd cor))) /\
  (burn_time p <= t ->
   derivative p env angle_rad wind_x wind_y (x, y, vx, vy) t
   = Ok (vx, vy, fst dg + fst cor, snd dg + snd cor)).
Proof.
  intros Hty Hcd Hm Hm0 dg cor. split.
  - intros thrust Ht Hthrust.
    assert (Hon : (projectile_type p =? "rocket")%string && ltb t (burn_time p)
                  = true).
    { rewrite Hty. simpl. now apply ltb_true. }
    pose proof (derivative_powered p env angle_rad wind_x wind_y x y vx vy t
                  cd m Hcd Hm Hm0 thrust Hon Hthrust) as H.
    cbv zeta in H. unfold thrust_heading in H. split; intros Ht0.
    + replace (eqb t 0) with true in H by (symmetry; now apply eqb_true).
      exact H.
    + replace (eqb t 0) with false in H by (symmetry; now apply eqb_false).
      exact H.
  - intros Ht. apply derivative_unpowered; try assumption.
    rewrite Hty. simpl. apply ltb_false. lra.
Qed.

Lemma C8_thrust_direction_witness :
  derivative sample_rocket still_air 0.5 0 0 (0, 0, 3, 4) 1
  = Ok (3, 4,
        fst (drag_gravity 1.2 (area sample_rocket)
               (DragModel.rocket (hypot (3 - 0) (4 - 0))) 1 (3 - 0) (4 - 0))
        + 50 * cos (atan2 4 3) / 1 + fst (coriolis_term still_air 3 4),
        snd (drag_gravity 1.2 (area sample_rocket)
               (DragModel.rocket (hypot (3 - 0) (4 - 0))) 1 (3 - 0) (4 - 0))
        + 50 * sin (atan2 4 3) / 1 + snd (coriolis_term still_air 3 4)).
Proof.
  assert (Hm : get_mass sample_rocket 1 = Ok 1).
  { rewrite get_mass_constant; [reflexivity | reflexivity |].
    intros _ _. simpl. lra. }
  refine (proj2 (proj1 (C8_thrust_direction sample_rocket still_air 0.5 0 0
                          0 0 3 4 1 _ 1 eq_refl eq_refl Hm _) 50 _ _) _).
  - lra.
  - simpl. lra.
  - apply get_thrust_single_key with (k := 0); [reflexivity | simpl; lra].
  - lra.
Defined.

(** C10: for a projectile of type 'mortar' or 'bullet', whatever thrust
    curve and burn time it carries, [get_mass] returns the constant mass at
    every time and the derivative is the sum of the drag, gravity and Coriolis
    terms alone: no thrust term is added. *)
Theorem C10_thrust_only_for_rocket
    (p : Projectile) (env : Environment) (angle_rad wind_x wind_y : R)
    (x y vx vy t : R) :
  projectile_type p = "mortar"%string \/ projectile_type p = "bullet"%string ->
  get_mass p t = Ok (mass p) /\
  (forall cd,
     drag_coefficient p (hypot (vx - wind_x) (vy - wind_y)) = Ok cd ->
     mass p <> 0 ->
     let dg :=
       drag_gravity (air_density env) (area p) cd (mass p)
                    (vx - wind_x) (vy - wind_y) in
     let cor := coriolis_term env vx vy in
     derivative p env angle_rad wind_x wind_y (x, y, vx, vy) t
     = Ok (vx, vy, fst dg + fst cor, snd dg + snd cor)).
Proof.
  intros Hty.
  assert (Hnr : projectile_type p <> "rocket"%string)
    by (destruct Hty as [-> | ->]; discriminate).
  split; [now apply get_mass_not_rocket |].
  intros cd Hcd Hm0 dg cor.
  apply derivative_unpowered; try assumption.
  - now apply get_mass_not_rocket.
  - apply String.eqb_neq in Hnr. now rewrite Hnr.
Qed.

Lemma C10_thrust_only_for_rocket_witness :
  get_mass sample_mortar 1 = Ok 3.2 /\
  thrust_curve sample_mortar = [(0, 50)] /\ burn_time sample_mortar = 2 /\
  derivative sample_mortar still_air 0.5 0 0 (0, 0, 3, 4) 1
  = Ok (3, 4,
        fst (drag_gravity 1.2 (area sample_mortar)
               (DragModel.mortar (hypot (3 - 0) (4 - 0))) 3.2 (3 - 0) (4 - 0))
        + fst (coriolis_term still_air 3 4),
        snd (drag_gravity 1.2 (area sample_mortar)
               (DragModel.mortar (hypot (3 - 0) (4 - 0))) 3.2 (3 - 0) (4 - 0))
        + snd (coriolis_term still_air 3 4)).
Proof.
  pose proof (C10_thrust_only_for_rocket sample_mortar still_air 0.5 0 0
                0 0 3 4 1 (or_introl eq_refl)) as [Hm Hd].
  split; [exact Hm |]. split; [reflexivity |]. split; [reflexivity |].
  apply (Hd (DragModel.mortar (hypot (3 - 0) (4 - 0))) eq_refl).
  simpl. lra.
Defined.

(** ** The staged variant *)

(** Without stages [get_mass] is the single-stage function. *)
Lemma staged_get_mass_single_stage p t :
  Staged.get_mass p [] t = get_mass p t.
Proof.
  unfold Staged.get_mass, get_mass.
  destruct (negb (projectile_type p =? "rocket")%string); [reflexivity |].
  cbn [orb]. destruct (gtb t (burn_time p)); reflexivity.
Qed.

(** Inside a stage the quotient is over the stage's own positive burn
    window: the walk over the stages never divides by zero. *)
Lemma mass_stages_returns stages : forall t m time,
  returns (Staged.mass_stages stages t m time).
Proof.
  induction stages as [| stage stages IH]; intros t m time;
    cbn [Staged.mass_stages].
  - now exists m.
  - destruct (leb t time && ltb time (t + Staged.stage_burn_time stage))
      eqn:E; [| apply IH].
    apply andb_true_iff in E as [E1 E2].
    apply leb_true in E1. apply ltb_true in E2.
    unfold div.
    replace (eqb (t + Staged.stage_burn_time stage - t) 0) with false
      by (symmetry; apply eqb_false; lra).
    eexists. reflexivity.
Qed.

(** ** [get_thrust] on a dictionary *)

Lemma for_range_returns {A} (body : Z -> result (option A)) count :
  forall a : Z,
    (forall i, (a <= i < a + Z.of_nat count)%Z -> returns (body i)) ->
    returns (for_range a count body).
Proof.
  induction count as [| c IH]; intros a Hbody; cbn [for_range].
  - now exists None.
  - destruct (Hbody a) as [[v |] Hv]; [lia | |]; rewrite Hv.
    + now exists (Some v).
    + apply IH. intros i Hi. apply Hbody. lia.
Qed.

Lemma getitem_returns d k : In k (map fst d) -> returns (getitem d k).
Proof.
  induction d as [| [k' v] d IH]; intros Hin; [contradiction |].
  cbn [getitem]. destruct (eqb k' k) eqn:E; [now exists v |].
  apply eqb_false in E. destruct Hin as [Hk | Hin]; [contradiction |].
  now apply IH.
Qed.

(** The later variant's [get_thrust] returns on every thrust dictionary. *)
Lemma get_thrust_returns p t :
  NoDup (map fst (thrust_curve p)) -> returns (get_thrust p t).
Proof.
  intros Hnd. unfold get_thrust.
  destruct (gtb t (burn_time p)); [now exists 0 |].
  set (times := sorted ltb (map fst (thrust_curve p))).
  assert (Hperm : Permutation times (map fst (thrust_curve p)))
    by apply sorted_perm.
  assert (Hkey : forall k, In k times -> returns (getitem (thrust_curve p) k)).
  { intros k Hk. apply getitem_returns. apply (Permutation_in _ Hperm Hk). }
  assert (Hnd' : NoDup times)
    by (apply (Permutation_NoDup (Permutation_sym Hperm)); exact Hnd).
  destruct times as [| k0 rest] eqn:Ht; [now exists 0 |].
  unfold thrust_lookup. rewrite index_first. cbn [bind].
  destruct (leb t k0); [apply Hkey; now left |].
  rewrite index_last. cbn [bind].
  destruct (geb t (last (k0 :: rest) k0)).
  { apply Hkey. rewrite <- nth_length_last. apply nth_In. simpl. lia. }
  match goal with
  | |- returns (bind (for_range ?a ?c ?b) _) =>
      destruct (for_range_returns b c a) as [[v |] Hv]
  end.
  - intros i Hi.
    assert (Hi0 : (0 <= i - 1)%Z) by lia.
    destruct (nth_error (k0 :: rest) (Z.to_nat i)) as [ti |] eqn:Ei;
      [| apply nth_error_None in Ei; simpl length in *; lia].
    destruct (nth_error (k0 :: rest) (Z.to_nat (i - 1))) as [tp |] eqn:Ep;
      [| apply nth_error_None in Ep; simpl length in *; lia].
    apply index_nat in Ei as Hxi. apply index_nat in Ep as Hxp.
    rewrite Z2Nat.id in Hxi, Hxp by lia.
    cbv beta. rewrite Hxi. cbn [bind].
    destruct (leb t ti); [| now exists None].
    rewrite Hxp. cbn [bind].
    destruct (Hkey tp (nth_error_In _ _ Ep)) as [f0 ->].
    destruct (Hkey ti (nth_error_In _ _ Ei)) as [f1 ->].
    cbn [bind]. unfold div.
    assert (Hne : ti <> tp).
    { intros ->.
      assert (Z.to_nat i = Z.to_nat (i - 1)); [| lia].
      apply (NoDup_nth_error (k0 :: rest)); [exact Hnd' | | congruence].
      apply nth_error_Some. congruence. }
    replace (eqb (ti - tp) 0) with false by (symmetry; apply eqb_false; lra).
    eexists. reflexivity.
  - rewrite Hv. now exists v.
  - rewrite Hv. now exists 0.
Qed.

(** ** Where the engine raises *)

Lemma get_mass_default_rocket_raises :
  get_mass default_rocket 0 = Raise ZeroDivisionError.
Proof. apply get_mass_zero_burn; simpl; try reflexivity; lra. Qed.

Lemma v344_get_thrust_empty_raises p t :
  thrust_curve p = [] -> t <= burn_time p ->
  V344.get_thrust p t = Raise IndexError.
Proof.
  intros Hc Ht. unfold V344.get_thrust.
  replace (gtb t (burn_time p)) with false by (symmetry; apply gtb_false; lra).
  rewrite Hc. reflexivity.
Qed.

Lemma get_thrust_empty p t : thrust_curve p = [] -> get_thrust p t = Ok 0.
Proof.
  intros Hc. unfold get_thrust. rewrite Hc.
  destruct (gtb t (burn_time p)); reflexivity.
Qed.

(** C9: on a projectile built by the constructor ([initial_mass] is [mass])
    [get_mass] returns the constructor mass at every time, so nothing is ever
    depleted.  The code fails this in one case: for type 'rocket' with
    [burn_time = 0] and [t <= 0] the quotient [time / burn_time] raises
    [ZeroDivisionError], as on
    [Projectile(projectile_type='rocket').get_mass(0)]. *)
Theorem C9_single_stage_mass
    (m d : R) (dm : string) (v : R) (ty : string)
    (tc : option (list (R * R))) (bt : R) (cdc : option (list (R * R)))
    (t : R) :
  let p := Projectile_init m d dm v ty tc bt cdc in
  ((get_mass p t = Ok m /\ ~ (ty = "rocket"%string /\ t <= bt /\ bt = 0))
   \/ (get_mass p t = Raise ZeroDivisionError
       /\ ty = "rocket"%string /\ t <= bt /\ bt = 0))
  /\ get_mass default_rocket 0 = Raise ZeroDivisionError.
Proof.
  intros p. split; [| exact get_mass_default_rocket_raises].
  destruct (string_dec ty "rocket") as [Hty | Hty].
  - destruct (Rle_dec t bt) as [Hle | Hgt].
    + destruct (Req_dec_T bt 0) as [Hb | Hb].
      * right. split; [| auto]. now apply get_mass_zero_burn.
      * left. split; [| tauto].
        apply (get_mass_constant p t); [reflexivity | auto].
    + left. split; [| tauto]. apply (get_mass_after_burn p t). simpl. lra.
  - left. split; [| tauto]. now apply (get_mass_not_rocket p t).
Qed.

(** ** Air density *)

Lemma calculate_air_density_formula alt T P h :
  T + 237.3 <> 0 -> T + 273.15 <> 0 -> P <> 0 ->
  calculate_air_density alt T P h = Ok (density_formula alt T P h).
Proof.
  intros H1 H2 H3. unfold calculate_air_density, div.
  replace (eqb (T + 237.3) 0) with false by (symmetry; now apply eqb_false).
  cbn [bind].
  replace (eqb (287.058 * (T + 273.15)) 0) with false
    by (symmetry; apply eqb_false; nra).
  cbn [bind].
  replace (eqb (P * 100) 0) with false by (symmetry; apply eqb_false; lra).
  cbn [bind]. reflexivity.
Qed.

Lemma density_formula_sign alt T P h :
  -273.15 < T -> 0 < P ->
  (0 < density_formula alt T P h <-> 0.378 * vapor_pressure T h < P * 100).
Proof.
  intros HT HP. unfold density_formula.
  set (vp := vapor_pressure T h).
  assert (He : 0 < exp (- alt / 10000)) by apply exp_pos.
  assert (Ha : 0 < P * 100 / (287.058 * (T + 273.15))).
  { apply Rdiv_lt_0_compat; nra. }
  assert (Hq : 1 - 0.378 * vp / (P * 100) = (P * 100 - 0.378 * vp) / (P * 100))
    by (field; lra).
  rewrite Hq.
  split; intros H.
  - destruct (Rlt_dec (0.378 * vp) (P * 100)) as [Hlt | Hge]; [exact Hlt |].
    exfalso.
    assert (Hn : (P * 100 - 0.378 * vp) / (P * 100) <= 0).
    { apply Rmult_le_reg_r with (P * 100); [lra |].
      unfold Rdiv. rewrite Rmult_assoc, Rinv_l by lra. lra. }
    assert (P * 100 / (287.058 * (T + 273.15))
            * ((P * 100 - 0.378 * vp) / (P * 100)) <= 0) by nra.
    nra.
  - assert (Hp : 0 < (P * 100 - 0.378 * vp) / (P * 100)).
    { apply Rdiv_lt_0_compat; lra. }
    apply Rmult_lt_0_compat; [apply Rmult_lt_0_compat |]; assumption.
Qed.

Lemma vapor_pressure_bound T h :
  -237.3 < T -> T <= 60 -> 0 <= h <= 100 ->
  0 <= vapor_pressure T h <= 610.78.
Proof.
  intros H1 H2 Hh. unfold vapor_pressure.
  set (e := 7.5 * T / (T + 237.3)).
  assert (He : e <= 2).
  { subst e. apply Rmult_le_reg_r with (T + 237.3); [lra |].
    unfold Rdiv. rewrite Rmult_assoc, Rinv_l by lra. lra. }
  assert (Hpos : 0 < Rpower 10 e) by apply exp_pos.
  assert (Hle : Rpower 10 e <= 100).
  { replace 100 with (Rpower 10 2).
    - apply Rle_Rpower; lra.
    - change 2 with (INR 2). rewrite Rpower_pow by lra. simpl. lra. }
  split; nra.
Qed.

Lemma Environment_init_formula alt T P h ws wa cor lat :
  T + 237.3 <> 0 -> T + 273.15 <> 0 -> P <> 0 ->
  Environment_init alt T P h ws wa cor lat
  = Ok (mkEnvironment alt T P h ws wa cor lat (density_formula alt T P h)).
Proof.
  intros H1 H2 H3. unfold Environment_init.
  rewrite calculate_air_density_formula by assumption. reflexivity.
Qed.

Lemma density_thin_air_negative : density_formula 0 0 0.02 100 < 0.
Proof.
  unfold density_formula, vapor_pressure.
  replace (7.5 * 0 / (0 + 237.3)) with 0 by lra.
  rewrite Rpower_O by lra.
  replace (- 0 / 10000) with 0 by lra.
  rewrite exp_0. lra.
Qed.

(** C6, as the code has it: no floor is applied.  For air of moderate
    size (an altitude within 100 km of sea level, a temperature above
    -237.3 C, a positive pressure) the stored [air_density] is the value of
    the formula; it is strictly positive exactly when 0.378 times the vapour
    pressure is below 100 times the pressure, which holds in particular for
    pressures from 800 hPa, temperatures up to 60 C and humidities from 0
    to 100 percent. *)
Theorem C6_air_density_not_floored
    (alt T P h ws wa : R) (cor : bool) (lat : R) :
  moderate_air alt T P h ->
  exists env,
    Environment_init alt T P h ws wa cor lat = Ok env /\
    air_density env = density_formula alt T P h /\
    (0 < air_density env <-> 0.378 * vapor_pressure T h < P * 100) /\
    (800 <= P -> T <= 60 -> 0 <= h <= 100 -> 0 < air_density env).
Proof.
  intros (_ & [HT _] & [HP _] & _). eexists. split.
  - apply Environment_init_formula; lra.
  - cbn [air_density]. split; [reflexivity |]. split.
    + apply density_formula_sign; lra.
    + intros HP8 HT6 Hh. apply density_formula_sign; try lra.
      pose proof (vapor_pressure_bound T h HT HT6 Hh). lra.
Qed.

Lemma C6_air_density_not_floored_witness :
  exists env,
    Environment_init 0 15 1013.25 50 0 0 false 45 = Ok env /\
    air_density env = density_formula 0 15 1013.25 50 /\
    (0 < air_density env <-> 0.378 * vapor_pressure 15 50 < 1013.25 * 100) /\
    (800 <= 1013.25 -> 15 <= 60 -> 0 <= 50 <= 100 -> 0 < air_density env).
Proof.
  apply (C6_air_density_not_floored 0 15 1013.25 50 0 0 false 45).
  unfold moderate_air. lra.
Defined.

(** C6 as stated fails: at 0 C, 0.02 hPa and 100 percent humidity the
    stored [air_density] is negative. *)
Lemma C6_negative_density_counterexample :
  exists env,
    Environment_init 0 0 0.02 100 0 0 false 45 = Ok env /\
    air_density env < 0.
Proof.
  eexists. split.
  - apply Environment_init_formula; lra.
  - cbn [air_density]. exact density_thin_air_negative.
Qed.

(** ** The ISA table *)

Lemma isa_interp_top alt :
  10000 <= alt -> DynamicAir.isa_interp alt = Ok (-50.0, 265.00).
Proof.
  intros H. unfold DynamicAir.isa_interp, DynamicAir.ISA_TABLE. run_py.
  reflexivity.
Qed.

Lemma isa_interp_segment alt i a0 t0 p0 a1 t1 p1 :
  nth_error DynamicAir.ISA_TABLE i = Some (a0, t0, p0) ->
  nth_error DynamicAir.ISA_TABLE (S i) = Some (a1, t1, p1) ->
  a0 <= alt \/ i = 0%nat -> alt < a1 ->
  DynamicAir.isa_interp alt
  = Ok (t0 + (alt - a0) / (a1 - a0) * (t1 - t0),
        p0 + (alt - a0) / (a1 - a0) * (p1 - p0)).
Proof.
  intros H0 H1 Hlo Hhi.
  assert (Hlo' : i = 0%nat \/ (a0 <= alt /\ i <> 0%nat)).
  { destruct i; [now left | right; split; [destruct Hlo; [assumption | discriminate] | discriminate]]. }
  clear Hlo.
  do 10 (match goal with
         | k : nat |- _ =>
             destruct k as [| ?];
             [ cbn in H0, H1; injection H0 as <- <- <-; injection H1 as <- <- <-;
               unfold DynamicAir.isa_interp, DynamicAir.ISA_TABLE; run_py;
               try reflexivity;
               try (exfalso; destruct Hlo' as [Hz | [Hz Hnz]];
                    [discriminate Hz || lra | lra || (now apply Hnz)])
             | ]
         end).
  exfalso. cbn in H1. destruct i; discriminate H1.
Qed.

Lemma isa_interp_below_sea_level :
  exists tp,
    DynamicAir.isa_interp (-1000) = Ok tp /\
    fst tp = 21.5 /\ snd tp = 1127.74.
Proof.
  eexists. split.
  - apply (isa_interp_segment (-1000) 0 0 15.0 1013.25 1000 8.5 898.76);
      [reflexivity | reflexivity | now right | lra].
  - cbn [fst snd]. split; lra.
Qed.

(** With dynamic air switched off, the variant's density is the same
    function. *)
Lemma dynamic_air_off T P h alt :
  DynamicAir.calculate_air_density false T P h alt
  = calculate_air_density alt T P h.
Proof. reflexivity. Qed.

(** In dynamic-air mode the density is the static formula at the
    interpolated temperature and pressure. *)
Lemma dynamic_air_substitutes T P h alt T' P' :
  DynamicAir.isa_interp alt = Ok (T', P') ->
  DynamicAir.calculate_air_density true T P h alt
  = DynamicAir.calculate_air_density false T' P' h alt.
Proof.
  intros H. unfold DynamicAir.calculate_air_density. rewrite H. reflexivity.
Qed.

(** C7, as the code has it: in dynamic-air mode temperature and pressure
    are those of [isa_interp].  At or above 10000 m it returns the last row
    (-50 C, 265 hPa).  Below 10000 m it takes the first row whose altitude
    exceeds [alt] and interpolates linearly between the row before and that
    row; for an altitude from 0 up these are the bracketing rows, and for a
    negative altitude they are the first two rows, so the first segment is
    extrapolated downwards and nothing is clamped at the lower end. *)
Theorem C7_isa_interpolation (alt : R) :
  (forall T P h T' P',
     DynamicAir.isa_interp alt = Ok (T', P') ->
     DynamicAir.calculate_air_density true T P h alt
     = DynamicAir.calculate_air_density false T' P' h alt) /\
  (10000 <= alt -> DynamicAir.isa_interp alt = Ok (-50.0, 265.00)) /\
  (forall i a0 t0 p0 a1 t1 p1,
     nth_error DynamicAir.ISA_TABLE i = Some (a0, t0, p0) ->
     nth_error DynamicAir.ISA_TABLE (S i) = Some (a1, t1, p1) ->
     a0 <= alt \/ i = 0%nat -> alt < a1 ->
     DynamicAir.isa_interp alt
     = Ok (t0 + (alt - a0) / (a1 - a0) * (t1 - t0),
           p0 + (alt - a0) / (a1 - a0) * (p1 - p0))).
Proof.
  split; [| split].
  - intros T P h T' P'. apply dynamic_air_substitutes.
  - apply isa_interp_top.
  - intros i a0 t0 p0 a1 t1 p1. apply isa_interp_segment.
Qed.

(** C7 as stated fails: at -1000 m the table's first row (15 C,
    1013.25 hPa) is not returned; the result is 21.5 C and 1127.74 hPa. *)
Lemma C7_below_table_counterexample :
  exists tp,
    DynamicAir.isa_interp (-1000) = Ok tp /\
    fst tp = 21.5 /\ snd tp = 1127.74 /\ tp <> (15.0, 1013.25).
Proof.
  destruct isa_interp_below_sea_level as (tp & H & Ht & Hp).
  exists tp. repeat split; try assumption.
  intros ->. cbn [fst] in Ht. lra.
Qed.

(** ** The integration loop *)

Lemma step_size_min max_ts min_ts v : min_ts <= step_size max_ts min_ts v.
Proof. apply Rmax_l. Qed.

Section Loop.
Variable f : State -> R -> result State.
Variables max_ts min_ts : R.

(** Fuel beyond what the loop uses does not change its result. *)
Lemma integrate_fuel_mono fuel : forall state time acc r,
  integrate fuel f max_ts min_ts state time acc = Some r ->
  forall fuel', (fuel <= fuel')%nat ->
  integrate fuel' f max_ts min_ts state time acc = Some r.
Proof.
  induction fuel as [| fuel IH]; intros state time acc r H fuel' Hle;
    [discriminate |].
  destruct fuel' as [| fuel']; [lia |].
  destruct state as [[[x y] vx] vy]. cbn [integrate] in *.
  destruct (geb y 0 && ltb time 120); [| exact H].
  destruct (rk4_step f (x, y, vx, vy) time _) as [state' | e]; [| exact H].
  apply IH with (fuel' := fuel') in H; [exact H | lia].
Qed.

(** Every iteration advances [time] by at least [min_ts], so [n]
    iterations suffice when [120 - time <= n * min_ts]. *)
Lemma integrate_terminates n : forall state time acc,
  120 - time <= INR n * min_ts ->
  exists r, integrate (S n) f max_ts min_ts state time acc = Some r.
Proof.
  induction n as [| n IH]; intros [[[x y] vx] vy] time acc Hn;
    cbn [integrate].
  - simpl in Hn.
    replace (ltb time 120) with false by (symmetry; apply ltb_false; lra).
    rewrite andb_false_r. eauto.
  - destruct (geb y 0 && ltb time 120); [| eauto].
    destruct (rk4_step f (x, y, vx, vy) time _) as [state' | e]; [| eauto].
    apply IH.
    pose proof (step_size_min max_ts min_ts (hypot vx vy)).
    rewrite S_INR in Hn. lra.
Qed.

(** The returned list extends the accumulator by at most [n] points, each
    recorded while the loop condition held. *)
Lemma integrate_samples fuel : forall n state time acc traj,
  integrate fuel f max_ts min_ts state time acc = Some (Ok traj) ->
  120 - time <= INR n * min_ts ->
  exists rest,
    traj = acc ++ rest /\ (length rest <= n)%nat /\
    Forall (fun p => 0 <= sample_y p /\ sample_t p < 120) rest.
Proof.
  induction fuel as [| fuel IH]; intros n [[[x y] vx] vy] time acc traj H Hn;
    [discriminate |].
  cbn [integrate] in H.
  destruct (geb y 0 && ltb time 120) eqn:Hguard.
  - apply andb_true_iff in Hguard as [Hy Ht].
    apply geb_true in Hy. apply ltb_true in Ht.
    destruct (rk4_step f (x, y, vx, vy) time _) as [state' | e];
      [| discriminate].
    destruct n as [| n]; [simpl in Hn; lra |].
    pose proof (step_size_min max_ts min_ts (hypot vx vy)).
    rewrite S_INR in Hn.
    destruct (IH n _ _ _ _ H) as (rest & -> & Hlen & Hall); [lra |].
    exists ((x, y, time, vx, vy, hypot vx vy) :: rest).
    rewrite <- app_assoc. split; [reflexivity |].
    split; [simpl; lia |].
    constructor; [simpl; lra | exact Hall].
  - injection H as <-. exists []. rewrite app_nil_r.
    split; [reflexivity |]. split; [simpl; lia | constructor].
Qed.

Lemma integrate_prefix fuel : forall state time acc traj,
  integrate fuel f max_ts min_ts state time acc = Some (Ok traj) ->
  exists rest, traj = acc ++ rest.
Proof.
  induction fuel as [| fuel IH]; intros [[[x y] vx] vy] time acc traj H;
    [discriminate |].
  cbn [integrate] in H.
  destruct (geb y 0 && ltb time 120).
  - destruct (rk4_step f (x, y, vx, vy) time _) as [state' | e];
      [| discriminate].
    destruct (IH _ _ _ _ H) as (rest & ->).
    rewrite <- app_assoc. eauto.
  - injection H as <-. exists []. now rewrite app_nil_r.
Qed.

(** The first point is the state the loop was entered with. *)
Lemma integrate_first fuel x y vx vy time traj :
  integrate fuel f max_ts min_ts (x, y, vx, vy) time [] = Some (Ok traj) ->
  0 <= y -> time < 120 ->
  hd_error traj = Some (x, y, time, vx, vy, hypot vx vy).
Proof.
  intros H Hy Ht. destruct fuel as [| fuel]; [discriminate |].
  cbn [integrate] in H.
  replace (geb y 0) with true in H by (symmetry; apply geb_true; lra).
  replace (ltb time 120) with true in H by (symmetry; now apply ltb_true).
  cbn [andb] in H.
  destruct (rk4_step f (x, y, vx, vy) time _) as [state' | e];
    [| discriminate].
  destruct (integrate_prefix _ _ _ _ _ H) as (rest & ->).
  reflexivity.
Qed.

(** If the derivative never raises, neither does the loop. *)
Hypothesis f_returns : forall s t, returns (f s t).

Lemma rk4_step_returns state time dt : returns (rk4_step f state time dt).
Proof.
  unfold rk4_step.
  destruct (f_returns state time) as [k1 ->]. cbn [bind].
  destruct (f_returns (advance (0.5 * dt) state k1) (time + 0.5 * dt))
    as [k2 ->]. cbn [bind].
  destruct (f_returns (advance (0.5 * dt) state k2) (time + 0.5 * dt))
    as [k3 ->]. cbn [bind].
  destruct (f_returns (advance dt state k3) (time + dt)) as [k4 ->].
  cbn [bind].
  destruct state as [[[s0 s1] s2] s3], k1 as [[[a0 a1] a2] a3],
    k2 as [[[b0 b1] b2] b3], k3 as [[[c0 c1] c2] c3],
    k4 as [[[d0 d1] d2] d3].
  eexists. reflexivity.
Qed.

Lemma integrate_returns fuel : forall state time acc r,
  integrate fuel f max_ts min_ts state time acc = Some r ->
  exists traj, r = Ok traj.
Proof.
  induction fuel as [| fuel IH]; intros [[[x y] vx] vy] time acc r H;
    [discriminate |].
  cbn [integrate] in H.
  destruct (geb y 0 && ltb time 120).
  - destruct (rk4_step_returns (x, y, vx, vy) time
                (step_size max_ts min_ts (hypot vx vy))) as [state' Hs].
    rewrite Hs in H. eapply IH. exact H.
  - injection H as <-. eauto.
Qed.
End Loop.

(** ** The loop over an arithmetic *)

Lemma integrate_with_exact fuel f max_ts min_ts : forall state time acc,
  integrate fuel f max_ts min_ts state time acc
  = integrate_with (exact_arith f max_ts min_ts) fuel state time acc.
Proof.
  induction fuel as [| fuel IH]; intros [[[x y] vx] vy] time acc;
    [reflexivity |].
  cbn [integrate integrate_with exact_arith add_time speed_of step_of
       update_state].
  destruct (geb y 0 && ltb time 120); [| reflexivity].
  destruct (rk4_step f (x, y, vx, vy) time _) as [state' | e];
    [apply IH | reflexivity].
Qed.

Section ArithLoop.
Variable m : Arith.
Variables u min_ts cap : R.
Hypothesis u_nonneg : 0 <= u.
Hypothesis min_ts_pos : 0 < min_ts.
Hypothesis sums_rounded : rounded_sum u (add_time m).
Hypothesis steps_bounded : forall v, min_ts <= step_of m v <= cap.

(** One rounded sum advances the time by at least [least_advance]. *)
Lemma add_time_advances time v :
  0 <= time < 120 ->
  time + least_advance u min_ts cap <= add_time m time (step_of m v).
Proof.
  intros Ht. unfold least_advance.
  destruct (steps_bounded v) as [Hlo Hhi].
  pose proof (sums_rounded time (step_of m v)) as Hr.
  rewrite (Rabs_right (time + step_of m v)) in Hr by lra.
  pose proof (Rle_abs (- (add_time m time (step_of m v)
                          - (time + step_of m v)))) as Hn.
  rewrite Rabs_Ropp in Hn.
  assert (u * (time + step_of m v) <= u * (120 + cap))
    by (apply Rmult_le_compat_l; lra).
  lra.
Qed.

(** The run from [time]: it ends within [n] iterations, and what it
    returns extends the accumulator by points recorded under the loop
    condition, paced by the arithmetic, the first of them the state the loop
    was entered with. *)
Lemma integrate_with_run : forall n state time acc,
  0 <= time -> 120 - time <= INR n * least_advance u min_ts cap ->
  exists r,
    (forall fuel, (n < fuel)%nat ->
       integrate_with m fuel state time acc = Some r) /\
    forall traj, r = Ok traj ->
      exists rest,
        traj = acc ++ rest /\ (length rest <= n)%nat /\
        Forall (fun p => 0 <= sample_y p /\ 0 <= sample_t p < 120) rest /\
        Forall (fun p => sample_speed p
                         = speed_of m (sample_vx p) (sample_vy p)) rest /\
        paced_with m time rest /\
        (let '(x, y, vx, vy) := state in
         0 <= y -> time < 120 ->
         hd_error rest = Some (x, y, time, vx, vy, speed_of m vx vy)).
Proof.
  induction n as [| n IH]; intros [[[x y] vx] vy] time acc Ht Hn.
  - simpl in Hn. rewrite Rmult_0_l in Hn.
    exists (Ok acc). split.
    + intros [| fuel] Hf; [lia |]. cbn [integrate_with].
      replace (ltb time 120) with false by (symmetry; apply ltb_false; lra).
      now rewrite andb_false_r.
    + intros traj [= <-]. exists []. rewrite app_nil_r.
      split; [reflexivity |]. split; [simpl; lia |].
      split; [constructor |]. split; [constructor |]. split; [exact I |].
      intros _ Hlt. lra.
  - destruct (geb y 0 && ltb time 120) eqn:Hguard.
    2:{ exists (Ok acc). split.
        - intros [| fuel] Hf; [lia |]. cbn [integrate_with].
          now rewrite Hguard.
        - intros traj [= <-]. exists []. rewrite app_nil_r.
          split; [reflexivity |]. split; [simpl; lia |].
          split; [constructor |]. split; [constructor |]. split; [exact I |].
          intros Hy Hlt.
          apply andb_false_iff in Hguard as [Hg | Hg].
          + apply geb_false in Hg. lra.
          + apply ltb_false in Hg. lra. }
    apply andb_true_iff in Hguard as [Hy Hlt].
    apply geb_true in Hy. apply ltb_true in Hlt.
    set (p0 := (x, y, time, vx, vy, speed_of m vx vy)).
    set (dt := step_of m (speed_of m vx vy)).
    assert (Hunfold : forall fuel,
              integrate_with m (S fuel) (x, y, vx, vy) time acc
              = match update_state m (x, y, vx, vy) time dt with
                | Ok state' =>
                    integrate_with m fuel state' (add_time m time dt)
                                   (acc ++ [p0])
                | Raise e => Some (Raise e)
                end).
    { intros fuel. cbn [integrate_with].
      replace (geb y 0) with true by (symmetry; apply geb_true; lra).
      replace (ltb time 120) with true by (symmetry; now apply ltb_true).
      reflexivity. }
    destruct (update_state m (x, y, vx, vy) time dt) as [state' | e] eqn:Hup.
    2:{ exists (Raise e). split; [| discriminate].
        intros [| fuel] Hf; [lia |]. apply Hunfold. }
    pose proof (add_time_advances time (speed_of m vx vy) (conj Ht Hlt))
      as Hadv. fold dt in Hadv.
    assert (Hd : 0 < least_advance u min_ts cap).
    { rewrite S_INR in Hn. pose proof (pos_INR n) as Hpos.
      destruct (Rlt_dec 0 (least_advance u min_ts cap)) as [H | H]; [exact H |].
      exfalso. apply Rnot_lt_le in H.
      assert ((INR n + 1) * least_advance u min_ts cap <= 0) by nra. lra. }
    destruct (IH state' (add_time m time dt) (acc ++ [p0]))
      as (r & Hrun & Hres); [lra | rewrite S_INR in Hn; lra |].
    exists r. split.
    + intros [| fuel] Hf; [lia |]. rewrite Hunfold. apply Hrun. lia.
    + intros traj Hr.
      destruct (Hres traj Hr) as (rest & -> & Hlen & Hall & Hsp & Hpaced & _).
      exists (p0 :: rest). rewrite <- app_assoc.
      split; [reflexivity |]. split; [simpl; lia |].
      split; [constructor; [cbn; lra | exact Hall] |].
      split; [constructor; [reflexivity | exact Hsp] |].
      split; [split; [reflexivity | exact Hpaced] |].
      intros _ _. reflexivity.
Qed.

Lemma paced_with_from : forall traj time,
  paced_with m time traj ->
  Forall (fun p => 0 <= sample_t p < 120) traj ->
  0 <= least_advance u min_ts cap ->
  Forall (fun p => time <= sample_t p) traj.
Proof.
  induction traj as [| p rest IH]; intros time Hp Hall Hd; [constructor |].
  destruct Hp as [Ht Hrest]. inversion Hall as [| ? ? Hp0 Hall']; subst.
  constructor; [lra |].
  apply IH in Hrest; [| exact Hall' | exact Hd].
  pose proof (add_time_advances (sample_t p) (sample_speed p) Hp0).
  eapply Forall_impl; [| exact Hrest]. cbv beta. intros q Hq. lra.
Qed.

Lemma paced_with_adjacent : forall traj time i a b,
  paced_with m time traj ->
  nth_error traj i = Some a -> nth_error traj (S i) = Some b ->
  sample_t b = add_time m (sample_t a) (step_of m (sample_speed a)).
Proof.
  induction traj as [| p rest IH]; intros time i a b Hp Ha Hb;
    [destruct i; discriminate |].
  destruct Hp as [Ht Hrest]. destruct i as [| i].
  - injection Ha as <-. destruct rest as [| q rest']; [discriminate |].
    injection Hb as <-. destruct Hrest as [Hq _]. rewrite Hq, Ht. reflexivity.
  - exact (IH _ i a b Hrest Ha Hb).
Qed.

Lemma paced_with_increasing : forall traj time i j a b,
  paced_with m time traj ->
  Forall (fun p => 0 <= sample_t p < 120) traj ->
  0 < least_advance u min_ts cap -> (i < j)%nat ->
  nth_error traj i = Some a -> nth_error traj j = Some b ->
  sample_t a < sample_t b.
Proof.
  induction traj as [| p rest IH]; intros time i j a b Hp Hall Hd Hij Ha Hb;
    [destruct i; discriminate |].
  destruct Hp as [Ht Hrest]. inversion Hall as [| ? ? Hp0 Hall']; subst.
  destruct j as [| j]; [lia |]. destruct i as [| i].
  - injection Ha as <-. cbn [nth_error] in Hb.
    apply paced_with_from in Hrest; [| exact Hall' | lra].
    rewrite Forall_forall in Hrest.
    specialize (Hrest b (nth_error_In _ _ Hb)).
    pose proof (add_time_advances (sample_t p) (sample_speed p) Hp0). lra.
  - apply (IH _ i j a b Hrest Hall' Hd); [lia | exact Ha | exact Hb].
Qed.
End ArithLoop.

(** ** The whole calculation *)

Lemma drag_coefficient_returns p v : returns (drag_coefficient p v).
Proof.
  unfold drag_coefficient.
  repeat match goal with
         | |- returns (if ?c then _ else _) => destruct c
         end;
    try (eexists; reflexivity).
  apply interpolate_curve_returns.
Qed.

Lemma derivative_returns p env angle_rad wind_x wind_y k thrust s t :
  mass p <> 0 -> initial_mass p = mass p ->
  (projectile_type p = "rocket"%string -> burn_time p <> 0) ->
  thrust_curve p = [(k, thrust)] ->
  returns (derivative p env angle_rad wind_x wind_y s t).
Proof.
  intros Hm0 Hi Hb Hc. destruct s as [[[x y] vx] vy].
  destruct (drag_coefficient_returns p (hypot (vx - wind_x) (vy - wind_y)))
    as [cd Hcd].
  assert (Hm : get_mass p t = Ok (mass p)).
  { apply get_mass_constant; [exact Hi | auto]. }
  destruct ((projectile_type p =? "rocket")%string && ltb t (burn_time p))
    eqn:Hon.
  - apply andb_true_iff in Hon as Hon'. destruct Hon' as [_ Ht].
    apply ltb_true in Ht.
    eexists.
    apply (derivative_powered p env angle_rad wind_x wind_y x y vx vy t
             cd (mass p) Hcd Hm Hm0 thrust Hon).
    apply get_thrust_single_key with (k := k); [exact Hc | lra].
  - eexists.
    apply (derivative_unpowered p env angle_rad wind_x wind_y x y vx vy t
             cd (mass p) Hcd Hm Hm0 Hon).
Qed.

Lemma hypot_polar v a : 0 <= v -> hypot (v * cos a) (v * sin a) = v.
Proof.
  intros Hv. unfold hypot.
  replace (v * cos a * (v * cos a) + v * sin a * (v * sin a))
    with (v * v * ((sin a)² + (cos a)²)) by (unfold Rsqr; ring).
  rewrite sin2_cos2, Rmult_1_r. now apply sqrt_square.
Qed.

(** [_calculate_trajectory] once the environment has been built. *)
Lemma calculate_trajectory_unfold self fuel mass diameter drag_model velocity
    angle altitude temperature pressure humidity wind_speed wind_angle
    coriolis latitude max_ts min_ts :
  temperature + 237.3 <> 0 -> temperature + 273.15 <> 0 -> pressure <> 0 ->
  exists p env wx wy,
    _calculate_trajectory self fuel mass diameter drag_model velocity angle
      altitude temperature pressure humidity wind_speed wind_angle coriolis
      latitude max_ts min_ts
    = integrate fuel (derivative p env (radians angle) wx wy) max_ts min_ts
        (0, 0, velocity * cos (radians angle), velocity * sin (radians angle))
        0.0 [] /\
    p = Projectile_init mass diameter drag_model velocity
          (lower (type_combo self)) (Some [(0, thrust_input self)])
          (if (lower (type_combo self) =? "rocket")%string
           then burn_time_input self else 0)
          (loaded_drag_curve self) /\
    env = mkEnvironment altitude temperature pressure humidity wind_speed
            wind_angle coriolis latitude
            (density_formula altitude temperature pressure humidity) /\
    (wx, wy) = wind_vector env.
Proof.
  intros H1 H2 H3. unfold _calculate_trajectory.
  rewrite Environment_init_formula by assumption.
  destruct (wind_vector _) as [wx wy] eqn:Hw.
  do 4 eexists. split; [reflexivity |]. repeat split. now rewrite Hw.
Qed.

Lemma calculate_trajectory_env_raises self fuel mass diameter drag_model
    velocity angle altitude temperature pressure humidity wind_speed
    wind_angle coriolis latitude max_ts min_ts e :
  Environment_init altitude temperature pressure humidity wind_speed
    wind_angle coriolis latitude = Raise e ->
  _calculate_trajectory self fuel mass diameter drag_model velocity angle
    altitude temperature pressure humidity wind_speed wind_angle coriolis
    latitude max_ts min_ts = Some (Raise e).
Proof. intros H. unfold _calculate_trajectory. now rewrite H. Qed.

Lemma zero_point_zero : 0.0 = 0.
Proof. lra. Qed.


Section Calculation.
Variables (self : Widgets) (mass diameter : R) (drag_model : string).
Variables (velocity angle altitude temperature pressure humidity : R).
Variables (wind_speed wind_angle : R) (coriolis : bool) (latitude : R).
Variables (max_ts min_ts : R).

Let run (fuel : nat) : option (result (list Sample)) :=
  _calculate_trajectory self fuel mass diameter drag_model velocity angle
    altitude temperature pressure humidity wind_speed wind_angle coriolis
    latitude max_ts min_ts.

(** The call ends, by a return or an exception, within [n] iterations
    when [n * min_ts] covers the 120 seconds; a returned trajectory has at
    most [n] points, each recorded with [y >= 0] and [t < 120]. *)
Lemma calculate_trajectory_bounded (n : nat) :
  120 <= INR n * min_ts ->
  exists r,
    (forall fuel, (n < fuel)%nat -> run fuel = Some r) /\
    (forall traj, r = Ok traj ->
       (length traj <= n)%nat /\
       Forall (fun p => 0 <= sample_y p /\ sample_t p < 120) traj).
Proof.
  intros Hn. subst run. cbv beta.
  destruct (Environment_init altitude temperature pressure humidity
              wind_speed wind_angle coriolis latitude) as [env | e] eqn:Henv.
  - unfold _calculate_trajectory. rewrite Henv.
    destruct (wind_vector env) as [wx wy].
    set (p := Projectile_init _ _ _ _ _ _ _ _).
    set (f := derivative p env (radians angle) wx wy).
    set (s0 := (0, 0, velocity * cos (radians angle),
                velocity * sin (radians angle))).
    destruct (integrate_terminates f max_ts min_ts n s0 0.0 [])
      as [r Hr]; [lra |].
    exists r. split.
    + intros fuel Hf.
      apply (integrate_fuel_mono f max_ts min_ts (S n) s0 0.0 [] r Hr). lia.
    + intros traj ->.
      destruct (integrate_samples f max_ts min_ts (S n) n s0 0.0 []
                  traj Hr) as (rest & -> & Hlen & Hall); [lra |].
      split; assumption.
  - exists (Raise e). split.
    + intros fuel _. now apply calculate_trajectory_env_raises.
    + discriminate.
Qed.

Lemma calculate_trajectory_first fuel traj :
  0 < velocity -> run fuel = Some (Ok traj) ->
  hd_error traj
  = Some (0, 0, 0, velocity * cos (radians angle),
          velocity * sin (radians angle), velocity).
Proof.
  intros Hv. subst run. cbv beta. unfold _calculate_trajectory.
  destruct (Environment_init _ _ _ _ _ _ _ _) as [env | e]; [| discriminate].
  destruct (wind_vector env) as [wx wy]. intros H.
  apply integrate_first in H; [| lra | lra].
  rewrite H, hypot_polar, zero_point_zero by lra. reflexivity.
Qed.

Lemma calculate_trajectory_returns fuel r :
  raise_free self mass temperature pressure ->
  run fuel = Some r -> exists traj, r = Ok traj.
Proof.
  intros (Hm & H1 & H2 & H3 & Hb). subst run. cbv beta.
  destruct (calculate_trajectory_unfold self fuel mass diameter drag_model
              velocity angle altitude temperature pressure humidity
              wind_speed wind_angle coriolis latitude max_ts min_ts
              H1 H2 H3) as (p & env & wx & wy & -> & Hp & _ & _).
  apply integrate_returns.
  intros s t.
  apply derivative_returns with (k := 0) (thrust := thrust_input self);
    subst p; unfold Projectile_init; simpl; auto.
  intros Hty. rewrite Hty. simpl. auto.
Qed.
End Calculation.

(** ** A trajectory of more than 10000 points *)

Lemma zero_drag_curve_value v : interpolate_curve v zero_drag_curve = Ok 0.
Proof.
  unfold interpolate_curve, zero_drag_curve. run_py;
    try reflexivity; f_equal; lra.
Qed.

Lemma hypot_nonneg a b : 0 <= hypot a b.
Proof. apply sqrt_pos. Qed.

Lemma hypot_ge_snd a b : b <= hypot a b.
Proof.
  unfold hypot. destruct (Rle_dec b 0) as [Hb | Hb].
  - pose proof (sqrt_pos (a * a + b * b)). lra.
  - rewrite <- (sqrt_square b) at 1 by lra.
    apply sqrt_le_1_alt. nra.
Qed.

Lemma step_size_fast v :
  10000 <= v -> 0.001 <= step_size 0.1 0.001 v <= 0.01.
Proof.
  intros Hv. unfold step_size.
  rewrite (Rmax_right 100 v) by lra.
  assert (Hq : 0 < 1000 / v <= 0.1).
  { split; [apply Rdiv_lt_0_compat; lra |].
    apply Rmult_le_reg_r with v; [lra |].
    unfold Rdiv. rewrite Rmult_assoc, Rinv_l by lra. lra. }
  rewrite Rmin_right by nra.
  split; [apply Rmax_l | apply Rmax_lub; nra].
Qed.

Section FreeFall.
Variable f : State -> R -> result State.
Hypothesis f_free_fall :
  forall x y vx vy t, f (x, y, vx, vy) t = Ok (vx, vy, 0, - GRAVITY).

Lemma rk4_step_free_fall x y vx vy t dt :
  rk4_step f (x, y, vx, vy) t dt
  = Ok (x + dt * vx, y + dt * vy - GRAVITY * dt * dt / 2,
        vx, vy - GRAVITY * dt).
Proof.
  unfold rk4_step, advance.
  repeat (rewrite f_free_fall; cbn [bind]).
  apply f_equal.
  replace 6.0 with 6 by lra. replace 0.5 with (/ 2) by lra.
  apply f_equal2; [apply f_equal2; [apply f_equal2 |] |]; field.
Qed.

Lemma integrate_free_fall_length k : forall n fuel x y vx vy time acc traj,
  (Z.of_nat n + Z.of_nat k <= 10001)%Z -> (k <= fuel)%nat ->
  0 <= y -> 20000 - GRAVITY * time <= vy -> 0 <= time <= 0.01 * INR n ->
  integrate fuel f 0.1 0.001 (x, y, vx, vy) time acc = Some (Ok traj) ->
  (length acc + k <= length traj)%nat.
Proof.
  induction k as [| k IH];
    intros n fuel x y vx vy time acc traj Hnk Hfuel Hy Hvy Ht H.
  - destruct (integrate_prefix _ _ _ _ _ _ _ _ H) as (rest & ->).
    rewrite length_app. lia.
  - destruct fuel as [| fuel]; [lia |].
    assert (Hn : INR n <= 10000).
    { rewrite INR_IZR_INZ. apply IZR_le. lia. }
    cbn [integrate] in H.
    replace (geb y 0) with true in H by (symmetry; apply geb_true; lra).
    replace (ltb time 120) with true in H by (symmetry; apply ltb_true; lra).
    cbn [andb] in H. rewrite rk4_step_free_fall in H.
    pose proof (hypot_ge_snd vx vy) as Hh.
    unfold GRAVITY in *.
    destruct (step_size_fast (hypot vx vy)) as [Hlo Hhi]; [lra |].
    set (dt := step_size 0.1 0.001 (hypot vx vy)) in *.
    apply (IH (S n)) in H.
    + rewrite length_app in H. simpl in H. lia.
    + lia.
    + lia.
    + nra.
    + lra.
    + rewrite S_INR. lra.
Qed.
End FreeFall.

Lemma drag_gravity_zero_cd rho area m vrx vry :
  drag_gravity rho area 0 m vrx vry = (0, - GRAVITY).
Proof.
  unfold drag_gravity.
  assert (HF : 0.5 * rho * hypot vrx vry ^ 2 * 0 * area = 0)
    by (rewrite Rmult_0_r; apply Rmult_0_l).
  rewrite HF. destruct (gtb (hypot vrx vry) 0); [| reflexivity].
  unfold Rdiv. rewrite !Rmult_0_l, Ropp_0, Rmult_0_l, Rminus_0_r.
  reflexivity.
Qed.

Lemma zero_drag_derivative m d v k thrust env angle_rad wx wy x y vx vy t :
  m <> 0 -> coriolis env = false ->
  derivative
    (Projectile_init m d "Custom" v "bullet" (Some [(k, thrust)]) 0
       (Some zero_drag_curve))
    env angle_rad wx wy (x, y, vx, vy) t
  = Ok (vx, vy, 0, - GRAVITY).
Proof.
  intros Hm Hcor.
  set (p := Projectile_init _ _ _ _ _ _ _ _).
  rewrite (derivative_unpowered p env angle_rad wx wy x y vx vy t 0 m).
  - rewrite drag_gravity_zero_cd. unfold coriolis_term. rewrite Hcor.
    cbn [fst snd]. state_eq.
  - unfold drag_coefficient. subst p. simpl.
    apply zero_drag_curve_value.
  - apply get_mass_not_rocket. subst p. simpl. discriminate.
  - exact Hm.
  - reflexivity.
Qed.

Lemma time_cap_steps_cover : 120 <= INR TIME_CAP_STEPS * DEFAULT_MIN_TIME_STEP.
Proof.
  unfold TIME_CAP_STEPS, DEFAULT_MIN_TIME_STEP.
  rewrite INR_IZR_INZ, Z2Nat.id by lia. lra.
Qed.

Lemma fast_vertical_shot_long :
  exists traj,
    (forall fuel, (TIME_CAP_STEPS < fuel)%nat ->
       fast_vertical_shot fuel = Some (Ok traj)) /\
    (STEP_CAP < length traj)%nat.
Proof.
  destruct (calculate_trajectory_bounded bullet_widgets 1 0.01 "Custom" 20000
              90 0 15 1013.25 50 0 0 false 45 DEFAULT_MAX_TIME_STEP
              DEFAULT_MIN_TIME_STEP TIME_CAP_STEPS time_cap_steps_cover)
    as (r & Hrun & _).
  assert (Hfree : raise_free bullet_widgets 1 15 1013.25).
  { unfold raise_free. repeat split; try lra. discriminate. }
  pose proof (Hrun (S TIME_CAP_STEPS) (Nat.lt_succ_diag_r _)) as Hr.
  destruct (calculate_trajectory_returns _ _ _ _ _ _ _ _ _ _ _ _ _ _ _ _ _ _
              Hfree Hr) as [traj ->].
  exists traj. split; [exact Hrun |].
  destruct (calculate_trajectory_unfold bullet_widgets (S TIME_CAP_STEPS)
              1 0.01 "Custom" 20000 90 0 15 1013.25 50 0 0 false 45
              DEFAULT_MAX_TIME_STEP DEFAULT_MIN_TIME_STEP)
    as (p & env & wx & wy & Hcalc & Hp & Henv & _); try lra.
  rewrite Hcalc in Hr.
  assert (Hlen : (length (@nil Sample) + Z.to_nat 10001 <= length traj)%nat).
  { apply (integrate_free_fall_length (derivative p env (radians 90) wx wy))
      with (n := 0%nat) (fuel := S TIME_CAP_STEPS) (x := 0) (y := 0)
           (vx := 20000 * cos (radians 90)) (vy := 20000 * sin (radians 90))
           (time := 0.0).
    - intros x y vx vy t. subst p env.
      change (lower (type_combo bullet_widgets)) with "bullet"%string.
      apply zero_drag_derivative; [lra | reflexivity].
    - lia.
    - unfold TIME_CAP_STEPS. lia.
    - lra.
    - unfold radians. replace (90 * (PI / 180)) with (PI / 2) by lra.
      rewrite sin_PI2. unfold GRAVITY. lra.
    - simpl. lra.
    - exact Hr. }
  unfold STEP_CAP. simpl length in Hlen. lia.
Qed.

(** C1 as stated fails: no step cap stops the loop.  The drag-free
    vertical shot at 20 km/s returns a trajectory of more than 10000 points. *)
Lemma C1_step_cap_counterexample :
  exists traj,
    (forall fuel, (TIME_CAP_STEPS < fuel)%nat ->
       fast_vertical_shot fuel = Some (Ok traj)) /\
    (STEP_CAP < length traj)%nat.
Proof. exact fast_vertical_shot_long. Qed.

(** ** The zero-burn rocket *)

Lemma hypot_ge_fst a b : a <= hypot a b.
Proof.
  unfold hypot. rewrite Rplus_comm. apply hypot_ge_snd.
Qed.

Lemma derivative_zero_burn_raises p env angle_rad wx wy x y vx vy t :
  projectile_type p = "rocket"%string -> burn_time p = 0 -> t <= 0 ->
  0 < hypot (vx - wx) (vy - wy) ->
  derivative p env angle_rad wx wy (x, y, vx, vy) t = Raise ZeroDivisionError.
Proof.
  intros Hty Hb Ht Hv. unfold derivative.
  destruct (drag_coefficient_returns p (hypot (vx - wx) (vy - wy)))
    as [cd ->].
  cbn [bind].
  replace (gtb (hypot (vx - wx) (vy - wy)) 0) with true
    by (symmetry; apply gtb_true; lra).
  rewrite get_mass_zero_burn by (auto; lra). reflexivity.
Qed.

Lemma zero_burn_rocket_shot_raises fuel :
  zero_burn_rocket_shot (S fuel) = Some (Raise ZeroDivisionError).
Proof.
  unfold zero_burn_rocket_shot.
  destruct (calculate_trajectory_unfold rocket_widgets (S fuel)
              1 0.05 "rocket" 100 0 0 15 1013.25 50 0 0 false 45
              DEFAULT_MAX_TIME_STEP DEFAULT_MIN_TIME_STEP)
    as (p & env & wx & wy & -> & Hp & Henv & Hw); try lra.
  assert (Hwx : wx = 0 /\ wy = 0).
  { subst env. unfold wind_vector in Hw. cbn in Hw.
    injection Hw as -> ->. split; lra. }
  destruct Hwx as [-> ->].
  assert (Hvx : 100 * cos (radians 0) = 100).
  { unfold radians. rewrite Rmult_0_l, cos_0. lra. }
  cbn [integrate].
  replace (geb 0 0) with true by (symmetry; apply geb_true; lra).
  replace (ltb 0.0 120) with true by (symmetry; apply ltb_true; lra).
  cbn [andb]. unfold rk4_step.
  rewrite derivative_zero_burn_raises; [reflexivity | | | |].
  - subst p. reflexivity.
  - subst p. reflexivity.
  - lra.
  - pose proof (hypot_ge_fst (100 * cos (radians 0) - 0)
                  (100 * sin (radians 0) - 0)).
    lra.
Qed.

(** C2, where the code fails it: [get_mass] divides by the burn time, so
    [Projectile(projectile_type='rocket').get_mass(0)] raises
    [ZeroDivisionError]; the v344 [get_thrust] indexes the sorted keys of an
    empty thrust curve, so [Projectile().get_thrust(0)] raises [IndexError];
    and the integrator, run for a rocket whose burn-time widget holds 0,
    raises [ZeroDivisionError] at its first derivative evaluation. *)
Theorem C2_engine_raises :
  get_mass default_rocket 0 = Raise ZeroDivisionError /\
  V344.get_thrust default_projectile 0 = Raise IndexError /\
  (forall fuel, zero_burn_rocket_shot (S fuel) = Some (Raise ZeroDivisionError)).
Proof.
  split; [exact get_mass_default_rocket_raises |].
  split; [| exact zero_burn_rocket_shot_raises].
  apply v344_get_thrust_empty_raises; [reflexivity | simpl; lra].
Qed.

(** ** The fixed-step Euler variant *)

(** Its points are appended after the update: each carries a time of at
    least one step, so none of them is the launch state. *)
Lemma legacy_loop_samples fuel projectile environment wind_x wind_y time_step :
  0 < time_step ->
  forall x y vx vy time acc traj,
    0 <= time ->
    Legacy.loop fuel projectile environment wind_x wind_y time_step
                x y vx vy time acc = Some (Ok traj) ->
    exists rest,
      traj = acc ++ rest /\ Forall (fun p => time_step <= sample_t p) rest.
Proof.
  intros Hstep.
  induction fuel as [| fuel IH]; intros x y vx vy time acc traj Ht H;
    [discriminate |].
  cbn [Legacy.loop] in H.
  destruct (geb y 0).
  - match type of H with
    | match ?a with _ => _ end = _ => destruct a as [[ax ay] | e]
    end; [| discriminate].
    apply IH in H; [| lra].
    destruct H as (rest & -> & Hall).
    destruct (geb _ 0).
    + rewrite <- app_assoc. eexists. split; [reflexivity |].
      constructor; [simpl; lra | exact Hall].
    + eauto.
  - injection H as <-. exists []. rewrite app_nil_r. split; auto.
Qed.

Lemma legacy_first_sample_after_launch fuel v0 angle projectile environment
    time_step traj p :
  0 < time_step ->
  Legacy._calculate_trajectory fuel v0 angle projectile environment time_step
  = Some (Ok traj) ->
  hd_error traj = Some p -> time_step <= sample_t p.
Proof.
  intros Hstep H Hhd. unfold Legacy._calculate_trajectory in H.
  destruct (wind_vector environment) as [wx wy].
  apply legacy_loop_samples in H; [| exact Hstep | lra].
  destruct H as (rest & -> & Hall).
  destruct rest as [| q rest]; [discriminate |].
  injection Hhd as <-. now inversion Hall.
Qed.

Lemma legacy_loop_stop fuel projectile environment wind_x wind_y time_step
    x y vx vy time acc :
  y < 0 ->
  Legacy.loop (S fuel) projectile environment wind_x wind_y time_step
              x y vx vy time acc = Some (Ok acc).
Proof.
  intros Hy. cbn [Legacy.loop].
  replace (geb y 0) with false by (symmetry; apply geb_false; lra).
  reflexivity.
Qed.

Lemma legacy_loop_trace projectile environment wind_x wind_y time_step :
  forall fuel x y vx vy time acc traj j,
    time = INR j * time_step ->
    Legacy.loop fuel projectile environment wind_x wind_y time_step
                x y vx vy time acc = Some (Ok traj) ->
    exists rest,
      traj = acc ++ rest /\
      forall i p, nth_error rest i = Some p ->
        0 <= sample_y p /\ sample_t p = INR (j + S i) * time_step.
Proof.
  induction fuel as [| fuel IH]; intros x y vx vy time acc traj j Ht H;
    [discriminate |].
  assert (Hnil : exists rest : list Sample,
             acc = acc ++ rest /\
             forall i p, nth_error rest i = Some p ->
               0 <= sample_y p /\ sample_t p = INR (j + S i) * time_step).
  { exists []. rewrite app_nil_r. split; [reflexivity |].
    intros i p Hp. destruct i; discriminate. }
  cbn [Legacy.loop] in H.
  destruct (geb y 0); [| injection H as <-; exact Hnil].
  match type of H with
  | match ?a with _ => _ end = _ => destruct a as [[ax ay] | e]
  end; [| discriminate].
  set (vx' := vx + ax * time_step) in *.
  set (vy' := vy + ay * time_step) in *.
  set (x' := x + vx' * time_step) in *.
  set (y' := y + vy' * time_step) in *.
  destruct (geb y' 0) eqn:Hy'.
  - apply geb_true in Hy'.
    apply (IH _ _ _ _ _ _ _ (S j)) in H; [| rewrite Ht, S_INR; ring].
    destruct H as (rest & -> & Hall).
    eexists (_ :: rest). rewrite <- app_assoc. split; [reflexivity |].
    intros [| i] p Hp.
    + injection Hp as <-. cbn [sample_y sample_t]. split; [lra |].
      rewrite Ht, plus_INR. simpl INR. ring.
    + cbn [nth_error] in Hp. destruct (Hall i p Hp) as [H1 H2].
      split; [exact H1 |]. rewrite H2. f_equal. f_equal. lia.
  - apply geb_false in Hy'. destruct fuel as [| fuel]; [discriminate |].
    rewrite legacy_loop_stop in H by exact Hy'.
    injection H as <-. exact Hnil.
Qed.

Lemma legacy_level_shot fuel projectile environment wind_x time_step x vx time :
  0 < time_step -> Legacy.mass projectile <> 0 -> coriolis environment = false ->
  Legacy.loop (S (S fuel)) projectile environment wind_x 0 time_step
              x 0 vx 0 time [] = Some (Ok []).
Proof.
  intros Hdt Hm Hcor.
  cbn [Legacy.loop].
  replace (geb 0 0) with true by (symmetry; apply geb_true; lra).
  rewrite Hcor.
  set (v_rel := sqrt ((vx - wind_x) ^ 2 + (0 - 0) ^ 2)).
  set (F := 0.5 * air_density environment * v_rel ^ 2
            * Legacy.drag_coeff projectile * Legacy.area projectile).
  destruct (gtb v_rel 0) eqn:Ev.
  - apply gtb_true in Ev. unfold div.
    replace (eqb (Legacy.mass projectile * v_rel) 0) with false
      by (symmetry; apply eqb_false; nra).
    cbn [bind].
    replace (geb _ 0) with false; [reflexivity |].
    symmetry. apply geb_false. unfold GRAVITY.
    replace (F * (0 - 0) / (Legacy.mass projectile * v_rel)) with 0
      by (unfold Rdiv; ring).
    nra.
  - cbn [bind].
    replace (geb _ 0) with false; [reflexivity |].
    symmetry. apply geb_false. unfold GRAVITY. nra.
Qed.

(** * Further properties of the engine *)

(** ** Interpolation *)

Lemma fraction_in_unit x x0 x1 :
  x0 <= x <= x1 -> x1 <> x0 -> 0 <= (x - x0) / (x1 - x0) <= 1.
Proof.
  intros [Hlo Hhi] Hne. split.
  - apply Rmult_le_pos; [lra |]. left. apply Rinv_0_lt_compat. lra.
  - apply Rmult_le_reg_r with (x1 - x0); [lra |].
    unfold Rdiv. rewrite Rmult_assoc, Rinv_l by lra. lra.
Qed.

Lemma lerp_between y0 y1 f :
  0 <= f <= 1 -> Rmin y0 y1 <= y0 + (y1 - y0) * f <= Rmax y0 y1.
Proof.
  intros Hf. unfold Rmin, Rmax. destruct (Rle_dec y0 y1); nra.
Qed.

Lemma on_segment_between x p0 p1 :
  fst p0 <= x < fst p1 ->
  Rmin (snd p0) (snd p1) <= on_segment x p0 p1 <= Rmax (snd p0) (snd p1).
Proof.
  intros H. unfold on_segment.
  replace ((snd p1 - snd p0) * (x - fst p0) / (fst p1 - fst p0))
    with ((snd p1 - snd p0) * ((x - fst p0) / (fst p1 - fst p0)))
    by (unfold Rdiv; ring).
  apply lerp_between, fraction_in_unit; lra.
Qed.

(** X1: [linear_interpolate] never raises: the degenerate segment
    [x1 == x0] returns [y0].  On a proper segment it returns [y0] at [x0] and
    [y1] at [x1], and between the two abscissas the value stays between the
    two ordinates. *)
Theorem X1_linear_interpolate_endpoints_and_range (x x0 x1 y0 y1 : R) :
  exists v,
    linear_interpolate x x0 x1 y0 y1 = Ok v /\
    (x1 = x0 -> v = y0) /\
    (x = x0 -> v = y0) /\
    (x = x1 -> x1 <> x0 -> v = y1) /\
    (x0 <= x <= x1 -> Rmin y0 y1 <= v <= Rmax y0 y1).
Proof.
  unfold linear_interpolate, div.
  destruct (eqb x1 x0) eqn:E.
  - apply eqb_true in E. exists y0. repeat split; auto.
    + intros; lra.
    + apply Rmin_l.
    + apply Rmax_l.
  - apply eqb_false in E.
    replace (eqb (x1 - x0) 0) with false by (symmetry; apply eqb_false; lra).
    cbn [bind]. eexists. split; [reflexivity |].
    split; [intros; lra |].
    split; [intros ->; unfold Rdiv;
            rewrite Rminus_diag, Rmult_0_r, Rmult_0_l; lra |].
    split; [intros -> _; field; lra |].
    intros H.
    replace ((y1 - y0) * (x - x0) / (x1 - x0))
      with ((y1 - y0) * ((x - x0) / (x1 - x0))) by (unfold Rdiv; ring).
    apply lerp_between, fraction_in_unit; auto.
Qed.

(** A non-empty curve is never left: the value lies between two of its
    ordinates. *)
Lemma interpolate_curve_between (x : R) (curve : list (R * R)) :
  curve <> [] ->
  exists v p q,
    interpolate_curve x curve = Ok v /\
    In p curve /\ In q curve /\ snd p <= v <= snd q.
Proof.
  intros Hne.
  destruct curve as [| a [| b rest]]; [contradiction | |].
  - exists (snd a), a, a. repeat split; try (now left); try lra.
  - destruct (sorted pair_ltb (a :: b :: rest)) as [| first srest] eqn:Hs.
    { pose proof (Permutation_length (sorted_curve_perm (a :: b :: rest))) as H.
      rewrite Hs in H. discriminate. }
    pose proof (sorted_curve_perm (a :: b :: rest)) as Hperm. rewrite Hs in Hperm.
    assert (Hin : forall p, In p (first :: srest) -> In p (a :: b :: rest))
      by (intros p; apply Permutation_in; exact Hperm).
    destruct (interpolate_curve_cases x (a :: b :: rest) first srest)
      as [(_ & H) | [(_ & _ & H) | (_ & i & p0 & p1 & H0 & H1 & Hb & H)]];
      [simpl; lia | exact Hs | | |].
    + exists (snd first), first, first.
      repeat split; try lra; try exact H; apply Hin; now left.
    + set (lst := last (first :: srest) first) in *.
      assert (In lst (first :: srest)).
      { subst lst. rewrite <- nth_length_last. apply nth_In. simpl. lia. }
      exists (snd lst), lst, lst. repeat split; try lra; try exact H; auto.
    + apply nth_error_In in H0. apply nth_error_In in H1.
      pose proof (on_segment_between x p0 p1 Hb) as [Hlo Hhi].
      exists (on_segment x p0 p1).
      destruct (Rle_dec (snd p0) (snd p1)) as [Hle | Hgt].
      * rewrite Rmin_left in Hlo by lra. rewrite Rmax_right in Hhi by lra.
        exists p0, p1. repeat split; auto.
      * rewrite Rmin_right in Hlo by lra. rewrite Rmax_left in Hhi by lra.
        exists p1, p0. repeat split; auto.
Qed.

(** X2: on a non-empty curve [interpolate_curve] never leaves the range of
    the curve's ordinates: the value returned lies between the ordinates of
    two points of the curve, at every abscissa. *)
Theorem X2_interpolate_curve_within_ordinates (x : R) (curve : list (R * R)) :
  curve <> [] ->
  exists v p q,
    interpolate_curve x curve = Ok v /\
    In p curve /\ In q curve /\ snd p <= v <= snd q.
Proof. exact (interpolate_curve_between x curve). Qed.

Lemma X2_interpolate_curve_within_ordinates_witness :
  exists v p q,
    interpolate_curve 150 [(300, 0.5); (100, 0.3)] = Ok v /\
    In p [(300, 0.5); (100, 0.3)] /\ In q [(300, 0.5); (100, 0.3)] /\
    snd p <= v <= snd q.
Proof.
  apply (X2_interpolate_curve_within_ordinates 150 [(300, 0.5); (100, 0.3)]).
  discriminate.
Defined.

(** The sorted curve is ordered by Python's order on tuples, and two
    orderings of the same points sort to the same list. *)
Lemma sorted_curve_lex curve : StronglySorted lex_le (sorted pair_ltb curve).
Proof.
  apply sorted_sorted; unfold lex_le, pair_ltb.
  - intros a b c [H1 | [H1 H1']] [H2 | [H2 H2']]; lra.
  - intros a b H. apply orb_true_iff in H as [H | H].
    + apply ltb_true in H. now left.
    + apply andb_true_iff in H as [H H']. apply eqb_true in H.
      apply ltb_true in H'. right. lra.
  - intros a b H. apply orb_false_iff in H as [H H'].
    apply ltb_false in H.
    apply andb_false_iff in H' as [H' | H'].
    + apply eqb_false in H'. left. lra.
    + apply ltb_false in H'.
      destruct (Req_dec_T (fst b) (fst a)); [right; lra | left; lra].
Qed.

Lemma lex_le_antisym p q : lex_le p q -> lex_le q p -> p = q.
Proof.
  destruct p as [a b], q as [c d]. unfold lex_le. cbn [fst snd].
  intros [H1 | [H1 H1']] [H2 | [H2 H2']]; try lra.
  f_equal; lra.
Qed.

Lemma sorted_unique (l1 : list (R * R)) : forall l2,
  StronglySorted lex_le l1 -> StronglySorted lex_le l2 ->
  Permutation l1 l2 -> l1 = l2.
Proof.
  induction l1 as [| a l1 IH]; intros l2 H1 H2 Hp.
  - apply Permutation_nil in Hp. now subst.
  - destruct l2 as [| b l2];
      [apply Permutation_sym, Permutation_nil in Hp; discriminate |].
    apply StronglySorted_inv in H1 as [H1 Ha].
    apply StronglySorted_inv in H2 as [H2 Hb].
    assert (Hab : a = b).
    { assert (Hina : In a (b :: l2))
        by (apply (Permutation_in _ Hp); now left).
      assert (Hinb : In b (a :: l1))
        by (apply (Permutation_in _ (Permutation_sym Hp)); now left).
      destruct Hina as [-> | Hina]; [reflexivity |].
      destruct Hinb as [-> | Hinb]; [reflexivity |].
      rewrite Forall_forall in Ha, Hb.
      apply lex_le_antisym; auto. }
    subst b. f_equal. apply IH; auto.
    now apply Permutation_cons_inv in Hp.
Qed.

Lemma sorted_curve_permutation c1 c2 :
  Permutation c1 c2 -> sorted pair_ltb c1 = sorted pair_ltb c2.
Proof.
  intros Hp. apply sorted_unique; try apply sorted_curve_lex.
  rewrite (sorted_curve_perm c1), Hp. symmetry. apply sorted_curve_perm.
Qed.

(** X3: the order in which the points of a curve are listed does not
    matter: [interpolate_curve] returns the same value on every permutation of
    the curve. *)
Theorem X3_interpolate_curve_order_independent
    (x : R) (c1 c2 : list (R * R)) :
  Permutation c1 c2 -> interpolate_curve x c1 = interpolate_curve x c2.
Proof.
  intros Hp. unfold interpolate_curve.
  rewrite <- (Permutation_length Hp).
  destruct (length c1 <? 2)%nat eqn:El.
  - apply Nat.ltb_lt in El.
    destruct c1 as [| a [| b c1]]; [| | simpl in El; lia].
    + apply Permutation_nil in Hp. now subst.
    + apply Permutation_length_1_inv in Hp. now subst.
  - now rewrite (sorted_curve_permutation c1 c2 Hp).
Qed.

Lemma X3_interpolate_curve_order_independent_witness :
  interpolate_curve 150 [(100, 0.3); (300, 0.5)]
  = interpolate_curve 150 [(300, 0.5); (100, 0.3)].
Proof.
  apply (X3_interpolate_curve_order_independent 150).
  apply perm_swap.
Defined.

Lemma fst_injective_on (l : list (R * R)) p q :
  NoDup (map fst l) -> In p l -> In q l -> fst p = fst q -> p = q.
Proof.
  induction l as [| a l IH]; intros Hnd Hp Hq Heq; [contradiction |].
  cbn [map] in Hnd. apply NoDup_cons_iff in Hnd as [Hna Hnd].
  destruct Hp as [-> | Hp], Hq as [-> | Hq]; auto.
  - exfalso. apply Hna. rewrite Heq. now apply in_map.
  - exfalso. apply Hna. rewrite <- Heq. now apply in_map.
Qed.

Lemma sorted_nth_le (s : list (R * R)) : forall i j p q,
  StronglySorted by_fst s -> (i <= j)%nat ->
  nth_error s i = Some p -> nth_error s j = Some q -> fst p <= fst q.
Proof.
  induction s as [| a s IH]; intros i j p q Hs Hij Hi Hj;
    [destruct i; discriminate |].
  apply StronglySorted_inv in Hs as [Hs Ha].
  destruct i as [| i], j as [| j]; try lia.
  - cbn in Hi, Hj. injection Hi as <-. injection Hj as <-. lra.
  - cbn in Hi, Hj. injection Hi as <-. apply nth_error_In in Hj.
    rewrite Forall_forall in Ha. now apply Ha.
  - cbn in Hi, Hj. apply (IH i j); auto. lia.
Qed.

(** X4: a curve with pairwise distinct velocities is reproduced at its own
    points: at the velocity of a point, [interpolate_curve] returns that
    point's coefficient. *)
Theorem X4_interpolate_curve_through_points
    (curve : list (R * R)) (x0 y0 : R) :
  NoDup (map fst curve) -> In (x0, y0) curve ->
  interpolate_curve x0 curve = Ok y0.
Proof.
  intros Hnd Hin.
  destruct curve as [| a [| b rest]]; [contradiction | |].
  - destruct Hin as [-> | []]. reflexivity.
  - set (curve := a :: b :: rest) in *.
    destruct (sorted pair_ltb curve) as [| first srest] eqn:Hs.
    { pose proof (Permutation_length (sorted_curve_perm curve)) as H.
      rewrite Hs in H. discriminate. }
    pose proof (sorted_curve_perm curve) as Hperm.
    pose proof (sorted_curve_ordered curve) as Hord.
    rewrite Hs in Hperm, Hord. set (s := first :: srest) in *.
    assert (Hnds : NoDup (map fst s)).
    { apply (Permutation_NoDup (l := map fst curve)); [| exact Hnd].
      apply Permutation_map, Permutation_sym, Hperm. }
    assert (Hins : In (x0, y0) s)
      by (apply (Permutation_in _ (Permutation_sym Hperm)); exact Hin).
    destruct (In_nth_error _ _ Hins) as [j Hj].
    assert (Hjlen : (j < length s)%nat) by (apply nth_error_Some; congruence).
    assert (Hsame : forall p, In p s -> fst p = x0 -> snd p = y0).
    { intros p Hp Hfp.
      assert (p = (x0, y0)) by (apply (fst_injective_on s); auto).
      now subst p. }
    destruct (interpolate_curve_cases x0 curve first srest)
      as [(Hle & H) | [(_ & Hge & H) | (_ & i & p0 & p1 & H0 & H1 & Hb & H)]];
      [subst curve; simpl; lia | exact Hs | | |]; rewrite H; f_equal.
    + apply Hsame; [now left |].
      assert (fst first <= fst (x0, y0))
        by (apply (sorted_nth_le s 0 j); auto; lia).
      cbn [fst] in *. lra.
    + fold s in Hge. set (lst := last s first) in *.
      assert (Hl : nth_error s (length s - 1) = Some lst).
      { subst lst s. rewrite nth_error_nth' with (d := first) by (simpl; lia).
        f_equal. simpl length.
        replace (S (length srest) - 1)%nat with (length srest) by lia.
        apply nth_length_last. }
      apply Hsame; [eapply nth_error_In; exact Hl |].
      assert (fst (x0, y0) <= fst lst)
        by (apply (sorted_nth_le s j (length s - 1)); auto; lia).
      cbn [fst] in *. change (fst lst = x0). lra.
    + fold s in H0, H1.
      destruct (Nat.le_gt_cases j i) as [Hji | Hji].
      * assert (fst (x0, y0) <= fst p0)
          by (apply (sorted_nth_le s j i); auto).
        cbn [fst] in *.
        assert (Hy : snd p0 = y0)
          by (apply Hsame; [eapply nth_error_In; exact H0 | lra]).
        unfold on_segment. rewrite Hy.
        replace (x0 - fst p0) with 0 by lra.
        unfold Rdiv. rewrite Rmult_0_r, Rmult_0_l. lra.
      * assert (fst p1 <= fst (x0, y0))
          by (apply (sorted_nth_le s (S i) j); auto).
        cbn [fst] in *. lra.
Qed.

Lemma X4_interpolate_curve_through_points_witness :
  interpolate_curve 300 [(100, 0.3); (300, 0.5); (200, 0.45)] = Ok 0.5.
Proof.
  apply X4_interpolate_curve_through_points.
  - cbn [map fst]. repeat constructor; cbn [In]; intros H;
      repeat (destruct H as [H | H]; [lra |]); exact H.
  - right. left. reflexivity.
Defined.

(** ** Drag coefficients *)

Lemma G1_monotone v w : v <= w -> DragModel.G1 v <= DragModel.G1 w.
Proof.
  intros H. unfold DragModel.G1, SPEED_OF_SOUND.
  assert (Hm : v / 343 <= w / 343) by lra.
  cmp; lra.
Qed.

Lemma G7_monotone v w : v <= w -> DragModel.G7 v <= DragModel.G7 w.
Proof.
  intros H. unfold DragModel.G7, SPEED_OF_SOUND.
  assert (Hm : v / 343 <= w / 343) by lra.
  cmp; lra.
Qed.

Lemma rocket_monotone v w : v <= w -> DragModel.rocket v <= DragModel.rocket w.
Proof.
  intros H. unfold DragModel.rocket, SPEED_OF_SOUND.
  assert (Hm : v / 343 <= w / 343) by lra.
  cmp; lra.
Qed.

Lemma mortar_monotone v w : v <= w -> DragModel.mortar v <= DragModel.mortar w.
Proof.
  intros H. unfold DragModel.mortar, SPEED_OF_SOUND.
  assert (Hm : v / 343 <= w / 343) by lra.
  cmp; lra.
Qed.

Lemma standard_tables_range v :
  0.25 <= DragModel.G1 v <= 0.45 /\ 0.21 <= DragModel.G7 v <= 0.38 /\
  0.25 <= DragModel.rocket v <= 0.50 /\ 0.40 <= DragModel.mortar v <= 0.55.
Proof.
  unfold DragModel.G1, DragModel.G7, DragModel.rocket, DragModel.mortar.
  repeat split; cmp; lra.
Qed.

(** X5: every standard drag table is non-decreasing in velocity: a faster
    projectile never gets a smaller coefficient from G1, G7, rocket or
    mortar. *)
Theorem X5_standard_tables_monotone (v w : R) :
  v <= w ->
  DragModel.G1 v <= DragModel.G1 w /\ DragModel.G7 v <= DragModel.G7 w /\
  DragModel.rocket v <= DragModel.rocket w /\
  DragModel.mortar v <= DragModel.mortar w.
Proof.
  intros H. repeat split.
  - now apply G1_monotone.
  - now apply G7_monotone.
  - now apply rocket_monotone.
  - now apply mortar_monotone.
Qed.

Lemma X5_standard_tables_monotone_witness :
  DragModel.G1 300 <= DragModel.G1 830 /\ DragModel.G7 300 <= DragModel.G7 830 /\
  DragModel.rocket 300 <= DragModel.rocket 830 /\
  DragModel.mortar 300 <= DragModel.mortar 830.
Proof. apply (X5_standard_tables_monotone 300 830). lra. Defined.

(** X6: [Projectile.drag_coefficient] returns for every projectile and
    velocity.  For every model other than 'Custom' the coefficient lies
    between 0.21 and 0.55; a model name that is none of 'G1', 'G7', 'rocket',
    'mortar', 'Custom' gives 0.3, and so does 'Custom' when no curve, or an
    empty one, is loaded. *)
Theorem X6_drag_coefficient_dispatch (p : Projectile) (v : R) :
  exists cd,
    drag_coefficient p v = Ok cd /\
    (drag_model p <> "Custom"%string -> 0.21 <= cd <= 0.55) /\
    (drag_model p <> "G1"%string -> drag_model p <> "G7"%string ->
     drag_model p <> "rocket"%string -> drag_model p <> "mortar"%string ->
     drag_model p <> "Custom"%string \/ truthy (custom_drag_curve p) = false ->
     cd = 0.3).
Proof.
  pose proof (standard_tables_range v) as (H1 & H7 & Hr & Hm).
  unfold drag_coefficient.
  destruct (drag_model p =? "G1")%string eqn:E1.
  { apply String.eqb_eq in E1. eexists. split; [reflexivity |].
    split; [intros; lra | intros; contradiction]. }
  destruct (drag_model p =? "G7")%string eqn:E7.
  { apply String.eqb_eq in E7. eexists. split; [reflexivity |].
    split; [intros; lra | intros; contradiction]. }
  destruct (drag_model p =? "rocket")%string eqn:Er.
  { apply String.eqb_eq in Er. eexists. split; [reflexivity |].
    split; [intros; lra | intros; contradiction]. }
  destruct (drag_model p =? "mortar")%string eqn:Em.
  { apply String.eqb_eq in Em. eexists. split; [reflexivity |].
    split; [intros; lra | intros; contradiction]. }
  destruct (drag_model p =? "Custom")%string eqn:Ec.
  - apply String.eqb_eq in Ec.
    destruct (truthy (custom_drag_curve p)) eqn:Et; cbn [andb].
    + destruct (interpolate_curve_returns v
                  (match custom_drag_curve p with Some c => c | None => [] end))
        as [cd Hcd].
      exists cd. split; [exact Hcd |].
      split; [intros; contradiction |].
      intros _ _ _ _ [H | H]; [contradiction | discriminate].
    + exists 0.3. split; [reflexivity |]. split; [intros; lra | reflexivity].
  - exists 0.3. split; [reflexivity |]. split; [intros; lra | reflexivity].
Qed.

(** ** Thrust *)

Lemma getitem_in d k f :
  NoDup (map fst d) -> In (k, f) d -> getitem d k = Ok f.
Proof.
  induction d as [| [k' v] d IH]; intros Hnd Hin; [contradiction |].
  cbn [map fst] in Hnd. apply NoDup_cons_iff in Hnd as [Hna Hnd].
  cbn [getitem]. destruct Hin as [Heq | Hin].
  - injection Heq as -> ->.
    replace (eqb k k) with true by (symmetry; now apply eqb_true).
    reflexivity.
  - destruct (eqb k' k) eqn:E.
    + apply eqb_true in E. subst k'. exfalso. apply Hna.
      change k with (fst (k, f)). now apply in_map.
    + now apply IH.
Qed.

Lemma sorted_times_ordered (keys : list R) : StronglySorted Rle (sorted ltb keys).
Proof.
  apply sorted_sorted.
  - intros a b c; lra.
  - intros a b H. apply ltb_true in H. lra.
  - intros a b H. now apply ltb_false in H.
Qed.

Lemma sorted_times_nth_le (s : list R) : forall i j a b,
  StronglySorted Rle s -> (i <= j)%nat ->
  nth_error s i = Some a -> nth_error s j = Some b -> a <= b.
Proof.
  induction s as [| c s IH]; intros i j a b Hs Hij Hi Hj;
    [destruct i; discriminate |].
  apply StronglySorted_inv in Hs as [Hs Hc].
  destruct i as [| i], j as [| j]; try lia.
  - cbn in Hi, Hj. injection Hi as <-. injection Hj as <-. lra.
  - cbn in Hi, Hj. injection Hi as <-. apply nth_error_In in Hj.
    rewrite Forall_forall in Hc. now apply Hc.
  - cbn in Hi, Hj. apply (IH i j); auto. lia.
Qed.

(** The [for] loop of [get_thrust] stops at the first key at or above
    [time] and interpolates from the key before it. *)
Lemma thrust_scan (p : Projectile) (times : list R) (time : R) count :
  forall a : nat,
    (1 <= a)%nat -> (a + count = length times)%nat ->
    NoDup times ->
    (forall k, In k times -> returns (getitem (thrust_curve p) k)) ->
    (forall j k, (j < a)%nat -> nth_error times j = Some k -> k < time) ->
    (exists j k, nth_error times j = Some k /\ time <= k) ->
    exists i t0 t1 f0 f1,
      nth_error times i = Some t0 /\ nth_error times (S i) = Some t1 /\
      t0 < time <= t1 /\
      getitem (thrust_curve p) t0 = Ok f0 /\
      getitem (thrust_curve p) t1 = Ok f1 /\
      for_range (Z.of_nat a) count
        (fun i =>
           ti <- index times i ;;
           if leb time ti then
             t0 <- index times (i - 1) ;;
             t1 <- index times i ;;
             f0 <- getitem (thrust_curve p) t0 ;;
             f1 <- getitem (thrust_curve p) t1 ;;
             q <- div ((f1 - f0) * (time - t0)) (t1 - t0) ;;
             Ok (Some (f0 + q))
           else Ok None)
      = Ok (Some (f0 + (f1 - f0) * (time - t0) / (t1 - t0))).
Proof.
  induction count as [| c IH];
    intros a Ha Hlen Hnd Hkey Hbelow (j & k & Hj & Hk).
  - exfalso.
    destruct (Nat.lt_ge_cases j a) as [Hlt | Hge].
    + specialize (Hbelow j k Hlt Hj). lra.
    + assert (j < length times)%nat by (apply nth_error_Some; congruence). lia.
  - destruct (nth_error times a) as [ta |] eqn:Eta;
      [| apply nth_error_None in Eta; lia].
    destruct a as [| a']; [lia |].
    destruct (nth_error times a') as [tp |] eqn:Etp;
      [| apply nth_error_None in Etp; lia].
    assert (Hxa : index times (Z.of_nat (S a')) = Ok ta) by now apply index_nat.
    assert (Hxp : index times (Z.of_nat (S a') - 1) = Ok tp).
    { replace (Z.of_nat (S a') - 1)%Z with (Z.of_nat a') by lia.
      now apply index_nat. }
    assert (Hp : tp < time) by (apply (Hbelow a' tp); [lia | exact Etp]).
    cbn [for_range]. rewrite Hxa. cbn [bind].
    destruct (Rle_dec time ta) as [Hle | Hgt].
    + replace (leb time ta) with true by (symmetry; now apply leb_true).
      rewrite Hxp. cbn [bind].
      destruct (Hkey tp (nth_error_In _ _ Etp)) as [f0 Hf0].
      destruct (Hkey ta (nth_error_In _ _ Eta)) as [f1 Hf1].
      rewrite Hf0, Hf1. cbn [bind]. unfold div.
      replace (eqb (ta - tp) 0) with false by (symmetry; apply eqb_false; lra).
      cbn [bind].
      exists a', tp, ta, f0, f1. repeat split; auto; lra.
    + replace (leb time ta) with false by (symmetry; apply leb_false; lra).
      destruct (IH (S (S a'))) as (i & t0 & t1 & f0 & f1 & H0 & H1 & Hb & Hf0 & Hf1 & Hr);
        try lia; auto.
      * intros j' k' Hj' Hk'.
        destruct (Nat.eq_dec j' (S a')) as [-> | Hne].
        -- rewrite Eta in Hk'. injection Hk' as <-. lra.
        -- apply (Hbelow j' k'); [lia | exact Hk'].
      * exists j, k. split; assumption.
      * exists i, t0, t1, f0, f1. repeat split; auto; try tauto.
        replace (Z.of_nat (S a') + 1)%Z with (Z.of_nat (S (S a'))) by lia.
        exact Hr.
Qed.

(** What [thrust_lookup] returns on the sorted keys of a dictionary. *)
Lemma thrust_lookup_cases (p : Projectile) (t : R) first rest :
  NoDup (map fst (thrust_curve p)) ->
  sorted ltb (map fst (thrust_curve p)) = first :: rest ->
  let times := first :: rest in
  let lst := last times first in
  (t <= first /\
   thrust_lookup p times t = getitem (thrust_curve p) first)
  \/ (first < t /\ lst <= t /\
      thrust_lookup p times t = getitem (thrust_curve p) lst)
  \/ (first < t < lst /\
      exists i t0 t1 f0 f1,
        nth_error times i = Some t0 /\ nth_error times (S i) = Some t1 /\
        t0 < t <= t1 /\
        getitem (thrust_curve p) t0 = Ok f0 /\
        getitem (thrust_curve p) t1 = Ok f1 /\
        thrust_lookup p times t
        = Ok (f0 + (f1 - f0) * (t - t0) / (t1 - t0))).
Proof.
  intros Hnd Hs times lst.
  assert (Hperm : Permutation times (map fst (thrust_curve p))).
  { subst times. rewrite <- Hs. apply sorted_perm. }
  assert (Hkey : forall k, In k times -> returns (getitem (thrust_curve p) k)).
  { intros k Hk. apply getitem_returns. apply (Permutation_in _ Hperm Hk). }
  assert (Hnd' : NoDup times)
    by (apply (Permutation_NoDup (Permutation_sym Hperm)); exact Hnd).
  unfold thrust_lookup. subst times. rewrite index_first. cbn [bind].
  destruct (Rle_dec t first) as [Hle | Hgt].
  { left. split; [exact Hle |].
    replace (leb t first) with true by (symmetry; now apply leb_true).
    reflexivity. }
  right.
  replace (leb t first) with false by (symmetry; apply leb_false; lra).
  rewrite index_last. cbn [bind]. fold lst.
  destruct (Rge_dec t lst) as [Hge | Hlt].
  { left. repeat split; try lra.
    replace (geb t lst) with true by (symmetry; now apply geb_true).
    reflexivity. }
  right. split; [lra |].
  replace (geb t lst) with false by (symmetry; apply geb_false; lra).
  destruct (thrust_scan p (first :: rest) t (length (first :: rest) - 1) 1)
    as (i & t0 & t1 & f0 & f1 & H0 & H1 & Hb & Hf0 & Hf1 & Hr); auto.
  - simpl. lia.
  - intros j k Hj Hk. assert (j = 0)%nat as -> by lia.
    simpl in Hk. injection Hk as <-. lra.
  - exists (length (first :: rest) - 1)%nat, lst. split; [| lra].
    subst lst. rewrite nth_error_nth' with (d := first) by (simpl; lia).
    f_equal. simpl length.
    replace (S (length rest) - 1)%nat with (length rest) by lia.
    apply nth_length_last.
  - exists i, t0, t1, f0, f1. repeat split; auto; try tauto.
    change (Z.of_nat 1) with 1%Z in Hr. rewrite Hr. reflexivity.
Qed.

Lemma sorted_nonempty {A} (lt : A -> A -> bool) (l : list A) :
  l <> [] -> sorted lt l <> [].
Proof.
  intros Hne Hs.
  pose proof (Permutation_length (sorted_perm lt l)) as H.
  rewrite Hs in H. destruct l; [contradiction | discriminate].
Qed.

(** On a non-empty thrust curve the two variants of [get_thrust] are the
    same function. *)
Lemma v344_get_thrust_same p t :
  thrust_curve p <> [] -> V344.get_thrust p t = get_thrust p t.
Proof.
  intros Hne. unfold V344.get_thrust, get_thrust.
  destruct (gtb t (burn_time p)); [reflexivity |].
  destruct (sorted ltb (map fst (thrust_curve p))) eqn:Hs; [| reflexivity].
  exfalso. apply (sorted_nonempty ltb (map fst (thrust_curve p))); auto.
  destruct (thrust_curve p); [contradiction | discriminate].
Qed.

(** X7: a thrust dictionary is reproduced at its own keys: at a key time
    within the burn, [get_thrust] returns the thrust stored under that key, in
    the later variant and in v344 alike. *)
Theorem X7_get_thrust_at_keys (p : Projectile) (k f : R) :
  NoDup (map fst (thrust_curve p)) -> In (k, f) (thrust_curve p) ->
  k <= burn_time p ->
  get_thrust p k = Ok f /\ V344.get_thrust p k = Ok f.
Proof.
  intros Hnd Hin Hk.
  assert (Hne : thrust_curve p <> []) by (intros E; rewrite E in Hin; elim Hin).
  rewrite v344_get_thrust_same by exact Hne.
  assert (Hg : get_thrust p k = Ok f); [| now split].
  pose proof (getitem_in _ _ _ Hnd Hin) as Hkf.
  unfold get_thrust.
  replace (gtb k (burn_time p)) with false by (symmetry; apply gtb_false; lra).
  destruct (sorted ltb (map fst (thrust_curve p))) as [| first rest] eqn:Hs.
  { exfalso. apply (sorted_nonempty ltb (map fst (thrust_curve p))); auto.
    destruct (thrust_curve p); [contradiction | discriminate]. }
  pose proof (sorted_times_ordered (map fst (thrust_curve p))) as Hord.
  rewrite Hs in Hord.
  assert (Hink : In k (first :: rest)).
  { rewrite <- Hs.
    apply (Permutation_in _ (Permutation_sym (sorted_perm ltb _))).
    change k with (fst (k, f)). now apply in_map. }
  destruct (In_nth_error _ _ Hink) as [j Hj].
  assert (Hjlen : (j < length (first :: rest))%nat)
    by (apply nth_error_Some; congruence).
  set (lst := last (first :: rest) first).
  assert (Hl : nth_error (first :: rest) (length (first :: rest) - 1) = Some lst).
  { subst lst. rewrite nth_error_nth' with (d := first) by (simpl; lia).
    f_equal. simpl length.
    replace (S (length rest) - 1)%nat with (length rest) by lia.
    apply nth_length_last. }
  assert (Hfk : first <= k)
    by (apply (sorted_times_nth_le (first :: rest) 0 j); auto; lia).
  assert (Hkl : k <= lst)
    by (apply (sorted_times_nth_le (first :: rest) j
                 (length (first :: rest) - 1)); auto; lia).
  destruct (thrust_lookup_cases p k first rest Hnd Hs)
    as [(Hle & H) | [(_ & Hge & H) | (_ & i & t0 & t1 & f0 & f1 & H0 & H1 & Hb & Hf0 & Hf1 & H)]];
    rewrite H.
  - assert (first = k) as -> by lra. exact Hkf.
  - fold lst in Hge |- *. assert (lst = k) as -> by lra. exact Hkf.
  - destruct (Nat.le_gt_cases j i) as [Hji | Hji].
    + assert (k <= t0)
        by (apply (sorted_times_nth_le (first :: rest) j i); auto).
      lra.
    + assert (t1 <= k)
        by (apply (sorted_times_nth_le (first :: rest) (S i) j); auto).
      assert (t1 = k) by lra. subst t1.
      rewrite Hkf in Hf1. injection Hf1 as <-.
      f_equal. field. lra.
Qed.

Lemma X7_get_thrust_at_keys_witness :
  get_thrust three_key_rocket 1 = Ok 500 /\
  V344.get_thrust three_key_rocket 1 = Ok 500.
Proof.
  apply (X7_get_thrust_at_keys three_key_rocket 1 500).
  - cbn. repeat constructor; cbn; intros H;
      repeat (destruct H as [H | H]; [lra |]); exact H.
  - cbn. right. now left.
  - cbn. lra.
Defined.

(** X8: thrust stays within the dictionary: within the burn, on a
    non-empty thrust curve, [get_thrust] returns a value between two of the
    stored thrusts (so a curve of non-negative thrusts never yields a negative
    one); after the burn time it returns 0. *)
Theorem X8_get_thrust_within_curve (p : Projectile) (t : R) :
  NoDup (map fst (thrust_curve p)) -> thrust_curve p <> [] ->
  (burn_time p < t -> get_thrust p t = Ok 0) /\
  (t <= burn_time p ->
   exists v a b,
     get_thrust p t = Ok v /\
     In a (thrust_curve p) /\ In b (thrust_curve p) /\ snd a <= v <= snd b).
Proof.
  intros Hnd Hne. split.
  - intros Ht. unfold get_thrust.
    replace (gtb t (burn_time p)) with true by (symmetry; apply gtb_true; lra).
    reflexivity.
  - intros Ht. unfold get_thrust.
    replace (gtb t (burn_time p)) with false by (symmetry; apply gtb_false; lra).
    destruct (sorted ltb (map fst (thrust_curve p))) as [| first rest] eqn:Hs.
    { exfalso. apply (sorted_nonempty ltb (map fst (thrust_curve p))); auto.
      destruct (thrust_curve p); [contradiction | discriminate]. }
    assert (Hval : forall k v, In k (first :: rest) ->
                     getitem (thrust_curve p) k = Ok v ->
                     In (k, v) (thrust_curve p)).
    { intros k v Hk Hv. rewrite <- Hs in Hk.
      apply (Permutation_in _ (sorted_perm ltb _)) in Hk.
      apply in_map_iff in Hk as ([k' v'] & Hk' & Hin). cbn [fst] in Hk'. subst k'.
      rewrite (getitem_in _ _ _ Hnd Hin) in Hv. injection Hv as <-. exact Hin. }
    set (lst := last (first :: rest) first).
    assert (Hlin : In lst (first :: rest)).
    { subst lst. rewrite <- nth_length_last. apply nth_In. simpl. lia. }
    assert (Hkey : forall k, In k (first :: rest) ->
                     returns (getitem (thrust_curve p) k)).
    { intros k Hk. apply getitem_returns. rewrite <- Hs in Hk.
      apply (Permutation_in _ (sorted_perm ltb _) Hk). }
    destruct (thrust_lookup_cases p t first rest Hnd Hs)
      as [(_ & H) | [(_ & _ & H) | (_ & i & t0 & t1 & f0 & f1 & H0 & H1 & Hb & Hf0 & Hf1 & H)]];
      rewrite H.
    + destruct (Hkey first (or_introl eq_refl)) as [v Hv].
      exists v, (first, v), (first, v). rewrite Hv.
      repeat split; try (cbn [snd]; lra); apply Hval; auto; now left.
    + fold lst. destruct (Hkey lst Hlin) as [v Hv].
      exists v, (lst, v), (lst, v). rewrite Hv.
      repeat split; try (cbn [snd]; lra); apply Hval; auto.
    + apply nth_error_In in H0. apply nth_error_In in H1.
      assert (Hf : 0 <= (t - t0) / (t1 - t0) <= 1)
        by (apply fraction_in_unit; lra).
      pose proof (lerp_between f0 f1 _ Hf) as [Hlo Hhi].
      replace (f0 + (f1 - f0) * (t - t0) / (t1 - t0))
        with (f0 + (f1 - f0) * ((t - t0) / (t1 - t0)))
        by (unfold Rdiv; ring).
      eexists.
      destruct (Rle_dec f0 f1) as [Hle | Hgt].
      * rewrite Rmin_left in Hlo by lra. rewrite Rmax_right in Hhi by lra.
        exists (t0, f0), (t1, f1). repeat split; auto.
      * rewrite Rmin_right in Hlo by lra. rewrite Rmax_left in Hhi by lra.
        exists (t1, f1), (t0, f0). repeat split; auto.
Qed.

Lemma X8_get_thrust_within_curve_witness :
  (burn_time three_key_rocket < 0.5 -> get_thrust three_key_rocket 0.5 = Ok 0) /\
  (0.5 <= burn_time three_key_rocket ->
   exists v a b,
     get_thrust three_key_rocket 0.5 = Ok v /\
     In a (thrust_curve three_key_rocket) /\
     In b (thrust_curve three_key_rocket) /\
     snd a <= v <= snd b).
Proof.
  apply (X8_get_thrust_within_curve three_key_rocket 0.5).
  - cbn. repeat constructor; cbn; intros H;
      repeat (destruct H as [H | H]; [lra |]); exact H.
  - discriminate.
Defined.

(** ** Staged rockets *)

Lemma total_burn_nonneg stages :
  Forall (fun s => 0 <= Staged.stage_burn_time s) stages -> 0 <= total_burn stages.
Proof.
  induction 1 as [| s stages Hs _ IH]; cbn [total_burn fold_right]; [lra |].
  fold (total_burn stages). lra.
Qed.

(** Outside the stages' time windows the walk subtracts every loss. *)
Lemma mass_stages_outside stages : forall t m time,
  Forall (fun s => 0 <= Staged.stage_burn_time s) stages ->
  time < t \/ t + total_burn stages <= time ->
  Staged.mass_stages stages t m time = Ok (m - total_loss stages).
Proof.
  induction stages as [| s stages IH]; intros t m time Hb Hout.
  - cbn. f_equal. lra.
  - apply Forall_cons_iff in Hb as [Hs Hb].
    pose proof (total_burn_nonneg stages Hb) as Hnn.
    cbn [Staged.mass_stages total_burn total_loss fold_right] in *.
    fold (total_burn stages) in *. fold (total_loss stages).
    replace (leb t time && ltb time (t + Staged.stage_burn_time s)) with false.
    + rewrite IH; [f_equal; lra | exact Hb |].
      destruct Hout; [left | right]; lra.
    + symmetry. apply andb_false_iff.
      destruct Hout; [left; apply leb_false | right; apply ltb_false]; lra.
Qed.

(** Inside the first stage the mass falls linearly by that stage's loss. *)
Lemma mass_stages_first s stages m time :
  0 <= time < Staged.stage_burn_time s ->
  Staged.mass_stages (s :: stages) 0 m time
  = Ok (m - Staged.mass_loss s * (time / Staged.stage_burn_time s)).
Proof.
  intros [Hlo Hhi]. cbn [Staged.mass_stages]. unfold div.
  replace (leb 0 time) with true by (symmetry; now apply leb_true).
  replace (ltb time (0 + Staged.stage_burn_time s)) with true
    by (symmetry; apply ltb_true; lra).
  cbn [andb].
  replace (eqb (0 + Staged.stage_burn_time s - 0) 0) with false
    by (symmetry; apply eqb_false; lra).
  cbn [bind]. do 2 f_equal.
  replace (time - 0) with time by lra.
  replace (0 + Staged.stage_burn_time s - 0) with (Staged.stage_burn_time s)
    by lra.
  reflexivity.
Qed.

(** X9: with at least one stage, the staged [get_mass] of a rocket returns
    at every time (the quotient is only taken inside a stage's own window).
    Inside the first stage the mass falls linearly by that stage's loss; once
    all stages are over it is the initial mass less every stage's loss, and
    the same fully depleted mass is returned for a negative time. *)
Theorem X9_staged_get_mass
    (p : Projectile) (s : Staged.Stage) (stages : list Staged.Stage) (time : R) :
  projectile_type p = "rocket"%string ->
  Forall (fun s => 0 <= Staged.stage_burn_time s) (s :: stages) ->
  returns (Staged.get_mass p (s :: stages) time) /\
  (0 <= time < Staged.stage_burn_time s ->
   Staged.get_mass p (s :: stages) time
   = Ok (initial_mass p
         - Staged.mass_loss s * (time / Staged.stage_burn_time s))) /\
  (total_burn (s :: stages) <= time \/ time < 0 ->
   Staged.get_mass p (s :: stages) time
   = Ok (initial_mass p - total_loss (s :: stages))).
Proof.
  intros Hty Hb. unfold Staged.get_mass. rewrite Hty. cbn [String.eqb negb].
  change (("rocket" =? "rocket")%string) with true. cbn [negb].
  split; [apply mass_stages_returns |]. split.
  - apply mass_stages_first.
  - intros Hout. apply mass_stages_outside; [exact Hb |].
    destruct Hout; [right | left]; lra.
Qed.

Lemma X9_staged_get_mass_witness :
  returns (Staged.get_mass sample_rocket two_stages 5) /\
  (0 <= 5 < 2 ->
   Staged.get_mass sample_rocket two_stages 5
   = Ok (initial_mass sample_rocket - 0.3 * (5 / 2))) /\
  (total_burn two_stages <= 5 \/ 5 < 0 ->
   Staged.get_mass sample_rocket two_stages 5
   = Ok (initial_mass sample_rocket - total_loss two_stages)).
Proof.
  apply (X9_staged_get_mass sample_rocket (Staged.mkStage 2 0.3 [(0, 100); (2, 0)])
           [Staged.mkStage 1 0.1 [(0, 50)]] 5).
  - reflexivity.
  - repeat constructor; cbn; lra.
Defined.

Lemma thrust_stages_returns stages : forall t time,
  returns (Staged.thrust_stages stages t time).
Proof.
  induction stages as [| s stages IH]; intros t time;
    cbn [Staged.thrust_stages].
  - now exists 0.
  - destruct (leb t time && ltb time (t + Staged.stage_burn_time s));
      [apply interpolate_curve_returns | apply IH].
Qed.

Lemma thrust_stages_outside stages : forall t time,
  Forall (fun s => 0 <= Staged.stage_burn_time s) stages ->
  time < t \/ t + total_burn stages <= time ->
  Staged.thrust_stages stages t time = Ok 0.
Proof.
  induction stages as [| s stages IH]; intros t time Hb Hout;
    [reflexivity |].
  apply Forall_cons_iff in Hb as [Hs Hb].
  pose proof (total_burn_nonneg stages Hb) as Hnn.
  cbn [Staged.thrust_stages total_burn fold_right] in *.
  fold (total_burn stages) in *.
  replace (leb t time && ltb time (t + Staged.stage_burn_time s)) with false.
  - apply IH; [exact Hb |]. destruct Hout; [left | right]; lra.
  - symmetry. apply andb_false_iff.
    destruct Hout; [left; apply leb_false | right; apply ltb_false]; lra.
Qed.

(** X10: the staged [get_thrust] returns for every projectile, list of
    stages and time, also with an empty thrust curve.  With stages of
    non-negative burn times it is 0 once all stages are over, and 0 for a
    negative time; without stages it is 0 after the burn time. *)
Theorem X10_staged_get_thrust
    (p : Projectile) (stages : list Staged.Stage) (time : R) :
  returns (Staged.get_thrust p stages time) /\
  (stages <> [] ->
   Forall (fun s => 0 <= Staged.stage_burn_time s) stages ->
   total_burn stages <= time \/ time < 0 ->
   Staged.get_thrust p stages time = Ok 0) /\
  (stages = [] -> burn_time p < time ->
   Staged.get_thrust p stages time = Ok 0).
Proof.
  split; [| split].
  - destruct stages as [| s stages]; cbn [Staged.get_thrust].
    + destruct (gtb time (burn_time p)); [now exists 0 |].
      apply interpolate_curve_returns.
    + apply thrust_stages_returns.
  - intros Hne Hb Hout. destruct stages as [| s stages]; [contradiction |].
    cbn [Staged.get_thrust]. apply thrust_stages_outside; [exact Hb |].
    destruct Hout; [right | left]; lra.
  - intros -> Ht. cbn [Staged.get_thrust].
    replace (gtb time (burn_time p)) with true
      by (symmetry; apply gtb_true; lra).
    reflexivity.
Qed.

(** ** Atmosphere *)

(** X11: the density calculation at and away from its poles.  It raises
    [ZeroDivisionError] when the temperature is -237.3 or -273.15, or when
    the pressure is 0 at a temperature above -237.3 and up to 1000 C, at every
    altitude and humidity; for air of moderate size it returns the value of
    the density formula. *)
Theorem X11_air_density_raises_at_poles (alt T P h : R) :
  (T = -237.3 \/ T = -273.15 \/ (P = 0 /\ -237.3 < T <= 1000) ->
   calculate_air_density alt T P h = Raise ZeroDivisionError) /\
  (moderate_air alt T P h ->
   calculate_air_density alt T P h = Ok (density_formula alt T P h)).
Proof.
  split.
  - intros H. unfold calculate_air_density, div.
    destruct (eqb (T + 237.3) 0) eqn:E1; [reflexivity |].
    apply eqb_false in E1. cbn [bind].
    destruct (eqb (287.058 * (T + 273.15)) 0) eqn:E2; [reflexivity |].
    apply eqb_false in E2. cbn [bind].
    destruct (eqb (P * 100) 0) eqn:E3; [reflexivity |].
    apply eqb_false in E3. exfalso.
    destruct H as [H | [H | [H _]]]; subst;
      [apply E1 | apply E2 | apply E3]; lra.
  - intros (_ & [HT _] & [HP _] & _).
    apply calculate_air_density_formula; lra.
Qed.

Lemma density_formula_altitude alt T P h :
  density_formula alt T P h
  = density_formula 0 T P h * exp (- alt / 10000).
Proof.
  unfold density_formula.
  replace (- 0 / 10000) with 0 by lra. rewrite exp_0. ring.
Qed.

(** X12: altitude enters the density only through the factor
    exp(-altitude/10000).  For air of moderate size the density at an altitude
    is the sea-level density of the same air times that factor, so with a
    positive sea-level density a higher launch site never has denser air. *)
Theorem X12_air_density_altitude_decay (alt1 alt2 T P h : R) :
  moderate_air alt1 T P h -> moderate_air alt2 T P h ->
  exists d0 d1 d2,
    calculate_air_density 0 T P h = Ok d0 /\
    calculate_air_density alt1 T P h = Ok d1 /\
    calculate_air_density alt2 T P h = Ok d2 /\
    d1 = d0 * exp (- alt1 / 10000) /\
    (0 < d0 -> alt1 <= alt2 -> d2 <= d1).
Proof.
  intros (_ & [HT _] & [HP _] & _) _.
  exists (density_formula 0 T P h), (density_formula alt1 T P h),
    (density_formula alt2 T P h).
  repeat split; try (apply calculate_air_density_formula; lra).
  - apply density_formula_altitude.
  - intros Hd Halt.
    rewrite (density_formula_altitude alt1), (density_formula_altitude alt2).
    apply Rmult_le_compat_l; [lra |].
    destruct (Req_dec alt1 alt2) as [-> | Hne]; [lra |].
    left. apply exp_increasing. lra.
Qed.

Lemma X12_air_density_altitude_decay_witness :
  exists d0 d1 d2,
    calculate_air_density 0 15 1013.25 50 = Ok d0 /\
    calculate_air_density 500 15 1013.25 50 = Ok d1 /\
    calculate_air_density 1500 15 1013.25 50 = Ok d2 /\
    d1 = d0 * exp (- 500 / 10000) /\
    (0 < d0 -> 500 <= 1500 -> d2 <= d1).
Proof.
  apply (X12_air_density_altitude_decay 500 1500 15 1013.25 50);
    unfold moderate_air; lra.
Defined.

Lemma isa_interp_at_rows a t p :
  In (a, t, p) DynamicAir.ISA_TABLE -> DynamicAir.isa_interp a = Ok (t, p).
Proof.
  intros H. unfold DynamicAir.ISA_TABLE in H. cbn [In] in H.
  repeat match type of H with
         | _ \/ _ => destruct H as [H | H]
         end; try contradiction;
    injection H as <- <- <-;
    unfold DynamicAir.isa_interp, DynamicAir.ISA_TABLE; run_py;
    try reflexivity; apply f_equal; apply f_equal2; lra.
Qed.

Lemma isa_interp_range alt :
  0 <= alt <= 10000 ->
  exists T P,
    DynamicAir.isa_interp alt = Ok (T, P) /\
    -50 <= T <= 15 /\ 265 <= P <= 1013.25.
Proof.
  intros [Hlo Hhi].
  unfold DynamicAir.isa_interp, DynamicAir.ISA_TABLE. run_py;
    (eexists; eexists; split; [reflexivity | split; lra]).
Qed.

(** X13: the ISA table is reproduced at its own rows: at the altitude of
    a row [isa_interp] returns that row's temperature and pressure.  Between 0
    and 10000 m the interpolated temperature stays within -50..15 C and the
    pressure within 265..1013.25 hPa. *)
Theorem X13_isa_interp_rows_and_range :
  (forall a t p,
     In (a, t, p) DynamicAir.ISA_TABLE ->
     DynamicAir.isa_interp a = Ok (t, p)) /\
  (forall alt,
     0 <= alt <= 10000 ->
     exists T P,
       DynamicAir.isa_interp alt = Ok (T, P) /\
       -50 <= T <= 15 /\ 265 <= P <= 1013.25).
Proof.
  split; [exact isa_interp_at_rows | exact isa_interp_range].
Qed.

Lemma isa_interp_safe alt :
  exists T P,
    DynamicAir.isa_interp alt = Ok (T, P) /\
    -50 <= T /\ 265 <= P /\ (0 <= alt -> T <= 15).
Proof.
  unfold DynamicAir.isa_interp, DynamicAir.ISA_TABLE. run_py;
    (eexists; eexists; split; [reflexivity | repeat split; intros; lra]).
Qed.

(** X14: in dynamic-air mode the density calculation does not raise at
    an altitude within 100 km of sea level: the interpolated temperature is at
    least -50 C and the pressure at least 265 hPa, away from the poles of the
    formula, whatever temperature and pressure were entered.  From sea level
    up, with a humidity between 0 and 100 percent, the density is strictly
    positive. *)
Theorem X14_dynamic_air_density_returns (T P h alt : R) :
  -100000 <= alt <= 100000 ->
  exists d,
    DynamicAir.calculate_air_density true T P h alt = Ok d /\
    (0 <= alt -> 0 <= h <= 100 -> 0 < d).
Proof.
  intros _.
  destruct (isa_interp_safe alt) as (T' & P' & Hi & HT & HP & HT').
  rewrite (dynamic_air_substitutes T P h alt T' P' Hi), dynamic_air_off.
  rewrite calculate_air_density_formula by lra.
  eexists. split; [reflexivity |].
  intros Halt Hh. apply density_formula_sign; try lra.
  assert (-237.3 < T') by lra. assert (T' <= 60) by (specialize (HT' Halt); lra).
  pose proof (vapor_pressure_bound T' h H H0 Hh). lra.
Qed.

Lemma X14_dynamic_air_density_returns_witness :
  exists d,
    DynamicAir.calculate_air_density true 15 1013.25 50 2500 = Ok d /\
    (0 <= 2500 -> 0 <= 50 <= 100 -> 0 < d).
Proof.
  apply (X14_dynamic_air_density_returns 15 1013.25 50 2500). lra.
Defined.

(** ** The derivative *)

Lemma hypot_zero : hypot 0 0 = 0.
Proof.
  unfold hypot. rewrite Rmult_0_l, Rplus_0_l. apply sqrt_0.
Qed.

(** X15: a projectile moving exactly with the wind feels no drag and no
    division takes place: outside a rocket's burn the derivative returns
    gravity and the Coriolis term alone, whatever the mass (even 0), the air
    density and the drag model. *)
Theorem X15_derivative_at_rest_in_air
    (p : Projectile) (env : Environment) (angle_rad wind_x wind_y x y t : R) :
  projectile_type p <> "rocket"%string \/ burn_time p <= t ->
  derivative p env angle_rad wind_x wind_y (x, y, wind_x, wind_y) t
  = Ok (wind_x, wind_y,
        fst (coriolis_term env wind_x wind_y),
        - GRAVITY + snd (coriolis_term env wind_x wind_y)).
Proof.
  intros Hoff. unfold derivative.
  replace (wind_x - wind_x) with 0 by lra.
  replace (wind_y - wind_y) with 0 by lra.
  rewrite hypot_zero.
  destruct (drag_coefficient_returns p 0) as [cd ->]. cbn [bind].
  replace (gtb 0 0) with false by (symmetry; apply gtb_false; lra).
  cbn [bind].
  replace ((projectile_type p =? "rocket")%string && ltb t (burn_time p))
    with false.
  - cbn [bind]. unfold coriolis_term.
    destruct (coriolis env); cbn [fst snd]; state_eq.
  - symmetry. apply andb_false_iff.
    destruct Hoff as [H | H]; [left; now apply String.eqb_neq
                              | right; apply ltb_false; lra].
Qed.

Lemma X15_derivative_at_rest_in_air_witness :
  derivative default_rocket still_air 0 5 0 (0, 0, 5, 0) 0
  = Ok (5, 0,
        fst (coriolis_term still_air 5 0),
        - GRAVITY + snd (coriolis_term still_air 5 0)).
Proof.
  apply (X15_derivative_at_rest_in_air default_rocket still_air 0 5 0 0 0 0).
  right. cbn. lra.
Defined.

(** X16: drag acts against the motion through the air.  Outside a rocket's
    burn and without the Coriolis term, the acceleration the derivative
    returns, gravity taken out, is anti-parallel to the velocity relative to
    the wind: its component along that velocity is never positive and its
    cross product with it is zero. *)
Theorem X16_drag_opposes_relative_velocity
    (p : Projectile) (env : Environment) (angle_rad wind_x wind_y : R)
    (x y vx vy t cd m : R) :
  drag_coefficient p (hypot (vx - wind_x) (vy - wind_y)) = Ok cd ->
  get_mass p t = Ok m ->
  0 < m -> 0 <= cd -> 0 <= air_density env -> 0 <= area p ->
  (projectile_type p =? "rocket")%string && ltb t (burn_time p) = false ->
  coriolis env = false ->
  exists ax ay,
    derivative p env angle_rad wind_x wind_y (x, y, vx, vy) t
    = Ok (vx, vy, ax, ay) /\
    ax * (vx - wind_x) + (ay + GRAVITY) * (vy - wind_y) <= 0 /\
    ax * (vy - wind_y) = (ay + GRAVITY) * (vx - wind_x).
Proof.
  intros Hcd Hm Hm0 Hcd0 Hrho Harea Hoff Hcor.
  assert (Hm' : m <> 0) by lra.
  rewrite (derivative_unpowered p env angle_rad wind_x wind_y x y vx vy t
             cd m Hcd Hm Hm' Hoff).
  do 2 eexists. split; [reflexivity |].
  unfold coriolis_term, drag_gravity. rewrite Hcor. cbn [fst snd].
  set (vrx := vx - wind_x). set (vry := vy - wind_y).
  set (v := hypot vrx vry).
  set (F := 0.5 * air_density env * v ^ 2 * cd * area p).
  assert (Hv : 0 <= v) by apply sqrt_pos.
  assert (HF : 0 <= F).
  { subst F. assert (0 <= v ^ 2) by apply pow2_ge_0.
    apply Rmult_le_pos; [| exact Harea].
    apply Rmult_le_pos; [| exact Hcd0].
    apply Rmult_le_pos; [| assumption].
    apply Rmult_le_pos; [lra | exact Hrho]. }
  destruct (gtb v 0) eqn:Ev; cbn [fst snd].
  - apply gtb_true in Ev.
    set (k := F / (m * v)).
    assert (Hk : 0 <= k).
    { subst k. apply Rmult_le_pos; [exact HF |].
      left. apply Rinv_0_lt_compat. nra. }
    replace (- (F * vrx) / (m * v) + 0) with (- k * vrx)
      by (subst k; unfold Rdiv; ring).
    replace (- GRAVITY - F * vry / (m * v) + 0 + GRAVITY) with (- k * vry)
      by (subst k; unfold Rdiv; ring).
    split; nra.
  - split; lra.
Qed.

Lemma X16_drag_opposes_relative_velocity_witness :
  exists ax ay,
    derivative sample_mortar still_air 0.5 0 0 (0, 0, 3, 4) 1
    = Ok (3, 4, ax, ay) /\
    ax * (3 - 0) + (ay + GRAVITY) * (4 - 0) <= 0 /\
    ax * (4 - 0) = (ay + GRAVITY) * (3 - 0).
Proof.
  pose proof (standard_tables_range (hypot (3 - 0) (4 - 0))) as (_ & _ & _ & Hm).
  apply (X16_drag_opposes_relative_velocity sample_mortar still_air 0.5 0 0
           0 0 3 4 1 (DragModel.mortar (hypot (3 - 0) (4 - 0))) 3.2).
  - reflexivity.
  - reflexivity.
  - lra.
  - lra.
  - cbn. lra.
  - cbn. apply Rmult_le_pos; [left; apply PI_RGT_0 | nra].
  - reflexivity.
  - reflexivity.
Defined.

(** ** The adaptive step *)

Lemma step_size_bounds max_ts min_ts v :
  min_ts <= max_ts -> min_ts <= step_size max_ts min_ts v <= max_ts.
Proof.
  intros H. unfold step_size. split; [apply Rmax_l |].
  apply Rmax_lub; [exact H | apply Rmin_l].
Qed.

Lemma step_size_plateau max_ts min_ts v :
  min_ts <= max_ts -> 0 <= max_ts -> v <= 1000 ->
  step_size max_ts min_ts v = max_ts.
Proof.
  intros H H0 Hv. unfold step_size.
  assert (Hd : 100 <= Rmax 100 v <= 1000).
  { split; [apply Rmax_l | apply Rmax_lub; lra]. }
  assert (Hq : 1 <= 1000 / Rmax 100 v).
  { apply Rmult_le_reg_r with (Rmax 100 v); [lra |].
    unfold Rdiv. rewrite Rmult_assoc, Rinv_l by lra. lra. }
  rewrite Rmin_left by nra. now apply Rmax_right.
Qed.

Lemma step_size_antitone max_ts min_ts v w :
  0 <= max_ts -> v <= w ->
  step_size max_ts min_ts w <= step_size max_ts min_ts v.
Proof.
  intros H0 Hvw. unfold step_size.
  assert (Hv : 100 <= Rmax 100 v) by apply Rmax_l.
  assert (Hmono : Rmax 100 v <= Rmax 100 w)
    by (apply Rle_max_compat_l; exact Hvw).
  assert (Hq : 1000 / Rmax 100 w <= 1000 / Rmax 100 v).
  { unfold Rdiv. apply Rmult_le_compat_l; [lra |].
    apply Rinv_le_contravar; lra. }
  apply Rle_max_compat_l. apply Rle_min_compat_l. nra.
Qed.

(** X17: the adaptive step.  With [min_time_step <= max_time_step] the
    step always lies between the two; with a non-negative maximum it is the
    maximum itself up to a speed of 1000 m/s, and it never grows when the
    speed grows. *)
Theorem X17_step_size_adaptive (max_ts min_ts v w : R) :
  min_ts <= max_ts -> 0 <= max_ts ->
  min_ts <= step_size max_ts min_ts v <= max_ts /\
  (v <= 1000 -> step_size max_ts min_ts v = max_ts) /\
  (v <= w -> step_size max_ts min_ts w <= step_size max_ts min_ts v).
Proof.
  intros H H0. split; [now apply step_size_bounds |]. split.
  - now apply step_size_plateau.
  - now apply step_size_antitone.
Qed.

Lemma X17_step_size_adaptive_witness :
  DEFAULT_MIN_TIME_STEP
    <= step_size DEFAULT_MAX_TIME_STEP DEFAULT_MIN_TIME_STEP 830
    <= DEFAULT_MAX_TIME_STEP /\
  (830 <= 1000 ->
   step_size DEFAULT_MAX_TIME_STEP DEFAULT_MIN_TIME_STEP 830
   = DEFAULT_MAX_TIME_STEP) /\
  (830 <= 2000 ->
   step_size DEFAULT_MAX_TIME_STEP DEFAULT_MIN_TIME_STEP 2000
   <= step_size DEFAULT_MAX_TIME_STEP DEFAULT_MIN_TIME_STEP 830).
Proof.
  apply (X17_step_size_adaptive DEFAULT_MAX_TIME_STEP DEFAULT_MIN_TIME_STEP
           830 2000); unfold DEFAULT_MAX_TIME_STEP, DEFAULT_MIN_TIME_STEP; lra.
Defined.

(** ** One iteration of the loop *)

Section Pace.
Variable f : State -> R -> result State.
Variables max_ts min_ts : R.



End Pace.

(** ** Flight without drag *)




Section Vacuum.
Variable f : State -> R -> result State.
Variables max_ts min_ts vx0 vy0 : R.
Hypothesis f_free_fall :
  forall x y vx vy t, f (x, y, vx, vy) t = Ok (vx, vy, 0, - GRAVITY).

End Vacuum.



(** ** The result summary *)

Lemma max_by_fold {A : Type} (key : A -> R) (rest : list A) : forall best,
  let r := max_by key best rest in
  (r = best \/ In r rest) /\ key best <= key r /\
  (forall x, In x rest -> key x <= key r).
Proof.
  unfold max_by. induction rest as [| item rest IH]; intros best; simpl.
  - split; [now left |]. split; [lra | contradiction].
  - destruct (gtb (key item) (key best)) eqn:E.
    + apply gtb_true in E. destruct (IH item) as (Hin & Hge & Hall).
      split; [destruct Hin; auto |]. split; [lra |].
      intros x [<- | Hx]; auto.
    + apply gtb_false in E. destruct (IH best) as (Hin & Hge & Hall).
      split; [destruct Hin; auto |]. split; [lra |].
      intros x [<- | Hx]; [lra | auto].
Qed.

(** Over a range of indices [max] with a key returns the first index of
    the greatest key. *)
Lemma max_by_seq (key : nat -> R) : forall n a best,
  (best < a)%nat ->
  (forall j, (j < a)%nat -> key j <= key best) ->
  (forall j, (j < best)%nat -> key j < key best) ->
  let r := max_by key best (seq a n) in
  (r < a + n)%nat /\
  (forall j, (j < a + n)%nat -> key j <= key r) /\
  (forall j, (j < r)%nat -> key j < key r).
Proof.
  unfold max_by. induction n as [| n IH]; intros a best Hlt Hle Hfirst; simpl.
  - rewrite Nat.add_0_r. auto.
  - replace (a + S n)%nat with (S a + n)%nat by lia.
    destruct (gtb (key a) (key best)) eqn:E.
    + apply gtb_true in E. apply IH; [lia | |].
      * intros j Hj. destruct (Nat.eq_dec j a) as [-> | Hne]; [lra |].
        specialize (Hle j ltac:(lia)). lra.
      * intros j Hj. specialize (Hle j Hj). lra.
    + apply gtb_false in E. apply IH; [lia | | exact Hfirst].
      intros j Hj. destruct (Nat.eq_dec j a) as [-> | Hne]; [lra |].
      apply Hle. lia.
Qed.

(** The summary numbers on a non-empty trajectory. *)
Lemma update_results_summary (mass_input : R) (trajectory : list Sample) :
  trajectory <> [] ->
  exists s top final,
    update_results mass_input trajectory
    = Ok (Some (s, data_lines 0 trajectory)) /\
    Forall (fun p => sample_y p <= max_height s) trajectory /\
    nth_error trajectory (max_height_idx s) = Some top /\
    sample_y top = max_height s /\ sample_x top = max_height_at s /\
    (forall j p, (j < max_height_idx s)%nat -> nth_error trajectory j = Some p ->
                 sample_y p < max_height s) /\
    nth_error trajectory (length trajectory - 1) = Some final /\
    distance s = sample_x final /\ flight_time s = sample_t final /\
    impact_velocity s = sample_speed final /\
    (0 <= mass_input -> 0 <= impact_energy s).
Proof.
  intros Hne. destruct trajectory as [| first rest]; [contradiction |].
  set (traj := first :: rest).
  set (key := fun i : nat => sample_y (nth i traj first)).
  destruct (max_by_seq key (length rest) 1 0%nat) as (Hidx & Hmax & Hfirst);
    [lia | | intros j Hj; lia |].
  { intros j Hj. replace j with 0%nat by lia. lra. }
  set (idx := max_by key 0%nat (seq 1 (length rest))) in *.
  destruct (max_by_fold (fun y : R => y) (map sample_y rest) (sample_y first))
    as (Hin & Hge & Hall).
  set (M := max_by (fun y : R => y) (sample_y first) (map sample_y rest)) in *.
  cbv beta in Hge, Hall.
  assert (Hlen : length traj = (1 + length rest)%nat) by reflexivity.
  destruct (nth_error traj idx) as [top |] eqn:Htop;
    [| apply nth_error_None in Htop; lia].
  assert (Hkey : forall j p, nth_error traj j = Some p -> key j = sample_y p).
  { intros j p Hp. unfold key. now rewrite (nth_error_nth _ _ _ Hp). }
  assert (HM : Forall (fun p => sample_y p <= M) traj).
  { constructor; [exact Hge |]. apply Forall_forall. intros p Hp.
    apply Hall. now apply in_map. }
  assert (HtopM : sample_y top = M).
  { apply Rle_antisym.
    - rewrite Forall_forall in HM. apply HM. eapply nth_error_In; exact Htop.
    - rewrite <- (Hkey _ _ Htop).
      destruct Hin as [-> | Hin].
      + rewrite <- (Hkey 0%nat first eq_refl). apply Hmax. lia.
      + apply in_map_iff in Hin as (p & <- & Hp).
        apply (In_nth_error rest) in Hp as [j Hj].
        assert (j < length rest)%nat by (apply nth_error_Some; congruence).
        rewrite <- (Hkey (S j) p Hj). apply Hmax. lia. }
  eexists. exists top, (last traj first). split.
  - assert (Hlast : index traj (-1) = Ok (last traj first))
      by apply index_last.
    unfold update_results, traj. fold traj. fold key. fold idx. fold M.
    rewrite Hlast. cbn [bind].
    rewrite (index_nat _ _ _ Htop). cbn [bind]. reflexivity.
  - cbn [max_height max_height_idx max_height_at distance flight_time
         impact_velocity impact_energy].
    split; [exact HM |]. split; [exact Htop |].
    split; [exact HtopM |]. split; [reflexivity |]. split.
    + intros j p Hj Hp. rewrite <- (Hkey _ _ Hp), <- HtopM, <- (Hkey _ _ Htop).
      now apply Hfirst.
    + split.
      * unfold traj. rewrite <- nth_length_last.
        replace (length (first :: rest) - 1)%nat with (length rest)
          by (simpl; lia).
        apply nth_error_nth'. simpl. lia.
      * repeat split. intros Hm.
        apply Rmult_le_pos; [apply Rmult_le_pos; lra | apply pow2_ge_0].
Qed.

(** X20: the summary numbers of [update_results].  On a non-empty
    trajectory it never raises and never takes the "no data" branch; the
    maximum height bounds every point's height and is the height of the
    point at [max_height_idx], which is the first point that high and whose
    [x] the summary prints; distance, flight time and impact velocity are
    fields of the last point; and the impact energy is not negative when the
    mass is not. *)
Theorem X20_update_results_summary (mass_input : R) (trajectory : list Sample) :
  trajectory <> [] ->
  exists s rows top final,
    update_results mass_input trajectory = Ok (Some (s, rows)) /\
    Forall (fun p => sample_y p <= max_height s) trajectory /\
    nth_error trajectory (max_height_idx s) = Some top /\
    sample_y top = max_height s /\ sample_x top = max_height_at s /\
    (forall j p, (j < max_height_idx s)%nat -> nth_error trajectory j = Some p ->
                 sample_y p < max_height s) /\
    nth_error trajectory (length trajectory - 1) = Some final /\
    distance s = sample_x final /\ flight_time s = sample_t final /\
    impact_velocity s = sample_speed final /\
    (0 <= mass_input -> 0 <= impact_energy s).
Proof.
  intros Hne.
  destruct (update_results_summary mass_input trajectory Hne)
    as (s & top & final & H).
  exists s, (data_lines 0 trajectory), top, final. exact H.
Qed.

Lemma X20_update_results_summary_witness :
  exists s rows top final,
    update_results 9.5 [(0, 0, 0, 3, 4, 5); (1, 2, 1, 3, 0, 3);
                        (2, 2, 2, 3, -4, 5)]
    = Ok (Some (s, rows)) /\
    Forall (fun p => sample_y p <= max_height s)
      [(0, 0, 0, 3, 4, 5); (1, 2, 1, 3, 0, 3); (2, 2, 2, 3, -4, 5)] /\
    nth_error [(0, 0, 0, 3, 4, 5); (1, 2, 1, 3, 0, 3); (2, 2, 2, 3, -4, 5)]
              (max_height_idx s) = Some top /\
    sample_y top = max_height s /\ sample_x top = max_height_at s /\
    (forall j p, (j < max_height_idx s)%nat ->
       nth_error [(0, 0, 0, 3, 4, 5); (1, 2, 1, 3, 0, 3); (2, 2, 2, 3, -4, 5)]
                 j = Some p ->
       sample_y p < max_height s) /\
    nth_error [(0, 0, 0, 3, 4, 5); (1, 2, 1, 3, 0, 3); (2, 2, 2, 3, -4, 5)]
              (length [(0, 0, 0, 3, 4, 5); (1, 2, 1, 3, 0, 3);
                       (2, 2, 2, 3, -4, 5)] - 1) = Some final /\
    distance s = sample_x final /\ flight_time s = sample_t final /\
    impact_velocity s = sample_speed final /\
    (0 <= 9.5 -> 0 <= impact_energy s).
Proof.
  apply (X20_update_results_summary 9.5
           [(0, 0, 0, 3, 4, 5); (1, 2, 1, 3, 0, 3); (2, 2, 2, 3, -4, 5)]).
  discriminate.
Defined.

Lemma data_lines_nth : forall trajectory i k,
  nth_error (data_lines i trajectory) k
  = nth_error trajectory ((10 - i mod 10) mod 10 + 10 * k).
Proof.
  induction trajectory as [| point rest IH]; intros i k.
  - simpl. now rewrite !nth_error_nil.
  - cbn [data_lines]. destruct (i mod 10 =? 0)%nat eqn:E.
    + apply Nat.eqb_eq in E.
      replace ((10 - i mod 10) mod 10)%nat with 0%nat
        by (rewrite E; reflexivity).
      destruct k as [| k]; [reflexivity |].
      cbn [nth_error]. rewrite IH.
      replace (0 + 10 * S k)%nat with (S (9 + 10 * k)) by lia.
      cbn [nth_error]. f_equal.
      assert (S i mod 10 = 1)%nat by (pose proof (Nat.div_mod_eq i 10);
        pose proof (Nat.div_mod_eq (S i) 10);
        pose proof (Nat.mod_upper_bound (S i) 10); lia).
      replace (S i mod 10)%nat with 1%nat. reflexivity.
    + apply Nat.eqb_neq in E. rewrite IH.
      pose proof (Nat.mod_upper_bound i 10 ltac:(lia)) as Hi.
      assert (Hs : (S i mod 10 = (i mod 10 + 1) mod 10)%nat).
      { pose proof (Nat.div_mod_eq i 10). pose proof (Nat.div_mod_eq (S i) 10).
        pose proof (Nat.mod_upper_bound (S i) 10).
        pose proof (Nat.div_mod_eq (i mod 10 + 1) 10).
        pose proof (Nat.mod_upper_bound (i mod 10 + 1) 10). lia. }
      rewrite Hs.
      set (m := (i mod 10)%nat) in *.
      assert (Hm : (1 <= m <= 9)%nat) by lia.
      assert (Ho : ((10 - m) mod 10 = 10 - m)%nat)
        by (apply Nat.mod_small; lia).
      assert (Ho' : ((10 - (m + 1) mod 10) mod 10 = 9 - m)%nat).
      { destruct (Nat.eq_dec m 9) as [-> | Hne]; [reflexivity |].
        rewrite (Nat.mod_small (m + 1)) by lia.
        rewrite Nat.mod_small by lia. lia. }
      rewrite Ho, Ho'.
      replace (10 - m + 10 * k)%nat with (S (9 - m + 10 * k)) by lia.
      reflexivity.
Qed.

Lemma data_lines_length : forall trajectory i,
  (10 * length (data_lines i trajectory) + (10 - i mod 10) mod 10
   < length trajectory + 10 /\
   length trajectory + 10
   <= 10 * length (data_lines i trajectory) + (10 - i mod 10) mod 10 + 10)%nat.
Proof.
  intros trajectory i.
  set (o := ((10 - i mod 10) mod 10)%nat).
  set (rows := data_lines i trajectory).
  assert (Ho : (o < 10)%nat) by (apply Nat.mod_upper_bound; lia).
  assert (Hend : nth_error rows (length rows) = None)
    by (apply nth_error_None; lia).
  unfold rows at 1 in Hend. rewrite data_lines_nth in Hend. fold o in Hend.
  apply nth_error_None in Hend.
  destruct (length rows) as [| n] eqn:Hn.
  - lia.
  - assert (Hin : nth_error rows n <> None) by (apply nth_error_Some; lia).
    unfold rows at 1 in Hin. rewrite data_lines_nth in Hin. fold o in Hin.
    apply nth_error_Some in Hin. lia.
Qed.

(** X21: the data table of [update_results] shows every tenth point:
    its row [k] is the trajectory's point [10 k], so the first row of a
    non-empty trajectory is its first point, and a trajectory of [n] points
    gives the [ceil(n / 10)] rows with [10 (rows - 1) < n <= 10 rows]. *)
Theorem X21_data_table_every_tenth_point (trajectory : list Sample) :
  (forall k, nth_error (data_lines 0 trajectory) k
             = nth_error trajectory (10 * k)) /\
  (10 * length (data_lines 0 trajectory) < length trajectory + 10)%nat /\
  (length trajectory <= 10 * length (data_lines 0 trajectory))%nat /\
  (forall mass_input s rows,
     update_results mass_input trajectory = Ok (Some (s, rows)) ->
     rows = data_lines 0 trajectory).
Proof.
  split; [intros k; apply (data_lines_nth trajectory 0 k) |].
  pose proof (data_lines_length trajectory 0) as H.
  change ((10 - 0 mod 10) mod 10)%nat with 0%nat in H.
  split; [lia |]. split; [lia |].
  intros mass_input s rows Hr. unfold update_results in Hr.
  destruct trajectory as [| first rest]; [discriminate |].
  destruct (index (first :: rest) (-1)) as [lp |]; [| discriminate].
  cbn [bind] in Hr.
  destruct (index (first :: rest) _) as [top |]; [| discriminate].
  cbn [bind] in Hr. now injection Hr as _ <-.
Qed.

(** ** From the button to the summary *)

Lemma validate_inputs_accepts self inp :
  validate_inputs self inp = None <->
  0 < mass_input inp /\ 0 < diam_input inp /\ 0 < velocity_input inp /\
  (lower (type_combo self) = "rocket"%string -> 0 <= burn_time_input self).
Proof.
  unfold validate_inputs. split.
  - intros H.
    destruct (leb (mass_input inp) 0) eqn:E1; [discriminate |].
    destruct (leb (diam_input inp) 0) eqn:E2; [discriminate |].
    destruct (leb (velocity_input inp) 0) eqn:E3; [discriminate |].
    apply leb_false in E1, E2, E3.
    repeat split; try lra.
    intros Hty. apply String.eqb_eq in Hty. rewrite Hty in H.
    destruct (ltb (burn_time_input self) 0) eqn:E4; [discriminate |].
    apply ltb_false in E4. lra.
  - intros (H1 & H2 & H3 & H4).
    replace (leb (mass_input inp) 0) with false
      by (symmetry; apply leb_false; lra).
    replace (leb (diam_input inp) 0) with false
      by (symmetry; apply leb_false; lra).
    replace (leb (velocity_input inp) 0) with false
      by (symmetry; apply leb_false; lra).
    destruct (lower (type_combo self) =? "rocket")%string eqn:Ety;
      [| reflexivity].
    apply String.eqb_eq in Ety. specialize (H4 Ety).
    replace (ltb (burn_time_input self) 0) with false
      by (symmetry; apply ltb_false; lra).
    reflexivity.
Qed.

Lemma relative_speed_positive v w a b :
  0 <= w < v -> 0 < hypot (v * cos a - w * cos b) (v * sin a - w * sin b).
Proof.
  intros Hw. unfold hypot. apply sqrt_lt_R0.
  pose proof (sin2_cos2 a) as Ha. pose proof (sin2_cos2 b) as Hb.
  unfold Rsqr in Ha, Hb.
  set (ca := cos a) in *. set (sa := sin a) in *.
  set (cb := cos b) in *. set (sb := sin b) in *.
  assert (Hcs : ca * cb + sa * sb <= 1).
  { pose proof (Rle_0_sqr (ca - cb)) as Q1.
    pose proof (Rle_0_sqr (sa - sb)) as Q2. unfold Rsqr in Q1, Q2. lra. }
  assert (Hexp : (v * ca - w * cb) * (v * ca - w * cb)
                 + (v * sa - w * sb) * (v * sa - w * sb)
                 = v * v * (sa * sa + ca * ca) + w * w * (sb * sb + cb * cb)
                   - 2 * v * w * (ca * cb + sa * sb)) by ring.
  rewrite Hexp, Ha, Hb.
  assert (Hvw : 0 <= v * w) by (apply Rmult_le_pos; lra).
  assert (Hprod : v * w * (ca * cb + sa * sb) <= v * w * 1)
    by (apply Rmult_le_compat_l; assumption).
  assert (Hsq : 0 < (v - w) * (v - w)) by (apply Rmult_lt_0_compat; lra).
  lra.
Qed.

(** X23: validation lets a rocket with a burn time of 0 through, and the
    calculation then fails.  For every accepted form with the type set to
    rocket, the burn time 0 and a wind slower than the muzzle velocity, the
    thread reports [ZeroDivisionError] from the first derivative evaluation,
    whatever the other inputs are. *)
Theorem X23_zero_burn_rocket_fails (self : Widgets) (inp : Inputs) (fuel : nat) :
  validate_inputs self inp = None ->
  temp_input inp + 237.3 <> 0 -> temp_input inp + 273.15 <> 0 ->
  pressure_input inp <> 0 ->
  lower (type_combo self) = "rocket"%string -> burn_time_input self = 0 ->
  0 <= wind_speed_input inp < velocity_input inp ->
  calculate_trajectory self inp (S fuel) = Some (Ok (Failed ZeroDivisionError)).
Proof.
  intros Hval H1 H2 H3 Hty Hb Hw.
  unfold calculate_trajectory. rewrite Hval.
  destruct (calculate_trajectory_unfold self (S fuel) (mass_input inp / 1000)
              (diam_input inp / 1000) (drag_model_combo inp)
              (velocity_input inp) (angle_input inp) (altitude_input inp)
              (temp_input inp) (pressure_input inp) (humidity_input inp)
              (wind_speed_input inp) (wind_angle_input inp)
              (coriolis_check inp) (latitude_input inp)
              DEFAULT_MAX_TIME_STEP DEFAULT_MIN_TIME_STEP H1 H2 H3)
    as (p & env & wx & wy & -> & Hp & Henv & Hwind).
  cbn [integrate].
  replace (geb 0 0) with true by (symmetry; apply geb_true; lra).
  replace (ltb 0.0 120) with true by (symmetry; apply ltb_true; lra).
  cbn [andb]. unfold rk4_step.
  rewrite derivative_zero_burn_raises; [reflexivity | | | |].
  - subst p. exact Hty.
  - subst p. unfold Projectile_init. cbn [burn_time].
    rewrite Hty. exact Hb.
  - lra.
  - subst env. unfold wind_vector in Hwind. cbn in Hwind.
    injection Hwind as -> ->.
    now apply relative_speed_positive.
Qed.

Lemma X23_zero_burn_rocket_fails_witness :
  calculate_trajectory rocket_widgets rocket_form (S 0)
  = Some (Ok (Failed ZeroDivisionError)).
Proof.
  apply (X23_zero_burn_rocket_fails rocket_widgets rocket_form 0).
  - apply validate_inputs_accepts. simpl. repeat split; lra.
  - simpl. lra.
  - simpl. lra.
  - simpl. lra.
  - reflexivity.
  - reflexivity.
  - simpl. lra.
Defined.

(** ** The derivative of the earlier variant *)

Lemma v344_drag_coefficient_same p v :
  custom_drag_curve p = None ->
  drag_coefficient p v = Ok (V344Flight.drag_coefficient p v).
Proof.
  intros Hc. unfold drag_coefficient, V344Flight.drag_coefficient.
  rewrite Hc. cbn [truthy]. rewrite andb_false_r.
  repeat match goal with
         | |- context [if ?c then _ else _] => destruct c
         end; reflexivity.
Qed.

(** The v344 derivative is the later one followed by the spin-drift
    term. *)
Lemma v344_derivative_split spin p env angle_rad wx wy x y vx vy t :
  custom_drag_curve p = None -> thrust_curve p <> [] ->
  V344Flight.derivative spin p env angle_rad wx wy (x, y, vx, vy) t
  = '(a, b, ax, ay) <- derivative p env angle_rad wx wy (x, y, vx, vy) t ;;
    ax' <- (if V344Flight.spin_drift_check spin
               && (projectile_type p =? "bullet")%string
            then
              spin_rate <- div (hypot (vx - wx) (vy - wy) * 2 * PI)
                               (V344Flight.twist_input spin * 0.0254) ;;
              Ok (ax + 0.0001 * spin_rate * hypot (vx - wx) (vy - wy))
            else Ok ax) ;;
    Ok (a, b, ax', ay).
Proof.
  intros Hc Hth. unfold V344Flight.derivative, derivative.
  rewrite (v344_drag_coefficient_same p _ Hc), (v344_get_thrust_same p t Hth).
  cbn [bind].
  do 2 (match goal with
        | |- bind ?m _ = _ => destruct m as [? | ?]; cbn [bind]; [| reflexivity]
        end).
  match goal with
  | |- bind ?m _ = _ => destruct m as [[ax ay] | ?]; cbn [bind]; [| reflexivity]
  end.
  destruct (coriolis env);
    (destruct (V344Flight.spin_drift_check spin
               && (projectile_type p =? "bullet")%string);
     [destruct (div _ _) | ]; reflexivity).
Qed.

(** X26: the v344 derivative against the later one.  For a projectile as
    v344 builds it (no custom curve, a non-empty thrust dictionary) the two
    agree whenever spin drift is off or the type is not "bullet"; with spin
    drift on for a bullet and a non-zero twist, v344 adds
    [0.0001 * (2 pi v_rel / (0.0254 twist)) * v_rel] to the horizontal
    acceleration and nothing to the vertical one, and for a positive twist
    that term is never negative, whatever the direction of flight. *)
Theorem X26_v344_derivative_spin_drift
    (spin : V344Flight.SpinWidgets) (p : Projectile) (env : Environment)
    (angle_rad wx wy x y vx vy t : R) :
  custom_drag_curve p = None -> thrust_curve p <> [] ->
  (V344Flight.spin_drift_check spin
   && (projectile_type p =? "bullet")%string = false ->
   V344Flight.derivative spin p env angle_rad wx wy (x, y, vx, vy) t
   = derivative p env angle_rad wx wy (x, y, vx, vy) t) /\
  (V344Flight.spin_drift_check spin = true ->
   projectile_type p = "bullet"%string ->
   V344Flight.twist_input spin <> 0 ->
   forall a b ax ay,
     derivative p env angle_rad wx wy (x, y, vx, vy) t = Ok (a, b, ax, ay) ->
     V344Flight.derivative spin p env angle_rad wx wy (x, y, vx, vy) t
     = Ok (a, b,
           ax + spin_drift_term (V344Flight.twist_input spin)
                                (hypot (vx - wx) (vy - wy)),
           ay)) /\
  (0 < V344Flight.twist_input spin ->
   0 <= spin_drift_term (V344Flight.twist_input spin)
                        (hypot (vx - wx) (vy - wy))).
Proof.
  intros Hc Hth. unfold spin_drift_term. split; [| split].
  - intros Hoff. rewrite v344_derivative_split by assumption. rewrite Hoff.
    destruct (derivative p env angle_rad wx wy (x, y, vx, vy) t)
      as [[[[a b] ax] ay] | e]; reflexivity.
  - intros Hon Hty Htw a b ax ay Hd.
    rewrite v344_derivative_split by assumption.
    rewrite Hd, Hon, Hty. cbn [bind andb String.eqb].
    change ("bullet" =? "bullet")%string with true. cbv iota.
    unfold div.
    replace (eqb (V344Flight.twist_input spin * 0.0254) 0) with false
      by (symmetry; apply eqb_false; nra).
    reflexivity.
  - intros Htw.
    pose proof (hypot_nonneg (vx - wx) (vy - wy)) as Hv.
    set (v_rel := hypot (vx - wx) (vy - wy)) in *.
    assert (Hq : 0 <= v_rel * 2 * PI / (V344Flight.twist_input spin * 0.0254)).
    { apply Rmult_le_pos.
      - apply Rmult_le_pos; [lra | left; exact PI_RGT_0].
      - left. apply Rinv_0_lt_compat. lra. }
    apply Rmult_le_pos; [| exact Hv].
    apply Rmult_le_pos; [lra | exact Hq].
Qed.

Lemma X26_v344_derivative_spin_drift_witness :
  (V344Flight.spin_drift_check (V344Flight.mkSpinWidgets true 10)
   && (projectile_type
         (Projectile_init 0.0095 0.00782 "G7" 830 "bullet" (Some [(0, 0)]) 0
                          None) =? "bullet")%string = false ->
   V344Flight.derivative (V344Flight.mkSpinWidgets true 10)
     (Projectile_init 0.0095 0.00782 "G7" 830 "bullet" (Some [(0, 0)]) 0 None)
     still_air 0 0 0 (0, 0, 3, 4) 1
   = derivative
       (Projectile_init 0.0095 0.00782 "G7" 830 "bullet" (Some [(0, 0)]) 0 None)
       still_air 0 0 0 (0, 0, 3, 4) 1) /\
  (V344Flight.spin_drift_check (V344Flight.mkSpinWidgets true 10) = true ->
   projectile_type
     (Projectile_init 0.0095 0.00782 "G7" 830 "bullet" (Some [(0, 0)]) 0 None)
   = "bullet"%string ->
   V344Flight.twist_input (V344Flight.mkSpinWidgets true 10) <> 0 ->
   forall a b ax ay,
     derivative
       (Projectile_init 0.0095 0.00782 "G7" 830 "bullet" (Some [(0, 0)]) 0 None)
       still_air 0 0 0 (0, 0, 3, 4) 1
     = Ok (a, b, ax, ay) ->
     V344Flight.derivative (V344Flight.mkSpinWidgets true 10)
       (Projectile_init 0.0095 0.00782 "G7" 830 "bullet" (Some [(0, 0)]) 0 None)
       still_air 0 0 0 (0, 0, 3, 4) 1
     = Ok (a, b,
           ax + spin_drift_term
                  (V344Flight.twist_input (V344Flight.mkSpinWidgets true 10))
                  (hypot (3 - 0) (4 - 0)),
           ay)) /\
  (0 < V344Flight.twist_input (V344Flight.mkSpinWidgets true 10) ->
   0 <= spin_drift_term
          (V344Flight.twist_input (V344Flight.mkSpinWidgets true 10))
          (hypot (3 - 0) (4 - 0))).
Proof.
  apply (X26_v344_derivative_spin_drift (V344Flight.mkSpinWidgets true 10)
           (Projectile_init 0.0095 0.00782 "G7" 830 "bullet" (Some [(0, 0)]) 0
                            None)
           still_air 0 0 0 0 0 3 4 1).
  - reflexivity.
  - discriminate.
Defined.

(** ** The oldest variant *)




(** * Termination, counts and outcomes under rounding *)

(** ** A shell that an updraft keeps aloft *)

(** In the oldest variant a projectile that falls through the air at its
    terminal speed [w], in an updraft faster than [w], keeps its velocity and
    climbs for ever: the loop, which stops on [y < 0] only, never ends. *)
Lemma legacy_hover projectile environment wind_x wind_y time_step w :
  coriolis environment = false -> 0 < time_step -> 0 < w -> w <= wind_y ->
  0 < Legacy.mass projectile ->
  0.5 * air_density environment * w ^ 2 * Legacy.drag_coeff projectile
    * Legacy.area projectile
  = Legacy.mass projectile * GRAVITY ->
  forall fuel x y time acc,
    0 <= y ->
    Legacy.loop fuel projectile environment wind_x wind_y time_step
                x y wind_x (wind_y - w) time acc = None.
Proof.
  intros Hcor Hdt Hw Hup Hm Hbal.
  induction fuel as [| fuel IH]; intros x y time acc Hy; [reflexivity |].
  cbn [Legacy.loop].
  replace (geb y 0) with true by (symmetry; apply geb_true; lra).
  rewrite Hcor.
  assert (Hv : sqrt ((wind_x - wind_x) ^ 2 + (wind_y - w - wind_y) ^ 2) = w).
  { replace ((wind_x - wind_x) ^ 2 + (wind_y - w - wind_y) ^ 2) with (w ^ 2)
      by ring.
    apply sqrt_pow2. lra. }
  rewrite Hv, Hbal.
  replace (gtb w 0) with true by (symmetry; apply gtb_true; lra).
  unfold div.
  replace (eqb (Legacy.mass projectile * w) 0) with false
    by (symmetry; apply eqb_false; nra).
  cbn [bind].
  assert (Hvx : wind_x
                + - (Legacy.mass projectile * GRAVITY * (wind_x - wind_x))
                  / (Legacy.mass projectile * w) * time_step
                = wind_x) by (unfold Rdiv; ring).
  assert (Hvy : wind_y - w
                + (- GRAVITY
                   - Legacy.mass projectile * GRAVITY * (wind_y - w - wind_y)
                     / (Legacy.mass projectile * w)) * time_step
                = wind_y - w) by (field; split; lra).
  rewrite Hvx, Hvy.
  apply IH. nra.
Qed.

Lemma standard_density_positive : 0 < density_formula 0 15 1013.25 50.
Proof.
  apply density_formula_sign; try lra.
  pose proof (vapor_pressure_bound 15 50). lra.
Qed.

Lemma legacy_updraft_never_returns fuel :
  Legacy._calculate_trajectory fuel 48 90 light_shell updraft 0.1 = None.
Proof.
  unfold Legacy._calculate_trajectory, wind_vector.
  cbn [wind_speed wind_angle updraft].
  assert (Hr : radians 90 = PI / 2) by (unfold radians; lra).
  rewrite Hr, cos_PI2, sin_PI2.
  replace (50 * 0) with 0 by ring. replace (48 * 0) with 0 by ring.
  replace (48 * 1) with (50 * 1 - 2) by ring.
  pose proof standard_density_positive as Hrho.
  assert (Harea : 0 < PI * (0.1 / 2) ^ 2).
  { apply Rmult_lt_0_compat; [exact PI_RGT_0 | nra]. }
  apply legacy_hover; try lra.
  - reflexivity.
  - unfold light_shell. cbn [Legacy.mass]. unfold GRAVITY.
    apply Rdiv_lt_0_compat; [| lra].
    apply Rmult_lt_0_compat; [lra | exact Harea].
  - unfold light_shell, updraft.
    cbn [Legacy.mass Legacy.drag_coeff Legacy.area air_density].
    set (A := PI * (0.1 / 2) ^ 2). set (rho := density_formula 0 15 1013.25 50).
    replace 0.5 with (/ 2) by lra. field. unfold GRAVITY. lra.
Qed.

(** ** The RK4 loop under rounding *)

Lemma unit_roundoff_bound : 0 < UNIT_ROUNDOFF < / 1000000000000000.
Proof.
  unfold UNIT_ROUNDOFF.
  assert (H : 1000000000000000 < 2 ^ 53) by (simpl; lra).
  split.
  - apply Rinv_0_lt_compat. lra.
  - apply Rinv_lt_contravar; [| exact H].
    apply Rmult_lt_0_compat; lra.
Qed.

Lemma coarse_add_rounded : rounded_sum UNIT_ROUNDOFF coarse_add.
Proof.
  intros a b. unfold coarse_add.
  replace ((a + b) * (1 + UNIT_ROUNDOFF) - (a + b))
    with (UNIT_ROUNDOFF * (a + b)) by ring.
  rewrite Rabs_mult, (Rabs_right UNIT_ROUNDOFF); [lra |].
  pose proof unit_roundoff_bound. lra.
Qed.

Lemma coarse_arith_rounded f max_ts min_ts :
  rounded_sum UNIT_ROUNDOFF (add_time (coarse_arith f max_ts min_ts)).
Proof. exact coarse_add_rounded. Qed.

Lemma default_steps_bounded f v :
  DEFAULT_MIN_TIME_STEP
  <= step_of (coarse_arith f DEFAULT_MAX_TIME_STEP DEFAULT_MIN_TIME_STEP) v
  <= DEFAULT_MAX_TIME_STEP.
Proof.
  cbn [step_of coarse_arith]. apply step_size_bounds.
  unfold DEFAULT_MIN_TIME_STEP, DEFAULT_MAX_TIME_STEP. lra.
Qed.

(** At the default steps 120001 iterations cover the 120 seconds also
    when every sum is rounded. *)
Lemma default_steps_cover :
  120 <= INR (S TIME_CAP_STEPS)
         * least_advance UNIT_ROUNDOFF DEFAULT_MIN_TIME_STEP
                         DEFAULT_MAX_TIME_STEP.
Proof.
  rewrite S_INR. unfold TIME_CAP_STEPS.
  rewrite INR_IZR_INZ, Z2Nat.id by lia.
  unfold least_advance, DEFAULT_MIN_TIME_STEP, DEFAULT_MAX_TIME_STEP.
  pose proof unit_roundoff_bound as [H0 H1].
  assert (H2 : / 1000000000000000 <= 0.000000000000001) by lra.
  nra.
Qed.

(** C1, as the code has it.  The RK4 loop runs only while [y >= 0] and
    [t < 120]: it has no elevation offset and no step cap.  Its time advances
    by one rounded sum per iteration, of a step between [min_time_step] and
    [cap]; so, whatever the update of the state does, the call ends within
    [n] iterations, by a return or by an exception, once [n] times the least
    advance [min_time_step - u * (120 + cap)] covers the 120 seconds, and a
    returned trajectory has at most [n] points, each recorded with [y >= 0]
    and [0 <= t < 120].  The loop over the reals is the instance without
    rounding.  The oldest variant has [while y >= 0] alone, and its calls
    need not end: a shell that an updraft carries never comes down. *)
Theorem C1_loop_bounded_by_time
    (m : Arith) (u min_time_step cap : R) (n : nat) (x y vx vy : R) :
  0 <= u -> 0 < min_time_step -> rounded_sum u (add_time m) ->
  (forall v, min_time_step <= step_of m v <= cap) ->
  120 <= INR n * least_advance u min_time_step cap ->
  (exists r,
     (forall fuel, (n < fuel)%nat ->
        integrate_with m fuel (x, y, vx, vy) 0.0 [] = Some r) /\
     (forall traj, r = Ok traj ->
        (length traj <= n)%nat /\
        Forall (fun p => 0 <= sample_y p /\ 0 <= sample_t p < 120) traj)) /\
  (forall f max_time_step min_time_step' fuel state time acc,
     integrate fuel f max_time_step min_time_step' state time acc
     = integrate_with (exact_arith f max_time_step min_time_step')
                      fuel state time acc) /\
  (forall fuel,
     Legacy._calculate_trajectory fuel 48 90 light_shell updraft 0.1 = None).
Proof.
  intros Hu Hmin Hsum Hstep Hn.
  split; [| split].
  - destruct (integrate_with_run m u min_time_step cap Hu Hmin Hsum Hstep
                n (x, y, vx, vy) 0.0 []) as (r & Hrun & Hres); [lra | lra |].
    exists r. split; [exact Hrun |].
    intros traj Hr.
    destruct (Hres traj Hr) as (rest & -> & Hlen & Hall & _).
    split; assumption.
  - intros f max_time_step min_time_step' fuel state time acc.
    apply integrate_with_exact.
  - exact legacy_updraft_never_returns.
Qed.

Lemma C1_loop_bounded_by_time_witness :
  (exists r,
     (forall fuel, (S TIME_CAP_STEPS < fuel)%nat ->
        integrate_with
          (coarse_arith (derivative default_projectile still_air 0.5 0 0)
                        DEFAULT_MAX_TIME_STEP DEFAULT_MIN_TIME_STEP)
          fuel (0, 0, 3, 4) 0.0 [] = Some r) /\
     (forall traj, r = Ok traj ->
        (length traj <= S TIME_CAP_STEPS)%nat /\
        Forall (fun p => 0 <= sample_y p /\ 0 <= sample_t p < 120) traj)) /\
  (forall f max_time_step min_time_step' fuel state time acc,
     integrate fuel f max_time_step min_time_step' state time acc
     = integrate_with (exact_arith f max_time_step min_time_step')
                      fuel state time acc) /\
  (forall fuel,
     Legacy._calculate_trajectory fuel 48 90 light_shell updraft 0.1 = None).
Proof.
  apply (C1_loop_bounded_by_time
           (coarse_arith (derivative default_projectile still_air 0.5 0 0)
                         DEFAULT_MAX_TIME_STEP DEFAULT_MIN_TIME_STEP)
           UNIT_ROUNDOFF DEFAULT_MIN_TIME_STEP DEFAULT_MAX_TIME_STEP
           (S TIME_CAP_STEPS) 0 0 3 4).
  - pose proof unit_roundoff_bound. lra.
  - unfold DEFAULT_MIN_TIME_STEP. lra.
  - apply coarse_arith_rounded.
  - apply default_steps_bounded.
  - exact default_steps_cover.
Defined.

(** C3 as stated fails in the oldest variant: a level shot of its default
    bullet returns the empty trajectory, which has no first point. *)
Lemma C3_legacy_level_shot_counterexample :
  Legacy._calculate_trajectory 2 800 0 legacy_bullet still_air 0.1
  = Some (Ok []) /\
  hd_error (@nil Sample)
  <> Some (0, 0, 0, 800 * cos (radians 0), 800 * sin (radians 0), 800).
Proof.
  split; [| discriminate].
  unfold Legacy._calculate_trajectory, wind_vector.
  cbn [wind_speed wind_angle still_air].
  replace (0 * sin (radians 0)) with 0 by ring.
  replace (800 * sin (radians 0)) with 0
    by (unfold radians; rewrite Rmult_0_l, sin_0; ring).
  apply legacy_level_shot; [lra | | reflexivity].
  unfold legacy_bullet. cbn [Legacy.mass]. lra.
Qed.

(** C3, as the code has it.  In the RK4 integrator, for a positive muzzle
    velocity, every returned trajectory starts with the launch state
    (0, 0, 0, v0 cos(theta), v0 sin(theta), v0): the loop appends the state it
    holds before it advances it.  With the default steps the call ends, and
    what it returns has that first point.  The oldest variant appends after
    the update and only while [y >= 0]: the first point of a trajectory it
    returns is the state one step after the launch. *)
Theorem C3_first_sample_is_launch_state
    (self : Widgets) (mass diameter : R) (drag_model : string)
    (velocity angle altitude temperature pressure humidity : R)
    (wind_speed wind_angle : R) (coriolis : bool) (latitude : R) :
  0 < velocity ->
  (forall max_time_step min_time_step fuel traj,
     _calculate_trajectory self fuel mass diameter drag_model velocity angle
       altitude temperature pressure humidity wind_speed wind_angle
       coriolis latitude max_time_step min_time_step = Some (Ok traj) ->
     hd_error traj
     = Some (0, 0, 0, velocity * cos (radians angle),
             velocity * sin (radians angle), velocity)) /\
  (exists n r,
     (forall fuel, (n < fuel)%nat ->
        _calculate_trajectory self fuel mass diameter drag_model velocity
          angle altitude temperature pressure humidity wind_speed wind_angle
          coriolis latitude DEFAULT_MAX_TIME_STEP DEFAULT_MIN_TIME_STEP
        = Some r) /\
     (forall traj, r = Ok traj ->
        hd_error traj
        = Some (0, 0, 0, velocity * cos (radians angle),
                velocity * sin (radians angle), velocity))) /\
  (forall v0 theta projectile environment time_step fuel traj p,
     Legacy._calculate_trajectory fuel v0 theta projectile environment
       time_step = Some (Ok traj) ->
     hd_error traj = Some p ->
     0 <= sample_y p /\ sample_t p = INR 1 * time_step).
Proof.
  intros Hv. split; [| split].
  - intros max_time_step min_time_step fuel traj.
    now apply calculate_trajectory_first.
  - destruct (calculate_trajectory_bounded self mass diameter drag_model
                velocity angle altitude temperature pressure humidity
                wind_speed wind_angle coriolis latitude DEFAULT_MAX_TIME_STEP
                DEFAULT_MIN_TIME_STEP TIME_CAP_STEPS time_cap_steps_cover)
      as (r & Hrun & _).
    exists TIME_CAP_STEPS, r. split; [exact Hrun |].
    intros traj ->.
    apply (calculate_trajectory_first self mass diameter drag_model velocity
             angle altitude temperature pressure humidity wind_speed
             wind_angle coriolis latitude DEFAULT_MAX_TIME_STEP
             DEFAULT_MIN_TIME_STEP (S TIME_CAP_STEPS) traj Hv).
    apply Hrun. lia.
  - intros v0 theta projectile environment time_step fuel traj p H Hp.
    unfold Legacy._calculate_trajectory in H.
    destruct (wind_vector environment) as [wx wy].
    apply (legacy_loop_trace _ _ _ _ _ _ _ _ _ _ _ _ _ 0%nat) in H;
      [| simpl; lra].
    destruct H as (rest & -> & Hall).
    apply (Hall 0%nat p). destruct rest; [discriminate | exact Hp].
Qed.

Lemma C3_first_sample_is_launch_state_witness :
  (forall max_time_step min_time_step fuel traj,
     _calculate_trajectory bullet_widgets fuel 0.0095 0.00782 "G7" 830 45
       0 15 1013.25 50 0 0 false 45 max_time_step min_time_step
     = Some (Ok traj) ->
     hd_error traj
     = Some (0, 0, 0, 830 * cos (radians 45), 830 * sin (radians 45), 830)) /\
  (exists n r,
     (forall fuel, (n < fuel)%nat ->
        _calculate_trajectory bullet_widgets fuel 0.0095 0.00782 "G7" 830 45
          0 15 1013.25 50 0 0 false 45
          DEFAULT_MAX_TIME_STEP DEFAULT_MIN_TIME_STEP = Some r) /\
     (forall traj, r = Ok traj ->
        hd_error traj
        = Some (0, 0, 0, 830 * cos (radians 45), 830 * sin (radians 45),
                830))) /\
  (forall v0 theta projectile environment time_step fuel traj p,
     Legacy._calculate_trajectory fuel v0 theta projectile environment
       time_step = Some (Ok traj) ->
     hd_error traj = Some p ->
     0 <= sample_y p /\ sample_t p = INR 1 * time_step).
Proof.
  apply (C3_first_sample_is_launch_state bullet_widgets 0.0095 0.00782 "G7"
           830 45 0 15 1013.25 50 0 0 false 45).
  lra.
Defined.

Lemma cover_gives_advance (n : nat) (d : R) : 120 <= INR n * d -> 0 < d.
Proof.
  intros H. pose proof (pos_INR n) as Hn.
  destruct (Rlt_le_dec 0 d) as [Hd | Hd]; [exact Hd |].
  exfalso. assert (INR n * d <= 0) by nra. lra.
Qed.

(** ** The shape of a returned trajectory *)

(** X18: the shape of a trajectory that the RK4 loop returns, whatever the
    rounding of its sums and whatever its update computes.  Started at time 0
    on a state with [y >= 0], with steps between [min_time_step] and [cap]
    and [n] least advances covering the 120 seconds, the loop ends, and a
    trajectory it returns starts with the state it was entered on; the last
    field of each point is the speed at its velocity fields; the time of
    each point is the sum, as the arithmetic computes it, of the time of the
    point before it and the step at that point's speed; and the times
    increase strictly. *)
Theorem X18_trajectory_shape
    (m : Arith) (u min_time_step cap : R) (n : nat) (x y vx vy : R) :
  0 <= u -> 0 < min_time_step -> rounded_sum u (add_time m) ->
  (forall v, min_time_step <= step_of m v <= cap) ->
  120 <= INR n * least_advance u min_time_step cap ->
  0 <= y ->
  exists r,
    (forall fuel, (n < fuel)%nat ->
       integrate_with m fuel (x, y, vx, vy) 0.0 [] = Some r) /\
    forall traj, r = Ok traj ->
      hd_error traj = Some (x, y, 0.0, vx, vy, speed_of m vx vy) /\
      Forall (fun p => sample_speed p = speed_of m (sample_vx p) (sample_vy p))
             traj /\
      (forall i a b,
         nth_error traj i = Some a -> nth_error traj (S i) = Some b ->
         sample_t b = add_time m (sample_t a) (step_of m (sample_speed a))) /\
      (forall i j a b,
         (i < j)%nat -> nth_error traj i = Some a -> nth_error traj j = Some b ->
         sample_t a < sample_t b).
Proof.
  intros Hu Hmin Hsum Hstep Hn Hy.
  pose proof (cover_gives_advance _ _ Hn) as Hadv.
  destruct (integrate_with_run m u min_time_step cap Hu Hmin Hsum Hstep
              n (x, y, vx, vy) 0.0 []) as (r & Hrun & Hres); [lra | lra |].
  exists r. split; [exact Hrun |].
  intros traj Hr.
  destruct (Hres traj Hr) as (rest & -> & _ & Hall & Hsp & Hpaced & Hhd).
  cbn [app].
  assert (Htimes : Forall (fun p => 0 <= sample_t p < 120) rest).
  { eapply Forall_impl; [| exact Hall]. cbv beta. intros p Hp. tauto. }
  split; [apply Hhd; lra |]. split; [exact Hsp |]. split.
  - intros i a b. exact (paced_with_adjacent m rest 0.0 i a b Hpaced).
  - intros i j a b.
    exact (paced_with_increasing m u min_time_step cap Hu Hmin Hsum Hstep
             rest 0.0 i j a b Hpaced Htimes Hadv).
Qed.

Lemma X18_trajectory_shape_witness :
  exists r,
    (forall fuel, (S TIME_CAP_STEPS < fuel)%nat ->
       integrate_with
         (coarse_arith (derivative default_projectile still_air 0.5 0 0)
                       DEFAULT_MAX_TIME_STEP DEFAULT_MIN_TIME_STEP)
         fuel (0, 0, 3, 4) 0.0 [] = Some r) /\
    forall traj, r = Ok traj ->
      hd_error traj = Some (0, 0, 0.0, 3, 4, hypot 3 4) /\
      Forall (fun p => sample_speed p = hypot (sample_vx p) (sample_vy p))
             traj /\
      (forall i a b,
         nth_error traj i = Some a -> nth_error traj (S i) = Some b ->
         sample_t b
         = coarse_add (sample_t a)
             (step_size DEFAULT_MAX_TIME_STEP DEFAULT_MIN_TIME_STEP
                (sample_speed a))) /\
      (forall i j a b,
         (i < j)%nat -> nth_error traj i = Some a -> nth_error traj j = Some b ->
         sample_t a < sample_t b).
Proof.
  apply (X18_trajectory_shape
           (coarse_arith (derivative default_projectile still_air 0.5 0 0)
                         DEFAULT_MAX_TIME_STEP DEFAULT_MIN_TIME_STEP)
           UNIT_ROUNDOFF DEFAULT_MIN_TIME_STEP DEFAULT_MAX_TIME_STEP
           (S TIME_CAP_STEPS) 0 0 3 4).
  - pose proof unit_roundoff_bound. lra.
  - unfold DEFAULT_MIN_TIME_STEP. lra.
  - apply coarse_arith_rounded.
  - apply default_steps_bounded.
  - exact default_steps_cover.
  - lra.
Defined.

(** ** The outcome of a validated calculation *)

Lemma exact_sum_rounded : rounded_sum 0 Rplus.
Proof.
  intros a b. replace (a + b - (a + b)) with 0 by ring.
  rewrite Rabs_R0. lra.
Qed.

(** With the default steps a call ends on any fuel above the number of
    minimum steps in 120 s, and what it returns starts with the launch
    state and holds points recorded with [y >= 0] and [0 <= t < 120]. *)
Lemma calculate_trajectory_ends self mass diameter drag_model velocity angle
    altitude temperature pressure humidity wind_speed wind_angle coriolis
    latitude :
  exists r,
    (forall fuel, (TIME_CAP_STEPS < fuel)%nat ->
       _calculate_trajectory self fuel mass diameter drag_model velocity angle
         altitude temperature pressure humidity wind_speed wind_angle
         coriolis latitude DEFAULT_MAX_TIME_STEP DEFAULT_MIN_TIME_STEP
       = Some r) /\
    forall traj, r = Ok traj ->
      hd_error traj
      = Some (0, 0, 0.0, velocity * cos (radians angle),
              velocity * sin (radians angle),
              hypot (velocity * cos (radians angle))
                    (velocity * sin (radians angle))) /\
      Forall (fun p => 0 <= sample_y p /\ 0 <= sample_t p < 120) traj.
Proof.
  destruct (Environment_init altitude temperature pressure humidity
              wind_speed wind_angle coriolis latitude) as [env | e] eqn:Henv.
  - unfold _calculate_trajectory. rewrite Henv.
    destruct (wind_vector env) as [wx wy].
    set (p := Projectile_init _ _ _ _ _ _ _ _).
    set (f := derivative p env (radians angle) wx wy).
    set (vx := velocity * cos (radians angle)).
    set (vy := velocity * sin (radians angle)).
    destruct (integrate_with_run
                (exact_arith f DEFAULT_MAX_TIME_STEP DEFAULT_MIN_TIME_STEP)
                0 DEFAULT_MIN_TIME_STEP DEFAULT_MAX_TIME_STEP)
      with (n := TIME_CAP_STEPS) (state := (0, 0, vx, vy)) (time := 0.0)
           (acc := @nil Sample)
      as (r & Hrun & Hres).
    + lra.
    + unfold DEFAULT_MIN_TIME_STEP. lra.
    + exact exact_sum_rounded.
    + intros v. cbn [step_of exact_arith]. apply step_size_bounds.
      unfold DEFAULT_MIN_TIME_STEP, DEFAULT_MAX_TIME_STEP. lra.
    + lra.
    + unfold least_advance. pose proof time_cap_steps_cover. lra.
    + exists r. split.
      * intros fuel Hfuel. rewrite integrate_with_exact. now apply Hrun.
      * intros traj Hr.
        destruct (Hres traj Hr) as (rest & -> & _ & Hall & _ & _ & Hhd).
        cbn [app]. split; [| exact Hall].
        cbn [speed_of exact_arith] in Hhd. apply Hhd; lra.
  - exists (Raise e). split; [| discriminate].
    intros fuel _. now apply calculate_trajectory_env_raises.
Qed.



(** ** The parameter sweep *)

Section Sweep.
Variables (add : R -> R -> R) (u : R).
Variables (inp : Inputs) (key : string) (start end_ step : R).
Hypothesis u_nonneg : 0 <= u.
Hypothesis sums_rounded : rounded_sum u add.
Hypothesis step_pos : 0 < step.
Hypothesis advance_pos : 0 < sweep_advance u start end_ step.

(** One rounded sum moves the swept value on by the least advance. *)
Lemma sweep_add_advances val :
  start <= val <= end_ ->
  val + sweep_advance u start end_ step <= add val step.
Proof.
  intros Hval. pose proof (sums_rounded val step) as H.
  pose proof (Rle_abs (- (add val step - (val + step)))) as Habs.
  rewrite Rabs_Ropp in Habs.
  assert (Hsize : Rabs (val + step) <= Rabs start + Rabs end_ + step).
  { pose proof (Rabs_triang val step) as Ht.
    rewrite (Rabs_right step) in Ht by lra.
    assert (Rabs val <= Rabs start + Rabs end_); [| lra].
    pose proof (Rle_abs end_). pose proof (Rle_abs (- start)) as Hs.
    rewrite Rabs_Ropp in Hs. pose proof (Rabs_pos start).
    pose proof (Rabs_pos end_).
    apply Rabs_le. lra. }
  assert (Hprod : u * Rabs (val + step)
                  <= u * (Rabs start + Rabs end_ + step))
    by (apply Rmult_le_compat_l; assumption).
  unfold sweep_advance. lra.
Qed.

Lemma sweep_loop_spec : forall k val,
  start <= val -> end_ - val < INR k * sweep_advance u start end_ step ->
  exists rest,
    (forall fuel runs, (k < fuel)%nat ->
       sweep_loop add fuel inp key val end_ step runs = Some (runs ++ rest)) /\
    (rest = [] <-> end_ < val) /\
    (forall i, (i < length rest)%nat ->
       nth_error rest i
       = Some (set_sweep key (repeated_add add val step i) inp) /\
       repeated_add add val step i <= end_) /\
    end_ < repeated_add add val step (length rest).
Proof.
  induction k as [| k IH]; intros val Hstart Hk.
  - simpl in Hk. exists []. split.
    + intros [| fuel] runs Hf; [lia |]. cbn [sweep_loop].
      replace (leb val end_) with false by (symmetry; apply leb_false; lra).
      now rewrite app_nil_r.
    + split; [split; [lra | reflexivity] |].
      split; [intros i Hi; simpl in Hi; lia |]. simpl. lra.
  - rewrite S_INR in Hk. destruct (leb val end_) eqn:E.
    + pose proof E as Eb. apply leb_true in E.
      pose proof (sweep_add_advances val (conj Hstart E)) as Hadv.
      destruct (IH (add val step)) as (rest & Hrun & _ & Hnth & Hlast);
        [lra | lra |].
      exists (set_sweep key val inp :: rest). split.
      * intros [| fuel] runs Hf; [lia |]. cbn [sweep_loop]. rewrite Eb.
        rewrite Hrun by lia. now rewrite <- app_assoc.
      * split; [split; [discriminate | lra] |]. split.
        -- intros [| i] Hi.
           ++ split; [reflexivity | exact E].
           ++ cbn [nth_error repeated_add]. apply Hnth. simpl in Hi. lia.
        -- exact Hlast.
    + pose proof E as Eb. apply leb_false in E. exists []. split.
      * intros [| fuel] runs Hf; [lia |]. cbn [sweep_loop]. rewrite Eb.
        now rewrite app_nil_r.
      * split; [split; [lra | reflexivity] |].
        split; [intros i Hi; simpl in Hi; lia |]. simpl. lra.
Qed.

Lemma sweep_steps :
  end_ - start
  < INR (Z.to_nat (up ((end_ - start) / sweep_advance u start end_ step)))
    * sweep_advance u start end_ step.
Proof.
  set (d := sweep_advance u start end_ step) in *.
  destruct (archimed ((end_ - start) / d)) as [Hup _].
  set (q := (end_ - start) / d) in *.
  assert (Hq : end_ - start = q * d) by (unfold q; field; lra).
  rewrite Hq. apply Rmult_lt_compat_r; [exact advance_pos |].
  destruct (Z_lt_le_dec (up q) 0) as [Hneg | Hpos].
  - replace (Z.to_nat (up q)) with 0%nat by lia. simpl.
    apply IZR_lt in Hneg. lra.
  - rewrite INR_IZR_INZ, Z2Nat.id by exact Hpos. exact Hup.
Qed.

(** The parameter sets of a sweep. *)
Lemma run_batch_sweep (param : string) :
  param_map param = Some key ->
  exists n runs,
    (forall fuel, (n < fuel)%nat ->
       run_batch add inp param start end_ step fuel
       = Some (match runs with [] => NoParameterSets | _ => Started runs end)) /\
    (runs = [] <-> end_ < start) /\
    (forall i, (i < length runs)%nat ->
       nth_error runs i
       = Some (set_sweep key (repeated_add add start step i) inp) /\
       repeated_add add start step i <= end_) /\
    end_ < repeated_add add start step (length runs).
Proof.
  intros Hkey.
  set (n := Z.to_nat (up ((end_ - start) / sweep_advance u start end_ step))).
  destruct (sweep_loop_spec n start (Rle_refl start) sweep_steps)
    as (runs & Hrun & Hrest).
  exists n, runs. split; [| exact Hrest].
  intros fuel Hfuel. unfold run_batch. rewrite Hkey.
  replace (leb step 0) with false by (symmetry; apply leb_false; lra).
  rewrite (Hrun fuel [] Hfuel). cbn [app]. destruct runs; reflexivity.
Qed.
End Sweep.

(** X24: the sweep of [run_batch], whatever the rounding of [val += step].
    With one of the two sweep parameters, a positive step and sums within
    [u] of the exact ones, [u] so small that a sum still moves the value on
    ([u * (|start| + |end| + step) < step]), the loop ends; the swept values
    are [start] and then each the sum of the one before it and the step; run
    [i] is the form with the [i]-th of them in place of the swept parameter;
    the runs are those up to the first value above [end]; and the "no
    parameter sets" warning is given exactly when [end < start]. *)
Theorem X24_run_batch_sweep
    (add : R -> R -> R) (u : R) (inp : Inputs) (param key : string)
    (start end_ step : R) :
  0 <= u -> rounded_sum u add -> 0 < step ->
  0 < sweep_advance u start end_ step -> param_map param = Some key ->
  exists n runs,
    (forall fuel, (n < fuel)%nat ->
       run_batch add inp param start end_ step fuel
       = Some (match runs with [] => NoParameterSets | _ => Started runs end)) /\
    (runs = [] <-> end_ < start) /\
    (forall i, (i < length runs)%nat ->
       nth_error runs i
       = Some (set_sweep key (repeated_add add start step i) inp) /\
       repeated_add add start step i <= end_) /\
    end_ < repeated_add add start step (length runs).
Proof.
  intros Hu Hsum Hstep Hadv Hkey.
  exact (run_batch_sweep add u inp key start end_ step Hu Hsum Hstep Hadv
           param Hkey).
Qed.

Lemma X24_run_batch_sweep_witness :
  exists n runs,
    (forall fuel, (n < fuel)%nat ->
       run_batch coarse_add bullet_form "Angle" 10 80 5 fuel
       = Some (match runs with [] => NoParameterSets | _ => Started runs end)) /\
    (runs = [] <-> 80 < 10) /\
    (forall i, (i < length runs)%nat ->
       nth_error runs i
       = Some (set_sweep "angle" (repeated_add coarse_add 10 5 i)
                         bullet_form) /\
       repeated_add coarse_add 10 5 i <= 80) /\
    80 < repeated_add coarse_add 10 5 (length runs).
Proof.
  apply (X24_run_batch_sweep coarse_add UNIT_ROUNDOFF bullet_form
           "Angle" "angle" 10 80 5).
  - pose proof unit_roundoff_bound. lra.
  - exact coarse_add_rounded.
  - lra.
  - unfold sweep_advance. rewrite !Rabs_right by lra.
    pose proof unit_roundoff_bound. lra.
  - reflexivity.
Defined.

(** ** The batch thread *)

(** On any fuel above the number of minimum steps in 120 s the batch
    ends, and when it returns it returns one non-empty trajectory per
    parameter set. *)
Lemma batch_run_ends self fuel : forall runs results,
  (TIME_CAP_STEPS < fuel)%nat ->
  exists res,
    batch_run self fuel runs results = Some res /\
    forall trajs, res = Ok trajs ->
      exists new,
        trajs = results ++ new /\ length new = length runs /\
        Forall (fun traj => traj <> []) new.
Proof.
  induction runs as [| inp runs IH]; intros results Hfuel.
  - exists (Ok results). split; [reflexivity |].
    intros trajs [= <-]. exists []. rewrite app_nil_r.
    repeat split. constructor.
  - destruct (calculate_trajectory_ends self (mass_input inp / 1000)
                (diam_input inp / 1000) (drag_model_combo inp)
                (velocity_input inp) (angle_input inp) (altitude_input inp)
                (temp_input inp) (pressure_input inp) (humidity_input inp)
                (wind_speed_input inp) (wind_angle_input inp)
                (coriolis_check inp) (latitude_input inp))
      as ([traj | e] & Hrun & Hres).
    + destruct (Hres traj eq_refl) as [Hhd _].
      destruct (IH (results ++ [traj]) Hfuel) as (res & Hb & Hok).
      exists res. split.
      * cbn [batch_run]. rewrite (Hrun fuel Hfuel). exact Hb.
      * intros trajs Hr.
        destruct (Hok trajs Hr) as (new & -> & Hlen & Hne).
        exists (traj :: new). rewrite <- app_assoc.
        split; [reflexivity |]. split; [simpl; lia |].
        constructor; [| exact Hne]. intros ->. discriminate.
    + exists (Raise e). split; [| discriminate].
      cbn [batch_run]. now rewrite (Hrun fuel Hfuel).
Qed.

(** X28: how a sweep ends.  With one of the two sweep parameters, a
    positive step and sums in [val += step] that move the value on, however
    they are rounded, a sweep either creates no parameter set, or starts the
    batch thread, which ends: by an exception, reported instead of any
    result, or with one trajectory per parameter set, none of them empty. *)
Theorem X28_batch_sweep_completes
    (add : R -> R -> R) (u : R) (self : Widgets) (inp : Inputs)
    (param key : string) (start end_ step : R) :
  0 <= u -> rounded_sum u add -> 0 < step ->
  0 < sweep_advance u start end_ step -> param_map param = Some key ->
  exists n,
    forall fuel, (n < fuel)%nat ->
      run_batch add inp param start end_ step fuel = Some NoParameterSets \/
      exists runs res,
        run_batch add inp param start end_ step fuel = Some (Started runs) /\
        batch_run self fuel runs [] = Some res /\
        forall trajs, res = Ok trajs ->
          length trajs = length runs /\
          Forall (fun traj => traj <> []) trajs.
Proof.
  intros Hu Hsum Hstep Hadv Hkey.
  destruct (run_batch_sweep add u inp key start end_ step Hu Hsum Hstep Hadv
              param Hkey) as (n & runs & Hrun & _).
  exists (Nat.max n TIME_CAP_STEPS). intros fuel Hfuel.
  rewrite (Hrun fuel ltac:(lia)).
  destruct runs as [| r0 runs']; [now left | right].
  destruct (batch_run_ends self fuel (r0 :: runs') [] ltac:(lia))
    as (res & Hb & Hok).
  exists (r0 :: runs'), res. split; [reflexivity |]. split; [exact Hb |].
  intros trajs Hr. destruct (Hok trajs Hr) as (new & -> & Hlen & Hne).
  cbn [app]. split; assumption.
Qed.

Lemma X28_batch_sweep_completes_witness :
  exists n,
    forall fuel, (n < fuel)%nat ->
      run_batch coarse_add bullet_form "Muzzle Velocity" 0 900 100 fuel
      = Some NoParameterSets \/
      exists runs res,
        run_batch coarse_add bullet_form "Muzzle Velocity" 0 900 100 fuel
        = Some (Started runs) /\
        batch_run bullet_widgets fuel runs [] = Some res /\
        forall trajs, res = Ok trajs ->
          length trajs = length runs /\
          Forall (fun traj => traj <> []) trajs.
Proof.
  apply (X28_batch_sweep_completes coarse_add UNIT_ROUNDOFF bullet_widgets
           bullet_form "Muzzle Velocity" "velocity" 0 900 100).
  - pose proof unit_roundoff_bound. lra.
  - exact coarse_add_rounded.
  - lra.
  - unfold sweep_advance. rewrite Rabs_R0, Rabs_right by lra.
    pose proof unit_roundoff_bound. lra.
  - reflexivity.
Defined.

(** ** The fixed-step Euler variant with a time limit *)

(** [Euler.loop] is the loop over the reals. *)
Lemma euler_loop_exact mass diameter drag_model fuel :
  forall x y vx vy t acc,
    Euler.loop fuel mass diameter drag_model x y vx vy t acc
    = Euler.loop_with Rplus (Euler.euler_step mass diameter drag_model)
        fuel (x, y, vx, vy) t acc.
Proof.
  induction fuel as [| fuel IH]; intros x y vx vy t acc; [reflexivity |].
  cbn [Euler.loop Euler.loop_with].
  destruct (geb y 0 && ltb t 120); [| reflexivity].
  unfold Euler.euler_step, div.
  destruct (eqb (mass * hypot vx vy) 0); [reflexivity |].
  cbn [bind].
  destruct (ltb _ 0); [reflexivity |]. apply IH.
Qed.

Section EulerLoop.
Variables (add : R -> R -> R) (advance : State -> result (State * R)).
Variable u : R.
Hypothesis u_nonneg : 0 <= u.
Hypothesis sums_rounded : rounded_sum u add.
Hypothesis advance_pos : 0 < least_advance u Euler.dt Euler.dt.

Lemma euler_add_advances t :
  0 <= t < 120 -> t + least_advance u Euler.dt Euler.dt <= add t Euler.dt.
Proof.
  intros Ht. pose proof (sums_rounded t Euler.dt) as H.
  pose proof (Rle_abs (- (add t Euler.dt - (t + Euler.dt)))) as Habs.
  rewrite Rabs_Ropp in Habs.
  assert (Hdt : 0 < Euler.dt) by (unfold Euler.dt; lra).
  rewrite (Rabs_right (t + Euler.dt)) in H by lra.
  assert (Hprod : u * (t + Euler.dt) <= u * (120 + Euler.dt))
    by (apply Rmult_le_compat_l; lra).
  unfold least_advance. lra.
Qed.

Lemma euler_loop_with_spec : forall k state t acc,
  0 <= t -> 120 - t <= INR k * least_advance u Euler.dt Euler.dt ->
  exists r,
    (forall fuel, (k < fuel)%nat ->
       Euler.loop_with add advance fuel state t acc = Some r) /\
    forall traj, r = Ok traj ->
      exists rest,
        traj = acc ++ rest /\ (length rest <= k)%nat /\
        (let '(_, y, _, _) := state in 0 <= y -> t < 120 -> rest <> []) /\
        forall i p, nth_error rest i = Some p ->
          sample_t p = repeated_add add t Euler.dt (S i) /\
          t < sample_t p /\
          ((S i < length rest)%nat -> 0 <= sample_y p).
Proof.
  assert (stop : forall (acc : list Sample) (k : nat) (t : R) (state : State),
            (let '(_, y, _, _) := state in geb y 0 && ltb t 120 = false) ->
            forall traj, @Ok (list Sample) acc = Ok traj ->
            exists rest, traj = acc ++ rest /\ (length rest <= k)%nat /\
              (let '(_, y, _, _) := state in
               0 <= y -> t < 120 -> rest <> []) /\
              forall i p, nth_error rest i = Some p ->
                sample_t p = repeated_add add t Euler.dt (S i) /\
                t < sample_t p /\
                ((S i < length rest)%nat -> 0 <= sample_y p)).
  { intros acc k t [[[x y] vx] vy] Hguard traj [= <-].
    exists []. rewrite app_nil_r.
    split; [reflexivity |]. split; [simpl; lia |]. split.
    - intros Hy Ht. exfalso.
      apply andb_false_iff in Hguard as [Hg | Hg].
      + apply geb_false in Hg. lra.
      + apply ltb_false in Hg. lra.
    - intros i p Hp. destruct i; discriminate. }
  induction k as [| k IH]; intros [[[x y] vx] vy] t acc Ht Hk.
  - assert (Hguard : geb y 0 && ltb t 120 = false).
    { replace (ltb t 120) with false; [apply andb_false_r |].
      symmetry. apply ltb_false. simpl in Hk. lra. }
    exists (Ok acc). split; [| exact (stop acc _ t (x, y, vx, vy) Hguard)].
    intros [| fuel] Hf; [lia |]. cbn [Euler.loop_with]. now rewrite Hguard.
  - destruct (geb y 0 && ltb t 120) eqn:Hguard.
    2:{ exists (Ok acc). split; [| exact (stop acc _ t (x, y, vx, vy) Hguard)].
        intros [| fuel] Hf; [lia |]. cbn [Euler.loop_with].
        now rewrite Hguard. }
    apply andb_true_iff in Hguard as Hg. destruct Hg as [Hy Ht120].
    apply geb_true in Hy. apply ltb_true in Ht120.
    pose proof (euler_add_advances t (conj Ht Ht120)) as Hadv.
    destruct (advance (x, y, vx, vy)) as [[[[[x' y'] vx'] vy'] v] | e]
      eqn:Hstep.
    2:{ exists (Raise e). split; [| discriminate].
        intros [| fuel] Hf; [lia |]. cbn [Euler.loop_with].
        now rewrite Hguard, Hstep. }
    set (p0 := (x', y', add t Euler.dt, vx', vy', v)).
    assert (Hunfold : forall fuel,
              Euler.loop_with add advance (S fuel) (x, y, vx, vy) t acc
              = if ltb y' 0 then Some (Ok (acc ++ [p0]))
                else Euler.loop_with add advance fuel (x', y', vx', vy')
                       (add t Euler.dt) (acc ++ [p0])).
    { intros fuel. cbn [Euler.loop_with]. now rewrite Hguard, Hstep. }
    destruct (ltb y' 0) eqn:Hy'.
    + exists (Ok (acc ++ [p0])). split.
      * intros [| fuel] Hf; [lia |]. apply Hunfold.
      * intros traj [= <-]. exists [p0]. split; [reflexivity |].
        split; [simpl; lia |]. split; [discriminate |].
        intros [| i] p Hp; [| destruct i; discriminate].
        injection Hp as <-. unfold p0. cbn [sample_t repeated_add].
        split; [reflexivity |]. split; [lra | simpl; lia].
    + apply ltb_false in Hy'.
      destruct (IH (x', y', vx', vy') (add t Euler.dt) (acc ++ [p0]))
        as (r & Hrun & Hres); [lra | rewrite S_INR in Hk; lra |].
      exists r. split.
      * intros [| fuel] Hf; [lia |]. rewrite Hunfold. apply Hrun. lia.
      * intros traj Hr.
        destruct (Hres traj Hr) as (rest & -> & Hlen & _ & Hall).
        exists (p0 :: rest). rewrite <- app_assoc.
        split; [reflexivity |]. split; [simpl; lia |].
        split; [discriminate |].
        intros [| i] p Hp.
        -- injection Hp as <-. unfold p0. cbn [sample_t sample_y repeated_add].
           split; [reflexivity |]. split; [lra | intros _; lra].
        -- cbn [nth_error] in Hp. destruct (Hall i p Hp) as (H1 & H2 & H3).
           split; [exact H1 |]. split; [lra |].
           intros Hlt. apply H3. simpl in Hlt. lia.
Qed.
End EulerLoop.

(** No point of a trajectory that the loop over the reals returns has the
    speed 0: the division by [mass * v] raises there. *)
Lemma euler_loop_speed mass diameter drag_model fuel :
  forall x y vx vy t acc traj,
    Forall (fun p => sample_speed p <> 0) acc ->
    Euler.loop fuel mass diameter drag_model x y vx vy t acc = Some (Ok traj) ->
    Forall (fun p => sample_speed p <> 0) traj.
Proof.
  induction fuel as [| fuel IH]; intros x y vx vy t acc traj Hacc H;
    [discriminate |].
  cbn [Euler.loop] in H.
  destruct (geb y 0 && ltb t 120); [| now injection H as <-].
  unfold div in H.
  destruct (eqb (mass * hypot vx vy) 0) eqn:Hden; [discriminate |].
  apply eqb_false in Hden. cbn [bind] in H.
  assert (Hv : hypot vx vy <> 0).
  { intros Hv0. apply Hden. rewrite Hv0. ring. }
  match type of H with
  | (if ltb _ 0 then _ else _) = _ => destruct (ltb _ 0)
  end.
  - injection H as <-. apply Forall_app. split; [exact Hacc |].
    constructor; [exact Hv | constructor].
  - apply IH in H; [exact H |].
    apply Forall_app. split; [exact Hacc |].
    constructor; [exact Hv | constructor].
Qed.

(** X25: the Euler variant with the 120 s limit, whatever the rounding of
    [t += dt] and whatever the rest of the body computes.  With sums within
    [u] of the exact ones and [n] least advances [0.02 - u * 120.02] covering
    the 120 seconds (6001 of them at the unit roundoff of a double), the
    loop ends within [n] iterations, by a return or by an exception.  A
    returned trajectory has between 1 and [n] points; point [i] carries the
    time after [i + 1] sums, which is positive, so the launch state is not
    among them; every point but the last has [y >= 0].  The loop of the
    program is the instance over the reals; there, for moderate inputs, a
    mass or a muzzle velocity of 0 raises [ZeroDivisionError] in the first
    iteration, and no point of a returned trajectory has the speed 0. *)
Theorem X25_euler_variant_bounded
    (add : R -> R -> R) (advance : State -> result (State * R))
    (u : R) (n : nat) (vx vy : R) :
  0 <= u -> rounded_sum u add ->
  120 <= INR n * least_advance u Euler.dt Euler.dt ->
  (exists r,
     (forall fuel, (n < fuel)%nat ->
        Euler.loop_with add advance fuel (0, 0, vx, vy) 0 [] = Some r) /\
     (forall traj, r = Ok traj ->
        (1 <= length traj <= n)%nat /\
        forall i p, nth_error traj i = Some p ->
          sample_t p = repeated_add add 0 Euler.dt (S i) /\
          0 < sample_t p /\
          ((S i < length traj)%nat -> 0 <= sample_y p))) /\
  (forall mass diameter drag_model fuel x y vx' vy' t acc,
     Euler.loop fuel mass diameter drag_model x y vx' vy' t acc
     = Euler.loop_with Rplus (Euler.euler_step mass diameter drag_model)
         fuel (x, y, vx', vy') t acc) /\
  (forall mass diameter drag_model velocity angle,
     moderate mass -> moderate diameter -> moderate velocity ->
     (mass = 0 \/ velocity = 0 ->
      forall fuel,
        Euler._calculate_trajectory (S fuel) mass diameter drag_model
          velocity angle = Some (Raise ZeroDivisionError)) /\
     (forall fuel traj,
        Euler._calculate_trajectory fuel mass diameter drag_model
          velocity angle = Some (Ok traj) ->
        Forall (fun p => sample_speed p <> 0) traj)).
Proof.
  intros Hu Hsum Hn.
  pose proof (cover_gives_advance _ _ Hn) as Hadv.
  split; [| split].
  - destruct (euler_loop_with_spec add advance u Hu Hsum Hadv n
                (0, 0, vx, vy) 0 []) as (r & Hrun & Hres); [lra | lra |].
    exists r. split; [exact Hrun |].
    intros traj Hr.
    destruct (Hres traj Hr) as (rest & -> & Hlen & Hne & Hall).
    cbn [app]. split; [| exact Hall].
    split; [| exact Hlen].
    destruct rest as [| p rest]; [| simpl; lia].
    exfalso. apply Hne; [lra | lra | reflexivity].
  - intros mass diameter drag_model fuel x y vx' vy' t acc.
    apply euler_loop_exact.
  - intros mass diameter drag_model velocity angle _ _ _. split.
    + intros Hzero fuel. unfold Euler._calculate_trajectory.
      cbn [Euler.loop].
      replace (geb 0 0) with true by (symmetry; apply geb_true; lra).
      replace (ltb 0 120) with true by (symmetry; apply ltb_true; lra).
      cbn [andb].
      set (v := hypot (velocity * cos (radians angle))
                      (velocity * sin (radians angle))).
      assert (Hden : mass * v = 0).
      { destruct Hzero as [-> | ->]; [ring |].
        unfold v. rewrite !Rmult_0_l. rewrite hypot_zero. ring. }
      unfold div.
      replace (eqb (mass * v) 0) with true by (symmetry; now apply eqb_true).
      reflexivity.
    + intros fuel traj H. unfold Euler._calculate_trajectory in H.
      apply euler_loop_speed in H; [exact H | constructor].
Qed.

Lemma X25_euler_variant_bounded_witness :
  (exists r,
     (forall fuel, (S Euler.MAX_POINTS < fuel)%nat ->
        Euler.loop_with coarse_add (Euler.euler_step 0.0095 0.00782 "G7")
          fuel (0, 0, 3, 4) 0 [] = Some r) /\
     (forall traj, r = Ok traj ->
        (1 <= length traj <= S Euler.MAX_POINTS)%nat /\
        forall i p, nth_error traj i = Some p ->
          sample_t p = repeated_add coarse_add 0 Euler.dt (S i) /\
          0 < sample_t p /\
          ((S i < length traj)%nat -> 0 <= sample_y p))) /\
  (forall mass diameter drag_model fuel x y vx' vy' t acc,
     Euler.loop fuel mass diameter drag_model x y vx' vy' t acc
     = Euler.loop_with Rplus (Euler.euler_step mass diameter drag_model)
         fuel (x, y, vx', vy') t acc) /\
  (forall mass diameter drag_model velocity angle,
     moderate mass -> moderate diameter -> moderate velocity ->
     (mass = 0 \/ velocity = 0 ->
      forall fuel,
        Euler._calculate_trajectory (S fuel) mass diameter drag_model
          velocity angle = Some (Raise ZeroDivisionError)) /\
     (forall fuel traj,
        Euler._calculate_trajectory fuel mass diameter drag_model
          velocity angle = Some (Ok traj) ->
        Forall (fun p => sample_speed p <> 0) traj)).
Proof.
  apply (X25_euler_variant_bounded coarse_add
           (Euler.euler_step 0.0095 0.00782 "G7") UNIT_ROUNDOFF
           (S Euler.MAX_POINTS) 3 4).
  - pose proof unit_roundoff_bound. lra.
  - exact coarse_add_rounded.
  - rewrite S_INR. unfold Euler.MAX_POINTS.
    rewrite INR_IZR_INZ, Z2Nat.id by lia.
    unfold least_advance, Euler.dt.
    pose proof unit_roundoff_bound as [H0 H1].
    assert (H2 : / 1000000000000000 <= 0.000000000000001) by lra.
    nra.
Defined.
